(** * Go AI model trainer: the data-acquisition pipeline

    A shallow embedding of [go-ai-model-trainer.py] and the properties of
    its components: the code normaliser, the pattern extractor, the pair
    synthesiser, the GitHub scraper, the documentation scraper, the
    dataset accumulator and the trainer with its entry point. *)

From Stdlib Require Import ZArith NArith Lia Bool Ascii String DecimalString.
From stdpp Require Import base option list sorting gmap.

Local Open Scope N_scope.

(** * Part I: the model *)

(** ** Strings

    A Python [str] is the sequence of its code points. *)

Abbreviation char := N (only parsing).
Abbreviation str := (list N) (only parsing).

(** The code points of a literal of the source (the literals of the
    program are ASCII). *)
Fixpoint lit (s : string) : str :=
  match s with
  | EmptyString => []
  | String a s' => N_of_ascii a :: lit s'
  end.

Definition NL : char := 10.
Definition SLASH : char := 47.
Definition STAR : char := 42.
Definition QUOTE : char := 34.
Definition BACKSLASH : char := 92.

(** [str.isspace] on one code point, which is also the class [\s] of [re]
    on a [str] pattern and the set [str.strip] removes. *)
Definition isspace (c : char) : bool :=
  ((9 <=? c) && (c <=? 13)) || ((28 <=? c) && (c <=? 32))
  || (c =? 133) || (c =? 160) || (c =? 5760)
  || ((8192 <=? c) && (c <=? 8202))
  || (c =? 8232) || (c =? 8233) || (c =? 8239) || (c =? 8287)
  || (c =? 12288).

Fixpoint drop_while (p : char → bool) (s : str) : str :=
  match s with
  | c :: s' => if p c then drop_while p s' else s
  | [] => []
  end.

Definition lstrip (s : str) : str := drop_while isspace s.
Definition rstrip (s : str) : str := rev (drop_while isspace (rev s)).
(** [s.strip()] *)
Definition strip (s : str) : str := rstrip (lstrip s).

(** [s.endswith(suffix)] *)
Definition endswith (s suffix : str) : bool :=
  bool_decide (drop (length s - length suffix)%nat s = suffix).

(** [l[:stop]] for a Python integer [stop]: a negative [stop] counts from
    the end. *)
Definition slice_to {A} (stop : Z) (l : list A) : list A :=
  if (0 <=? stop)%Z then take (Z.to_nat stop) l
  else take (length l - Z.to_nat (- stop))%nat l.

(** ** Regular expressions

    The fragment of [re] the patterns of the program are written in:
    character classes, concatenation, an optional group, greedy and lazy
    repetition of a class, and [$] under [re.MULTILINE].  The matcher is
    the backtracking one of [re]: alternatives are tried in priority
    order against the continuation of the pattern. *)

Inductive regex : Type :=
| Eps
| Chr (p : char → bool)
| Seq (r1 r2 : regex)
| Opt (r : regex)
| Star (greedy : bool) (p : char → bool)
| Eol.

(** [p*]: the longest run first, then shorter ones. *)
Fixpoint star_greedy {A} (p : char → bool) (k : str → option A) (s : str)
  : option A :=
  match s with
  | c :: s' =>
      if p c then
        match star_greedy p k s' with
        | Some x => Some x
        | None => k s
        end
      else k s
  | [] => k []
  end.

(** [p*?]: the empty run first, then longer ones. *)
Fixpoint star_lazy {A} (p : char → bool) (k : str → option A) (s : str)
  : option A :=
  match k s with
  | Some x => Some x
  | None =>
      match s with
      | c :: s' => if p c then star_lazy p k s' else None
      | [] => None
      end
  end.

(** [bt r k s]: match [r] at the head of [s], then the rest of the
    pattern [k] on what is left; the first success in priority order. *)
Fixpoint bt {A} (r : regex) (k : str → option A) (s : str) : option A :=
  match r with
  | Eps => k s
  | Chr p =>
      match s with
      | c :: s' => if p c then k s' else None
      | [] => None
      end
  | Seq r1 r2 => bt r1 (bt r2 k) s
  | Opt r1 =>
      match bt r1 k s with
      | Some x => Some x
      | None => k s
      end
  | Star true p => star_greedy p k s
  | Star false p => star_lazy p k s
  | Eol =>
      match s with
      | [] => k s
      | c :: _ => if c =? NL then k s else None
      end
  end.

(** The length of the match of [r] that starts at the head of [s]. *)
Definition match_len (r : regex) (s : str) : option nat :=
  bt r (λ rest, Some (length s - length rest)%nat) s.

(** [re.sub(r, repl, s)] for a literal [repl]: the leftmost matches, none
    overlapping.  After a match of length [S n] the next [n] characters
    are skipped.  No pattern of the program matches the empty string
    (lemmas [line_comment_nonempty], [block_comment_nonempty],
    [blank_run_nonempty] and [shape_pattern_nonempty]), so the case of an
    empty match stands with the case of no match. *)
Fixpoint sub_from (r : regex) (repl : str) (skip : nat) (s : str) : str :=
  match s with
  | [] => []
  | c :: s' =>
      match skip with
      | S n => sub_from r repl n s'
      | O =>
          match match_len r s with
          | Some (S n) => repl ++ sub_from r repl n s'
          | _ => c :: sub_from r repl 0 s'
          end
      end
  end.

Definition re_sub (r : regex) (repl : str) (s : str) : str :=
  sub_from r repl 0 s.

(** [re.findall(r, s)] for a pattern without groups: the matched texts. *)
Fixpoint findall_from (r : regex) (skip : nat) (s : str) : list str :=
  match s with
  | [] => []
  | c :: s' =>
      match skip with
      | S n => findall_from r n s'
      | O =>
          match match_len r s with
          | Some (S n) => take (S n) s :: findall_from r n s'
          | _ => findall_from r 0 s'
          end
      end
  end.

Definition re_findall (r : regex) (s : str) : list str :=
  findall_from r 0 s.

(** Character classes. *)
Definition ch (a : ascii) : char → bool := N.eqb (N_of_ascii a).
Definition no (a : ascii) (c : char) : bool := negb (ch a c).
(** [.] without [re.DOTALL]: anything but a newline. *)
Definition dot (c : char) : bool := negb (c =? NL).
(** [.] under [re.DOTALL]. *)
Definition any (_ : char) : bool := true.

(** A literal word of a pattern, followed by [r]. *)
Fixpoint word (s : string) (r : regex) : regex :=
  match s with
  | EmptyString => r
  | String a s' => Seq (Chr (ch a)) (word s' r)
  end.

(** The pieces of a pattern, each followed by the rest [r] of it. *)
Definition one (p : char → bool) (r : regex) : regex := Seq (Chr p) r.
(** [p*] *)
Definition many (p : char → bool) (r : regex) : regex := Seq (Star true p) r.
(** [p*?] *)
Definition few (p : char → bool) (r : regex) : regex := Seq (Star false p) r.
(** [p+] *)
Definition plus (p : char → bool) (r : regex) : regex := one p (many p r).
(** [$] *)
Definition eol (r : regex) : regex := Seq Eol r.

(** A pattern, from its pieces in the order they are written. *)
Definition pat (pieces : list (regex → regex)) : regex :=
  foldr (λ piece r, piece r) Eps pieces.
(** [(?:...)?] *)
Definition opt (pieces : list (regex → regex)) (r : regex) : regex :=
  Seq (Opt (pat pieces)) r.

(** ** GoDataProcessor.clean_go_code *)

(** [//.*$] under [re.MULTILINE] *)
Definition line_comment : regex := pat [word "//"; many dot; eol].
(** [/\*.*?\*/] under [re.DOTALL] *)
Definition block_comment : regex := pat [word "/*"; few any; word "*/"].
(** [\n\s*\n] *)
Definition blank_run : regex :=
  pat [one (N.eqb NL); many isspace; one (N.eqb NL)].

Definition clean_go_code (code : str) : str :=
  let code := re_sub line_comment [] code in
  let code := re_sub block_comment [] code in
  let code := re_sub blank_run [NL] code in
  strip code.

(** ** GoDataProcessor.extract_go_patterns

    [\w] on a [str] pattern is [str.isalnum] or an underscore.  The
    alphanumeric property is a table of the Unicode database of the
    runtime: it is a parameter of the patterns. *)

Section Patterns.
Variable isalnum : char → bool.

Definition isword (c : char) : bool := isalnum c || (c =? 95).

(** [func\s+\w+\s*\([^)]*\)\s*(?:\w+\s+)?\{[^}]*\}] *)
Definition func_pattern : regex :=
  pat [word "func"; plus isspace; plus isword; many isspace;
       one (ch "("); many (no ")"); one (ch ")"); many isspace;
       opt [plus isword; plus isspace];
       one (ch "{"); many (no "}"); one (ch "}")].

(** [type\s+\w+\s+interface\s*\{[^}]*\}] *)
Definition interface_pattern : regex :=
  pat [word "type"; plus isspace; plus isword; plus isspace;
       word "interface"; many isspace;
       one (ch "{"); many (no "}"); one (ch "}")].

(** [type\s+\w+\s+struct\s*\{[^}]*\}] *)
Definition struct_pattern : regex :=
  pat [word "type"; plus isspace; plus isword; plus isspace;
       word "struct"; many isspace;
       one (ch "{"); many (no "}"); one (ch "}")].

Definition extract_go_patterns (code : str) : list str :=
  let patterns := [] in
  let patterns := patterns ++ re_findall func_pattern code in
  let patterns := patterns ++ re_findall interface_pattern code in
  let patterns := patterns ++ re_findall struct_pattern code in
  patterns.
End Patterns.

(** The alphanumeric code points below 128, for examples. *)
Definition ascii_alnum (c : char) : bool :=
  ((48 <=? c) && (c <=? 57)) || ((65 <=? c) && (c <=? 90))
  || ((97 <=? c) && (c <=? 122)).

(** ** GoDataProcessor.create_training_pairs *)

(** One training record: the dictionary with the keys [prompt] and
    [completion]. *)
Record TrainingPair : Type := { prompt : str; completion : str }.

Definition explanation_pair (code context : str) : TrainingPair :=
  {| prompt := lit "Explain this Go code:" ++ [NL; NL] ++ take 500 code;
     completion :=
       lit "This Go code " ++ context ++ lit ". Here's what it does:"
       ++ [NL; NL]
       ++ lit "[Detailed explanation of the code structure, functionality, and Go-specific patterns used]" |}.

Definition generation_pair (code context : str) : TrainingPair :=
  {| prompt := lit "Write Go code for: " ++ context;
     completion := take 500 code |}.

Definition debugging_pair (code : str) : TrainingPair :=
  {| prompt := lit "Debug this Go code:" ++ [NL; NL] ++ take 500 code;
     completion :=
       lit "Here are potential issues and improvements:" ++ [NL; NL]
       ++ lit "[Analysis of code quality, potential bugs, and Go best practices]" |}.

Definition improvement_pair (code : str) : TrainingPair :=
  {| prompt := lit "Improve this Go code:" ++ [NL; NL] ++ take 500 code;
     completion :=
       lit "Here's an improved version following Go best practices:"
       ++ [NL; NL]
       ++ lit "[Refactored code with explanations of improvements]" |}.

(** The truth value of a [str]: it is not empty. *)
Definition truthy (s : str) : bool :=
  match s with [] => false | _ :: _ => true end.

Definition create_training_pairs (code context : str) : list TrainingPair :=
  let pairs := [] in
  if negb (truthy (strip code)) then pairs
  else
    let pairs := pairs ++ [explanation_pair code context] in
    let pairs :=
      if truthy context then pairs ++ [generation_pair code context]
      else pairs in
    let pairs := pairs ++ [debugging_pair code] in
    let pairs := pairs ++ [improvement_pair code] in
    pairs.

(** ** Outcomes of a call *)

(** The exceptions of the program.  No handler of the program names one
    of them, so that [binascii.Error], [UnicodeDecodeError],
    [UnicodeEncodeError] and [json.JSONDecodeError] are subclasses of
    [ValueError] makes no difference to what a call does. *)
Inductive exn : Type :=
| KeyError
| ValueError
| BinasciiError
| UnicodeDecodeError
| UnicodeEncodeError
| JSONDecodeError
| TypeError
| AttributeError
| OSError.

(** A call returns a value or leaves with an exception nobody caught. *)
Inductive outcome (A : Type) : Type :=
| Returned (a : A)
| Raised (e : exn).
Arguments Returned {A} a.
Arguments Raised {A} e.

(** What [session.get] followed by [raise_for_status] and [json()] gives:
    a [requests.RequestException] (a network failure or an error
    status), which each caller catches, or the decoded body. *)
Inductive response (A : Type) : Type :=
| RequestException
| Body (data : A).
Arguments RequestException {A}.
Arguments Body {A} data.

(** ** GitHubGoScraper.get_top_go_repos

    The search endpoint answers the request for page [n] with
    [session_get n]; the body is the value under the key [items], if the
    body has that key. *)

Section Search.
Context {Repo : Type}.
Variable session_get : nat → response (option (list Repo)).
Variable limit : Z.

(** The [while] loop, from the state [(repos, page)].  [fuel] bounds
    the number of requests; [None] says the bound was reached with the
    loop still running. *)
Fixpoint fetch_loop (fuel : nat) (repos : list Repo) (page : nat)
  : option (outcome (list Repo)) :=
  if (Z.of_nat (length repos) <? limit)%Z then
    match fuel with
    | O => None
    | S fuel' =>
        match session_get page with
        | RequestException => Some (Returned repos)
        | Body None => Some (Raised KeyError)
        | Body (Some items) => fetch_loop fuel' (repos ++ items) (S page)
        end
    end
  else Some (Returned repos).

Definition get_top_go_repos (fuel : nat) : option (outcome (list Repo)) :=
  match fetch_loop fuel [] 1 with
  | Some (Returned repos) => Some (Returned (slice_to limit repos))
  | Some (Raised e) => Some (Raised e)
  | None => None
  end.

(** The items of the [n] pages from [page] on, in the order of
    delivery. *)
Definition items_of (r : response (option (list Repo))) : list Repo :=
  match r with
  | Body (Some items) => items
  | _ => []
  end.

Fixpoint delivered (page n : nat) : list Repo :=
  match n with
  | O => []
  | S n' => items_of (session_get page) ++ delivered (S page) n'
  end.

(** Each of the [n] pages from [page] on was fetched and has items. *)
Definition all_fetched (page n : nat) : Prop :=
  ∀ i, (i < n)%nat → ∃ items, session_get (page + i)%nat = Body (Some items).
End Search.

(** ** GitHubGoScraper.get_repo_files *)

(** An entry of a tree listing. *)
Record TreeItem : Type := { item_type : str; item_path : str }.

Definition trees_url (repo : str) : str :=
  lit "https://api.github.com/repos/" ++ repo ++ lit "/git/trees/main".

Definition is_go_blob (item : TreeItem) : bool :=
  bool_decide (item_type item = lit "blob")
  && endswith (item_path item) (lit ".go").

(** The body of the [for] loop. *)
Definition keep_go_file (max_files : Z) (go_files : list TreeItem)
    (item : TreeItem) : list TreeItem :=
  if is_go_blob item && (Z.of_nat (length go_files) <? max_files)%Z
  then go_files ++ [item]
  else go_files.

(** The body of the response is the value under the key [tree], if
    any: [tree.get('tree', [])]. *)
Definition get_repo_files
    (session_get : str → response (option (list TreeItem)))
    (repo : str) (max_files : Z) : list TreeItem :=
  match session_get (trees_url repo) with
  | Body tree => foldl (keep_go_file max_files) [] (default [] tree)
  | RequestException => []
  end.

(** ** GitHubGoScraper.download_file_content

    [a2b_base64] and [utf8_decode] are [binascii.a2b_base64] and
    [bytes.decode('utf-8')] of the runtime; [None] is their exception.
    The body of the response is the value under the key [content], if the
    body has that key. *)

Definition contents_url (repo path : str) : str :=
  lit "https://api.github.com/repos/" ++ repo ++ lit "/contents/" ++ path.

Section Download.
Context {Bytes : Type}.
Variable a2b_base64 : str → option Bytes.
Variable utf8_decode : Bytes → option str.
Variable session_get : str → response (option str).

(** [base64.b64decode(s)] on a [str]: the text is first encoded in
    ASCII, which raises [ValueError] on a code point above 127; what
    [binascii.a2b_base64] rejects raises [binascii.Error]. *)
Definition b64decode (s : str) : outcome Bytes :=
  if forallb (λ c, c <? 128) s then
    match a2b_base64 s with
    | Some raw => Returned raw
    | None => Raised BinasciiError
    end
  else Raised ValueError.

Definition download_file_content (repo path : str)
  : outcome (option str) :=
  match session_get (contents_url repo path) with
  | Body data =>
      match data with
      | Some encoded =>
          match b64decode encoded with
          | Returned raw =>
              match utf8_decode raw with
              | Some content => Returned (Some content)
              | None => Raised UnicodeDecodeError
              end
          | Raised e => Raised e
          end
      | None => Raised KeyError
      end
  | RequestException => Returned None
  end.
End Download.

(** ** Numbers

    An [int] of the runtime is an integer (the limits the interpreter
    sets on the depth of a recursion and on the digits of an [int] are
    not modelled).  A [float] is an IEEE 754 binary64: a NaN, an
    infinity, or [m * 2 ^ e] with its sign, where [m < 2 ^ 53] and
    [-1074 <= e <= 971], and [2 ^ 52 <= m] unless [e = -1074]; zero is
    [m = 0]. *)

Inductive float : Type :=
| NaN
| Infinity (negative : bool)
| Finite (negative : bool) (m e : Z).

Definition float_eqb (x y : float) : bool :=
  match x, y with
  | NaN, NaN => true
  | Infinity a, Infinity b => eqb a b
  | Finite a m e, Finite b m' e' => eqb a b && (m =? m')%Z && (e =? e')%Z
  | _, _ => false
  end.

Definition is_digit (c : char) : bool := (48 <=? c) && (c <=? 57).

(** The integer a run of digits writes. *)
Definition int_of_digits (digits : str) : Z :=
  foldl (λ n c, (10 * n + Z.of_N (c - 48))%Z) 0%Z digits.

(** The digits of an integer that is not negative. *)
Definition digits_of (n : Z) : str :=
  lit (NilZero.string_of_uint (N.to_uint (Z.to_N n))).

(** [int.__repr__] *)
Definition int_repr (n : Z) : str :=
  if (n <? 0)%Z then lit "-" ++ digits_of (- n) else digits_of n.

(** The fraction [n / (d * base ^ k)], for any sign of [k]. *)
Definition ratio_over (base n d k : Z) : Z * Z :=
  if (0 <=? k)%Z then (n, (d * base ^ k)%Z) else ((n * base ^ (- k))%Z, d).

(** The integer nearest to [n / d], the even one of two as near. *)
Definition div_half_even (n d : Z) : Z :=
  let q := (n / d)%Z in
  let r := (n mod d)%Z in
  if (2 * r <? d)%Z then q
  else if (d <? 2 * r)%Z then (q + 1)%Z
  else if Z.even q then q else (q + 1)%Z.

(** The [float] nearest to [n / d] for positive [n] and [d], as the
    conversions of the runtime round: to the nearest, to the even
    mantissa of two as near, to an infinity beyond the largest. *)
Definition nearest_float (negative : bool) (n d : Z) : float :=
  let a := (Z.log2 n - Z.log2 d)%Z in
  let '(n1, d1) := ratio_over 2 n d a in
  let e2 := if (n1 <? d1)%Z then (a - 1)%Z else a in
  let k := Z.max (e2 - 52) (-1074) in
  let '(n2, d2) := ratio_over 2 n d k in
  let q := div_half_even n2 d2 in
  let '(q, k) := if (q =? 2 ^ 53)%Z then ((2 ^ 52)%Z, (k + 1)%Z) else (q, k) in
  if (971 <? k)%Z then Infinity negative else Finite negative q k.

(** [float(text)] for the text of [digits * 10 ^ exponent]: the nearest
    [float].  A text of [size] digits writes a number below
    [10 ^ (size + exponent)] and not below [10 ^ (size + exponent - 1)],
    so far outside the range of [float] the result is known without the
    division. *)
Definition float_of_decimal (negative : bool) (digits exponent : Z) : float :=
  if (digits =? 0)%Z then Finite negative 0 (-1074)
  else
    let size := Z.of_nat (length (digits_of digits)) in
    if (size + exponent <? -330)%Z then Finite negative 0 (-1074)
    else if (310 <? size + exponent)%Z then Infinity negative
    else
      let '(n, d) := ratio_over 10 digits 1 (- exponent) in
      nearest_float negative n d.

(** The number [c * 10 ^ p] of [prec] digits that stands for
    [m * 2 ^ e = n / d]: the nearest of the two numbers of [prec] digits
    around it that [float] reads back as [m * 2 ^ e], if any does;
    [e10] is the exponent of the first digit. *)
Definition digits_at (m e n d e10 prec : Z) : option (Z * Z) :=
  let p := (e10 - (prec - 1))%Z in
  let '(n1, d1) := ratio_over 10 n d p in
  let lo := (n1 / d1)%Z in
  let r := (n1 mod d1)%Z in
  let hi := (lo + 1)%Z in
  let reads c := float_eqb (float_of_decimal false c p) (Finite false m e) in
  match reads lo, reads hi with
  | true, true =>
      Some (if (2 * r <? d1)%Z then lo
            else if (d1 <? 2 * r)%Z then hi
            else if Z.even lo then lo else hi, p)
  | true, false => Some (lo, p)
  | false, true => Some (hi, p)
  | false, false => None
  end.

(** The shortest digits that [float] reads back as [m * 2 ^ e], for a
    positive [m]: [c] and [p] with [c * 10 ^ p] the number written.
    Seventeen digits always do. *)
Definition shortest_digits (m e : Z) : Z * Z :=
  let '(n, d) := ratio_over 2 m 1 (- e) in
  let a := (Z.of_nat (length (digits_of n)) - Z.of_nat (length (digits_of d)))%Z in
  let '(n1, d1) := ratio_over 10 n d a in
  let e10 := if (n1 <? d1)%Z then (a - 1)%Z else a in
  match omap (λ prec, digits_at m e n d e10 (Z.of_nat prec)) (seq 1 17) with
  | found :: _ => found
  | [] => (0%Z, 0%Z)
  end.

Fixpoint drop_zeros (rev_digits : str) : str :=
  match rev_digits with
  | c :: s => if c =? 48 then drop_zeros s else rev_digits
  | [] => []
  end.

(** The exponent of the scientific notation: a sign and two digits at
    least. *)
Definition exponent_text (x : Z) : str :=
  (if (x <? 0)%Z then lit "-" else lit "+")
  ++ (if (Z.abs x <? 10)%Z then lit "0" else []) ++ digits_of (Z.abs x).

(** [float.__repr__]: the shortest digits that read back as the value,
    in scientific notation when the decimal point would stand more than
    16 digits to the right or more than 3 zeros to the left. *)
Definition float_repr (x : float) : str :=
  match x with
  | NaN => lit "nan"
  | Infinity negative => if negative then lit "-inf" else lit "inf"
  | Finite negative m e =>
      (if negative then lit "-" else [])
      ++ (if (m =? 0)%Z then lit "0.0"
          else
            let '(c, p) := shortest_digits m e in
            let decpt := (Z.of_nat (length (digits_of c)) + p)%Z in
            let digits := rev (drop_zeros (rev (digits_of c))) in
            if (decpt <=? -4)%Z || (16 <? decpt)%Z then
              take 1 digits
              ++ (if (1 <? length digits)%nat then lit "." ++ drop 1 digits
                  else [])
              ++ lit "e" ++ exponent_text (decpt - 1)
            else if (decpt <=? 0)%Z then
              lit "0." ++ repeat 48 (Z.to_nat (- decpt)) ++ digits
            else if (decpt <? Z.of_nat (length digits))%Z then
              take (Z.to_nat decpt) digits ++ lit "."
              ++ drop (Z.to_nat decpt) digits
            else
              digits ++ repeat 48 (Z.to_nat decpt - length digits)%nat
              ++ lit ".0")
  end.

(** ** JSON

    The values [json.load] makes and [json.dump] writes. *)

#[local] Unset Elimination Schemes.
Inductive json : Type :=
| JNull
| JBool (b : bool)
| JInt (n : Z)
| JFloat (x : float)
| JStr (s : str)
| JList (items : list json)
| JDict (members : list (str * json)).
#[local] Set Elimination Schemes.

(** *** json.dumps(value, indent=2, ensure_ascii=False) *)

Definition hexdigit (n : N) : char := if n <? 10 then 48 + n else 87 + n.

(** [ESCAPE_DCT]: the quote, the backslash and the control characters. *)
Definition escape_char (c : char) : str :=
  if c =? QUOTE then [BACKSLASH; QUOTE]
  else if c =? BACKSLASH then [BACKSLASH; BACKSLASH]
  else if c =? 10 then lit "\n"
  else if c =? 13 then lit "\r"
  else if c =? 9 then lit "\t"
  else if c =? 12 then lit "\f"
  else if c =? 8 then lit "\b"
  else if c <? 32 then lit "\u00" ++ [hexdigit (c / 16); hexdigit (c mod 16)]
  else [c].

Definition encode_string (s : str) : str :=
  [QUOTE] ++ concat (map escape_char s) ++ [QUOTE].

Definition newline_indent (level : nat) : str := NL :: repeat 32 (2 * level)%nat.

Fixpoint join (sep : str) (parts : list str) : str :=
  match parts with
  | [] => []
  | [p] => p
  | p :: ps => p ++ sep ++ join sep ps
  end.

(** [floatstr] of the encoder, which lets the values that are no
    numbers through ([allow_nan] at its default). *)
Definition floatstr (x : float) : str :=
  match x with
  | NaN => lit "NaN"
  | Infinity negative => if negative then lit "-Infinity" else lit "Infinity"
  | Finite _ _ _ => float_repr x
  end.

Fixpoint dumps (level : nat) (v : json) : str :=
  match v with
  | JNull => lit "null"
  | JBool b => if b then lit "true" else lit "false"
  | JInt n => int_repr n
  | JFloat x => floatstr x
  | JStr s => encode_string s
  | JList items =>
      match items with
      | [] => lit "[]"
      | _ =>
          lit "[" ++ newline_indent (S level)
          ++ join (lit "," ++ newline_indent (S level))
                  (map (dumps (S level)) items)
          ++ newline_indent level ++ lit "]"
      end
  | JDict members =>
      match members with
      | [] => lit "{}"
      | _ =>
          lit "{" ++ newline_indent (S level)
          ++ join (lit "," ++ newline_indent (S level))
                  (map (λ m, match m with
                             | (k, x) => encode_string k ++ lit ": "
                                         ++ dumps (S level) x
                             end) members)
          ++ newline_indent level ++ lit "}"
      end
  end.

(** *** json.loads *)

Definition is_json_ws (c : char) : bool :=
  (c =? 32) || (c =? 9) || (c =? 10) || (c =? 13).
Definition skip_ws (s : str) : str := drop_while is_json_ws s.

Definition hexval (c : char) : option N :=
  if (48 <=? c) && (c <=? 57) then Some (c - 48)
  else if (97 <=? c) && (c <=? 102) then Some (c - 87)
  else if (65 <=? c) && (c <=? 70) then Some (c - 55)
  else None.

Definition hex4 (a b c d : char) : option N :=
  match hexval a, hexval b, hexval c, hexval d with
  | Some x1, Some x2, Some x3, Some x4 =>
      Some (((x1 * 16 + x2) * 16 + x3) * 16 + x4)
  | _, _, _, _ => None
  end.

(** The character of a one-letter escape. *)
Definition unescape (e : char) : option char :=
  if e =? QUOTE then Some QUOTE
  else if e =? BACKSLASH then Some BACKSLASH
  else if e =? 47 then Some 47
  else if e =? 98 then Some 8
  else if e =? 102 then Some 12
  else if e =? 110 then Some 10
  else if e =? 114 then Some 13
  else if e =? 116 then Some 9
  else None.

Definition is_high_surrogate (u : N) : bool := (55296 <=? u) && (u <=? 56319).
Definition is_low_surrogate (u : N) : bool := (56320 <=? u) && (u <=? 57343).

Definition cons_to (c : char) (r : option (str * str)) : option (str * str) :=
  match r with
  | Some (t, rest) => Some (c :: t, rest)
  | None => None
  end.

(** [scanstring], strict: from the character after the opening quote to
    the closing quote; the text and what follows the closing quote. *)
Fixpoint scan_string (s : str) : option (str * str) :=
  match s with
  | [] => None
  | c :: s1 =>
      if c =? QUOTE then Some ([], s1)
      else if c =? BACKSLASH then
        match s1 with
        | [] => None
        | e :: s2 =>
            if e =? 117 then
              match s2 with
              | h1 :: h2 :: h3 :: h4 :: s3 =>
                  match hex4 h1 h2 h3 h4 with
                  | None => None
                  | Some uni =>
                      match s3 with
                      | b :: u :: l1 :: l2 :: l3 :: l4 :: s4 =>
                          if is_high_surrogate uni && (b =? BACKSLASH)
                             && (u =? 117)
                          then
                            match hex4 l1 l2 l3 l4 with
                            | None => None
                            | Some uni2 =>
                                if is_low_surrogate uni2 then
                                  cons_to (65536 + ((uni - 55296) * 1024
                                                    + (uni2 - 56320)))
                                          (scan_string s4)
                                else cons_to uni (scan_string s3)
                            end
                          else cons_to uni (scan_string s3)
                      | _ => cons_to uni (scan_string s3)
                      end
                  end
              | _ => None
              end
            else
              match unescape e with
              | Some x => cons_to x (scan_string s2)
              | None => None
              end
        end
      else if c <? 32 then None
      else cons_to c (scan_string s1)
  end.

(** [strip_prefix p s]: [s] without its prefix [p]. *)
Fixpoint strip_prefix (p s : str) : option str :=
  match p, s with
  | [], _ => Some s
  | a :: p', b :: s' => if a =? b then strip_prefix p' s' else None
  | _ :: _, [] => None
  end.

(** A dictionary with [k] set to [x]: a key that is there keeps its
    place. *)
Fixpoint dict_set (k : str) (x : json) (d : list (str * json))
  : list (str * json) :=
  match d with
  | [] => [(k, x)]
  | (k', x') :: d' =>
      if bool_decide (k = k') then (k, x) :: d' else (k', x') :: dict_set k x d'
  end.

(** The digits a text starts with, and what follows them. *)
Fixpoint span_digits (s : str) : str * str :=
  match s with
  | c :: s' =>
      if is_digit c then
        let '(digits, rest) := span_digits s' in (c :: digits, rest)
      else ([], s)
  | [] => ([], [])
  end.

(** [NUMBER_RE], the number at the head of a text and what follows it:
    a sign, an integer part without a leading zero, a fraction and an
    exponent, each of the last two only if it has a digit.  A number
    with neither is an [int], any other a [float]. *)
Definition scan_number (s : str) : option (json * str) :=
  let '(negative, s1) :=
    match s with
    | c :: s' => if c =? 45 then (true, s') else (false, s)
    | [] => (false, s)
    end in
  let integer :=
    match s1 with
    | c :: s2 =>
        if c =? 48 then Some ([c], s2)
        else if is_digit c then
          let '(digits, rest) := span_digits s2 in Some (c :: digits, rest)
        else None
    | [] => None
    end in
  match integer with
  | None => None
  | Some (whole, s3) =>
      let '(frac, s4) :=
        match s3 with
        | point :: ((d :: _) as s') =>
            if (point =? 46) && is_digit d then span_digits s' else ([], s3)
        | _ => ([], s3)
        end in
      let '(exp, s5) :=
        match s4 with
        | e :: s' =>
            if (e =? 101) || (e =? 69) then
              let '(negative_exp, s'') :=
                match s' with
                | c :: t =>
                    if c =? 45 then (true, t)
                    else if c =? 43 then (false, t) else (false, s')
                | [] => (false, s')
                end in
              match span_digits s'' with
              | ([], _) => (None, s4)
              | (digits, rest) =>
                  (Some (if negative_exp then (- int_of_digits digits)%Z
                         else int_of_digits digits), rest)
              end
            else (None, s4)
        | [] => (None, s4)
        end in
      match frac, exp with
      | [], None =>
          Some (JInt (if negative then (- int_of_digits whole)%Z
                      else int_of_digits whole), s5)
      | _, _ =>
          Some (JFloat (float_of_decimal negative
                          (int_of_digits (whole ++ frac))
                          (default 0%Z exp - Z.of_nat (length frac))), s5)
      end
  end.

(** A number, or one of the three constants that are no numbers. *)
Definition scan_constant (s : str) : option (json * str) :=
  match scan_number s with
  | Some found => Some found
  | None =>
      match strip_prefix (lit "NaN") s with
      | Some rest => Some (JFloat NaN, rest)
      | None =>
          match strip_prefix (lit "Infinity") s with
          | Some rest => Some (JFloat (Infinity false), rest)
          | None =>
              match strip_prefix (lit "-Infinity") s with
              | Some rest => Some (JFloat (Infinity true), rest)
              | None => None
              end
          end
      end
  end.

(** The scanner: a value at the head of [s], and what follows it.
    [fuel] bounds the number of values and separators read. *)
Fixpoint parse_value (fuel : nat) (s : str) : option (json * str) :=
  match fuel with
  | O => None
  | S fuel' =>
      match s with
      | [] => None
      | c :: s1 =>
          if c =? QUOTE then
            match scan_string s1 with
            | Some (t, rest) => Some (JStr t, rest)
            | None => None
            end
          else if c =? 91 then
            match skip_ws s1 with
            | [] => None
            | c2 :: s2 =>
                if c2 =? 93 then Some (JList [], s2)
                else
                  match parse_items fuel' (c2 :: s2) [] with
                  | Some (items, rest) => Some (JList items, rest)
                  | None => None
                  end
            end
          else if c =? 123 then
            match skip_ws s1 with
            | [] => None
            | c2 :: s2 =>
                if c2 =? 125 then Some (JDict [], s2)
                else
                  match parse_members fuel' (c2 :: s2) [] with
                  | Some (members, rest) => Some (JDict members, rest)
                  | None => None
                  end
            end
          else
            match strip_prefix (lit "null") s with
            | Some rest => Some (JNull, rest)
            | None =>
                match strip_prefix (lit "true") s with
                | Some rest => Some (JBool true, rest)
                | None =>
                    match strip_prefix (lit "false") s with
                    | Some rest => Some (JBool false, rest)
                    | None => scan_constant s
                    end
                end
            end
      end
  end
with parse_items (fuel : nat) (s : str) (acc : list json)
  : option (list json * str) :=
  match fuel with
  | O => None
  | S fuel' =>
      match parse_value fuel' s with
      | None => None
      | Some (x, rest) =>
          match skip_ws rest with
          | [] => None
          | c :: s1 =>
              if c =? 93 then Some (acc ++ [x], s1)
              else if c =? 44 then parse_items fuel' (skip_ws s1) (acc ++ [x])
              else None
          end
      end
  end
with parse_members (fuel : nat) (s : str) (acc : list (str * json))
  : option (list (str * json) * str) :=
  match fuel with
  | O => None
  | S fuel' =>
      match s with
      | [] => None
      | q :: s1 =>
          if q =? QUOTE then
            match scan_string s1 with
            | None => None
            | Some (k, s2) =>
                match skip_ws s2 with
                | [] => None
                | colon :: s3 =>
                    if colon =? 58 then
                      match parse_value fuel' (skip_ws s3) with
                      | None => None
                      | Some (x, s4) =>
                          match skip_ws s4 with
                          | [] => None
                          | c :: s5 =>
                              if c =? 125 then Some (dict_set k x acc, s5)
                              else if c =? 44 then
                                parse_members fuel' (skip_ws s5)
                                              (dict_set k x acc)
                              else None
                          end
                      end
                    else None
                end
            end
          else None
      end
  end.

(** [None]: the text is no JSON document, and [json.loads] raises
    [JSONDecodeError]. *)
Definition json_loads (s : str) : option json :=
  match parse_value (S (length s)) (skip_ws s) with
  | Some (x, rest) =>
      match skip_ws rest with
      | [] => Some x
      | _ :: _ => None
      end
  | None => None
  end.

(** ** GoModelTrainer: the dataset in memory and on disk *)

(** The dictionary [create_training_pairs] builds for one pair. *)
Definition pair_json (p : TrainingPair) : json :=
  JDict [(lit "prompt", JStr (prompt p)); (lit "completion", JStr (completion p))].

(** A sequence of pairs, as the value of [self.training_data]. *)
Definition dataset (pairs : list TrainingPair) : json :=
  JList (map pair_json pairs).

Record GoModelTrainer : Type := { training_data : json }.

(** [GoModelTrainer.__init__] *)
Definition new_trainer : GoModelTrainer := {| training_data := JList [] |}.

(** A file, opened in text mode with the encoding utf-8, is the text it
    holds; the file system maps the paths that exist to their files. *)
Abbreviation filesystem := (gmap (list N) (list N)) (only parsing).

(** The code points utf-8 encodes: all but the surrogates. *)
Definition utf8_encodable (c : char) : bool :=
  (c <? 55296) || ((57343 <? c) && (c <=? 1114111)).

Inductive level : Type := INFO | WARNING | ERROR.
(** A record of the logger. *)
Definition log_record : Type := level * str.

(** [str(n)] *)
Definition decimal (n : nat) : str :=
  lit (NilZero.string_of_uint (Nat.to_uint n)).

(** [len(value)]; [None] is its [TypeError]. *)
Definition py_len (v : json) : option nat :=
  match v with
  | JList items => Some (length items)
  | JDict members => Some (length members)
  | JStr s => Some (length s)
  | JNull | JBool _ | JInt _ | JFloat _ => None
  end.

(** The file system after the call, or its exception: the [OSError] of
    a path that [open(output_file, 'w')] cannot open (in a directory
    that does not exist, say; [writable] tells what the operating system
    lets be opened), or the [UnicodeEncodeError] of a text utf-8 does
    not encode (what the file then holds is not modelled); and what the
    call logged. *)
Definition save_training_data (writable : str → bool) (output_file : str)
    (self : GoModelTrainer) (fs : filesystem)
  : outcome filesystem * list log_record :=
  let logged := [(INFO, lit "Saving training data to " ++ output_file)] in
  if writable output_file then
    let text := dumps 0 (training_data self) in
    if forallb utf8_encodable text
    then (Returned (<[output_file := text]> fs), logged)
    else (Raised UnicodeEncodeError, logged)
  else (Raised OSError, logged).


(** The trainer after the call, how the call ended, and what it logged. *)
Definition load_training_data (input_file : str) (self : GoModelTrainer)
    (fs : filesystem) : GoModelTrainer * option exn * list log_record :=
  let logged := [(INFO, lit "Loading training data from " ++ input_file)] in
  match fs !! input_file with
  | Some text =>
      match json_loads text with
      | Some data =>
          let self := {| training_data := data |} in
          match py_len data with
          | Some n =>
              (self, None,
               logged ++ [(INFO, lit "Loaded " ++ decimal n
                                 ++ lit " training pairs")])
          | None => (self, Some TypeError, logged)
          end
      | None => (self, Some JSONDecodeError, logged)
      end
  | None =>
      (self, None,
       logged ++ [(WARNING, lit "Training data file " ++ input_file
                            ++ lit " not found")])
  end.

(** ** GoModelTrainer.prepare_dataset *)

(** The truth value of a value: [None], [False], zero and what is empty
    are false. *)
Definition json_truthy (v : json) : bool :=
  match v with
  | JNull => false
  | JBool b => b
  | JInt n => negb (n =? 0)%Z
  | JFloat x => match x with Finite _ m _ => negb (m =? 0)%Z | _ => true end
  | JStr s => truthy s
  | JList items => match items with [] => false | _ :: _ => true end
  | JDict members => match members with [] => false | _ :: _ => true end
  end.

(** What a [for] loop over a value goes through: the items of a list,
    the keys of a dictionary, the characters of a string; [None] is the
    [TypeError] of a value that is not iterable. *)
Definition py_iter (v : json) : option (list json) :=
  match v with
  | JList items => Some items
  | JDict members => Some (map (λ m, JStr m.1) members)
  | JStr s => Some (map (λ c, JStr [c]) s)
  | JNull | JBool _ | JInt _ | JFloat _ => None
  end.

(** [d[key]] on the members of a dictionary. *)
Fixpoint dict_get (key : str) (d : list (str * json)) : option json :=
  match d with
  | [] => None
  | (k, x) :: d' => if bool_decide (key = k) then Some x else dict_get key d'
  end.

(** [item[key]] for a [str] key: a dictionary without the key raises
    [KeyError]; a value that is not a dictionary takes no [str] index. *)
Definition getitem (item : json) (key : str) : outcome json :=
  match item with
  | JDict members =>
      match dict_get key members with
      | Some x => Returned x
      | None => Raised KeyError
      end
  | JNull | JBool _ | JInt _ | JFloat _ | JStr _ | JList _ =>
      Raised TypeError
  end.

Section Format.
(** [repr] of a list or a dictionary, of the runtime. *)
Variable repr : json → str.

(** A value in a replacement field of an f-string: a [str] stands for
    itself. *)
Definition py_format (v : json) : str :=
  match v with
  | JStr s => s
  | JNull => lit "None"
  | JBool true => lit "True"
  | JBool false => lit "False"
  | JInt n => int_repr n
  | JFloat x => float_repr x
  | JList _ | JDict _ => repr v
  end.

(** The text of one item. *)
Definition format_item (item : json) : outcome str :=
  match getitem item (lit "prompt") with
  | Raised e => Raised e
  | Returned p =>
      match getitem item (lit "completion") with
      | Raised e => Raised e
      | Returned c =>
          Returned (lit "Human: " ++ py_format p ++ [NL]
                    ++ lit "Assistant: " ++ py_format c
                    ++ lit "<|endoftext|>")
      end
  end.

(** The [for] loop, from the texts gathered so far. *)
Fixpoint format_items (formatted_data : list str) (items : list json)
  : outcome (list str) :=
  match items with
  | [] => Returned formatted_data
  | item :: items' =>
      match format_item item with
      | Raised e => Raised e
      | Returned text => format_items (formatted_data ++ [text]) items'
      end
  end.

(** What the call returns or raises, and what it logged. *)
Definition prepare_dataset (self : GoModelTrainer)
  : outcome (option (list str)) * list log_record :=
  let logged := [(INFO, lit "Preparing dataset...")] in
  if negb (json_truthy (training_data self)) then
    (Returned None, logged ++ [(ERROR, lit "No training data available")])
  else
    match py_iter (training_data self) with
    | None => (Raised TypeError, logged)
    | Some items =>
        match format_items [] items with
        | Raised e => (Raised e, logged)
        | Returned formatted_data => (Returned (Some formatted_data), logged)
        end
    end.
End Format.

(** ** GoDocsScraper *)

Definition base_url : str := lit "https://golang.org".

Definition pages : list str :=
  [lit "/doc/"; lit "/doc/tutorial/"; lit "/doc/effective_go.html";
   lit "/doc/code.html"; lit "/doc/faq"; lit "/doc/debugging_with_gdb.html";
   lit "/doc/diagnostics.html"].

(** [d[k] = x] on a dictionary in the order of insertion. *)
Fixpoint setitem {V} (k : str) (x : V) (d : list (str * V)) : list (str * V) :=
  match d with
  | [] => [(k, x)]
  | (k', x') :: d' =>
      if bool_decide (k = k') then (k, x) :: d' else (k', x') :: setitem k x d'
  end.

Section Docs.
(** What [session.get] and [raise_for_status] give for an address, the
    body being [response.text]. *)
Variable session_get : str → response str.

(** The body of the [for] loop of [scrape_documentation]. *)
Definition scrape_page (docs : list (str * str)) (page : str)
  : list (str * str) :=
  match session_get (base_url ++ page) with
  | Body content => setitem page content docs
  | RequestException => docs
  end.

Definition scrape_documentation : list (str * str) :=
  foldl scrape_page [] pages.
End Docs.

(** The match of [pre(grp)post] at the head of [s]: the text of the
    group and the length of the match. *)
Definition match_group (pre grp post : regex) (s : str) : option (str * nat) :=
  bt pre
     (λ s1, bt grp
               (λ s2, bt post
                         (λ s3, Some (take (length s1 - length s2)%nat s1,
                                      (length s - length s3)%nat))
                         s2)
               s1)
     s.

(** [re.findall] for a pattern [pre(grp)post] with its one group: the
    texts of the group, one for each of the leftmost matches, none
    overlapping.  The pattern of the program starts with a literal and
    matches no empty string, so the case of an empty match stands with
    the case of no match. *)
Fixpoint findall_group_from (pre grp post : regex) (skip : nat) (s : str)
  : list str :=
  match s with
  | [] => []
  | c :: s' =>
      match skip with
      | S n => findall_group_from pre grp post n s'
      | O =>
          match match_group pre grp post s with
          | Some (g, S n) => g :: findall_group_from pre grp post n s'
          | _ => findall_group_from pre grp post 0 s'
          end
      end
  end.

Definition re_findall_group (pre grp post : regex) (s : str) : list str :=
  findall_group_from pre grp post 0 s.

(** [<pre class="code">(.*?)</pre>] under [re.DOTALL], in its three
    parts. *)
Definition code_open : regex :=
  pat [word "<pre class="; one (N.eqb QUOTE); word "code"; one (N.eqb QUOTE);
       word ">"].
Definition code_body : regex := pat [few any].
Definition code_close : regex := pat [word "</pre>"].

(** [<[^>]+>] *)
Definition tag_pattern : regex := pat [word "<"; plus (no ">"); word ">"].

Definition scrape_examples (session_get : str → response str) : list str :=
  match session_get (lit "https://gobyexample.com/") with
  | Body text =>
      foldl (λ examples found,
               examples ++ [strip (re_sub tag_pattern [] found)])
            [] (re_findall_group code_open code_body code_close text)
  | RequestException => []
  end.

(** ** GoModelTrainer.collect_training_data *)

(** An entry of the search result. *)
Record Repo : Type := { full_name : str }.

(** [self.training_data.extend(pairs)]: the trainer after the call, and
    the exception if any. *)
Definition extend (self : GoModelTrainer) (pairs : list TrainingPair)
  : GoModelTrainer * option exn :=
  match training_data self with
  | JList items =>
      ({| training_data := JList (items ++ map pair_json pairs) |}, None)
  | JNull | JBool _ | JInt _ | JFloat _ | JStr _ | JDict _ =>
      (self, Some AttributeError)
  end.

(** A [for] loop whose body works on the trainer: it is left at the
    first exception. *)
Fixpoint for_each {A}
    (body : GoModelTrainer → A → GoModelTrainer * option exn)
    (self : GoModelTrainer) (l : list A) : GoModelTrainer * option exn :=
  match l with
  | [] => (self, None)
  | a :: l' =>
      match body self a with
      | (self', None) => for_each body self' l'
      | (self', Some e) => (self', Some e)
      end
  end.

Section Collect.
Context {Bytes : Type}.
Variable a2b_base64 : str → option Bytes.
Variable utf8_decode : Bytes → option str.
(** The answers of the search, tree and contents endpoints, and of the
    documentation sites. *)
Variable search_get : nat → response (option (list Repo)).
Variable trees_get : str → response (option (list TreeItem)).
Variable contents_get : str → response (option str).
Variable docs_get : str → response str.

(** One file of a repository. *)
Definition collect_file (repo_name : str) (self : GoModelTrainer)
    (file_info : TreeItem) : GoModelTrainer * option exn :=
  match download_file_content a2b_base64 utf8_decode contents_get repo_name
          (item_path file_info) with
  | Raised e => (self, Some e)
  | Returned None => (self, None)
  | Returned (Some content) =>
      if truthy content then
        let cleaned_code := clean_go_code content in
        if truthy cleaned_code then
          extend self
            (create_training_pairs cleaned_code (lit "from " ++ repo_name))
        else (self, None)
      else (self, None)
  end.

(** One repository. *)
Definition collect_repo (self : GoModelTrainer) (repo : Repo)
  : GoModelTrainer * option exn :=
  let repo_name := full_name repo in
  let files := get_repo_files trees_get repo_name 20 in
  for_each (collect_file repo_name) self files.

(** One page of the documentation. *)
Definition collect_page (self : GoModelTrainer) (entry : str * str)
  : GoModelTrainer * option exn :=
  let (page, content) := entry in
  if truthy content then
    extend self
      (create_training_pairs (take 1000 content)
         (lit "Go documentation from " ++ page))
  else (self, None).

(** One example. *)
Definition collect_example (self : GoModelTrainer) (example : str)
  : GoModelTrainer * option exn :=
  if truthy example then
    extend self (create_training_pairs example (lit "Go example"))
  else (self, None).

(** The part on GitHub; [None] says the search was still running after
    [fuel] requests. *)
Definition collect_github (github_token : option str) (max_repos : Z)
    (fuel : nat) (self : GoModelTrainer)
  : option (GoModelTrainer * option exn) :=
  match github_token with
  | Some (_ :: _) =>
      match get_top_go_repos search_get max_repos fuel with
      | Some (Returned repos) =>
          Some (for_each collect_repo self (take 50 repos))
      | Some (Raised e) => Some (self, Some e)
      | None => None
      end
  | Some [] | None => Some (self, None)
  end.

(** The part on the documentation. *)
Definition collect_docs (self : GoModelTrainer)
  : GoModelTrainer * option exn :=
  let docs := scrape_documentation docs_get in
  let examples := scrape_examples docs_get in
  match for_each collect_page self docs with
  | (self, None) => for_each collect_example self examples
  | (self, Some e) => (self, Some e)
  end.

(** The trainer after the call and the exception that left it, if any.
    The token is the value of the environment variable, [None] when it
    is not set.  What the call logs is left out, but for the [len] of
    its last record. *)
Definition collect_training_data (github_token : option str) (max_repos : Z)
    (fuel : nat) (self : GoModelTrainer)
  : option (GoModelTrainer * option exn) :=
  match collect_github github_token max_repos fuel self with
  | Some (self, None) =>
      match collect_docs self with
      | (self, None) =>
          match py_len (training_data self) with
          | Some _ => Some (self, None)
          | None => Some (self, Some TypeError)
          end
      | (self, Some e) => Some (self, Some e)
      end
  | Some (self, Some e) => Some (self, Some e)
  | None => None
  end.
End Collect.

(** ** TrainingConfig and GoModelTrainer.train_model *)

(** The fields of the configuration the program reads. *)
Record TrainingConfig : Type := {
  base_model : str;
  output_dir : str;
  max_length : Z;
  batch_size : Z;
  num_epochs : Z
}.

(** *** json.dumps(value, indent=2) of a dictionary of strings and
    integers, [ensure_ascii] at its default *)

Inductive config_value : Type :=
| ConfigStr (s : str)
| ConfigInt (n : Z).

Definition hex4_digits (n : N) : str :=
  [hexdigit (n / 4096); hexdigit ((n / 256) mod 16); hexdigit ((n / 16) mod 16);
   hexdigit (n mod 16)].

(** [ESCAPE_ASCII]: the quote, the backslash, and what is not between
    the space and the tilde; above the basic plane, a surrogate pair. *)
Definition escape_char_ascii (c : char) : str :=
  if c =? QUOTE then [BACKSLASH; QUOTE]
  else if c =? BACKSLASH then [BACKSLASH; BACKSLASH]
  else if c =? 10 then lit "\n"
  else if c =? 13 then lit "\r"
  else if c =? 9 then lit "\t"
  else if c =? 12 then lit "\f"
  else if c =? 8 then lit "\b"
  else if (32 <=? c) && (c <=? 126) then [c]
  else if c <? 65536 then lit "\u" ++ hex4_digits c
  else
    let n := c - 65536 in
    lit "\u" ++ hex4_digits (N.lor 55296 ((n / 1024) mod 1024))
    ++ lit "\u" ++ hex4_digits (N.lor 56320 (n mod 1024)).

Definition encode_string_ascii (s : str) : str :=
  [QUOTE] ++ concat (map escape_char_ascii s) ++ [QUOTE].

(** [str(n)] for an integer. *)
Definition decimal_int (n : Z) : str :=
  if (n <? 0)%Z then lit "-" ++ decimal (Z.to_nat (- n))
  else decimal (Z.to_nat n).

Definition dumps_config_value (v : config_value) : str :=
  match v with
  | ConfigStr s => encode_string_ascii s
  | ConfigInt n => decimal_int n
  end.

Definition dumps_config (members : list (str * config_value)) : str :=
  match members with
  | [] => lit "{}"
  | _ :: _ =>
      lit "{" ++ newline_indent 1
      ++ join (lit "," ++ newline_indent 1)
              (map (λ m, encode_string_ascii m.1 ++ lit ": "
                         ++ dumps_config_value m.2) members)
      ++ newline_indent 0 ++ lit "}"
  end.

Section Training.
Variable repr : json → str.
(** Whether [open(path, 'w')] succeeds: the operating system lets the
    path be opened for writing (it does not in a directory that does not
    exist, and the program makes none), or the call raises [OSError]. *)
Variable writable : str → bool.

(** The file system after the call, the exception that left it if any,
    and what it logged.  [config] is [self.config]. *)
Definition train_model (config : TrainingConfig) (self : GoModelTrainer)
    (fs : filesystem) : filesystem * option exn * list log_record :=
  let logged := [(INFO, lit "Starting model training...")] in
  match prepare_dataset repr self with
  | (Raised e, logged') => (fs, Some e, logged ++ logged')
  | (Returned None, logged') | (Returned (Some []), logged') =>
      (fs, None,
       logged ++ logged' ++ [(ERROR, lit "Failed to prepare dataset")])
  | (Returned (Some ((_ :: _) as dataset)), logged') =>
      let logged :=
        logged ++ logged'
        ++ [(INFO, lit "Training model with " ++ decimal (length dataset)
                   ++ lit " examples");
            (INFO, lit "Model training completed (placeholder)")] in
      let config_members :=
        [(lit "base_model", ConfigStr (base_model config));
         (lit "training_examples", ConfigInt (Z.of_nat (length dataset)));
         (lit "max_length", ConfigInt (max_length config));
         (lit "batch_size", ConfigInt (batch_size config));
         (lit "num_epochs", ConfigInt (num_epochs config))] in
      let path := output_dir config ++ lit "/training_config.json" in
      if writable path then
        (<[path := dumps_config config_members]> fs, None,
         logged ++ [(INFO, lit "Model saved to " ++ output_dir config)])
      else (fs, Some OSError, logged)
  end.

(** ** main *)

Section Main.
Context {Bytes : Type}.
Variable a2b_base64 : str → option Bytes.
Variable utf8_decode : Bytes → option str.
Variable search_get : nat → response (option (list Repo)).
Variable trees_get : str → response (option (list TreeItem)).
Variable contents_get : str → response (option str).
Variable docs_get : str → response str.

Definition main_config : TrainingConfig :=
  {| base_model := lit "microsoft/DialoGPT-medium";
     output_dir := lit "./go-ai-model";
     max_length := 512;
     batch_size := 4;
     num_epochs := 3 |}.

(** The file system when [main] returns, or the exception that leaves
    it; [None] says the search was still running after [fuel]
    requests.  [getenv] is the value of [GITHUB_TOKEN] in the
    environment, if it is set. *)
Definition main (getenv : option str) (fuel : nat) (fs : filesystem)
  : option (filesystem + exn) :=
  let config := main_config in
  let github_token := getenv in
  let trainer := new_trainer in
  match collect_training_data a2b_base64 utf8_decode search_get trees_get
          contents_get docs_get github_token 50 fuel trainer with
  | Some (trainer, None) =>
      match (save_training_data writable (lit "training_data.json")
               trainer fs).1 with
      | Returned fs =>
          match train_model config trainer fs with
          | (fs, None, _) => Some (inl fs)
          | (_, Some e, _) => Some (inr e)
          end
      | Raised e => Some (inr e)
      end
  | Some (_, Some e) => Some (inr e)
  | None => None
  end.
End Main.
End Training.

(** ** The vocabulary of the properties *)


(** A blank line has whitespace only. *)
Definition blank (l : str) : bool := forallb isspace l.

(** [has2 a b s]: the two characters [a], [b] stand next to each other
    somewhere in [s]. *)
Fixpoint has2 (a b : char) (s : str) : bool :=
  match s with
  | x :: s' =>
      match s' with
      | y :: _ => ((x =? a) && (y =? b)) || has2 a b s'
      | [] => false
      end
  | [] => false
  end.

(** [has_block s]: somewhere in [s] stands a block comment, an opening
    marker with a closing marker after it. *)
Fixpoint has_block (s : str) : bool :=
  match s with
  | x :: s' =>
      match s' with
      | y :: t => ((x =? SLASH) && (y =? STAR) && has2 STAR SLASH t)
                  || has_block s'
      | [] => false
      end
  | [] => false
  end.

(** [quiet t]: the whitespace [t] starts with has no newline. *)
Fixpoint quiet (t : str) : bool :=
  match t with
  | c :: t' => if isspace c then negb (c =? NL) && quiet t' else true
  | [] => true
  end.

(** [no_blank_run s]: no newline of [s] is followed by whitespace up to
    another newline. *)
Fixpoint no_blank_run (s : str) : bool :=
  match s with
  | c :: s' => (if c =? NL then quiet s' else true) && no_blank_run s'
  | [] => true
  end.











(** [matches r s rest]: some prefix of [s] is in the language of [r], and
    [rest] follows it in [s]; whatever the order the matcher tries the
    alternatives in. *)
Inductive matches : regex → str → str → Prop :=
| matches_eps s : matches Eps s s
| matches_chr p c s : p c = true → matches (Chr p) (c :: s) s
| matches_seq r1 r2 s s1 s2 :
    matches r1 s s1 → matches r2 s1 s2 → matches (Seq r1 r2) s s2
| matches_opt_some r s s1 : matches r s s1 → matches (Opt r) s s1
| matches_opt_none r s : matches (Opt r) s s
| matches_star_nil g p s : matches (Star g p) s s
| matches_star_cons g p c s s1 :
    p c = true → matches (Star g p) s s1 → matches (Star g p) (c :: s) s1
| matches_eol_end : matches Eol [] []
| matches_eol_nl s : matches Eol (NL :: s) (NL :: s).

(** The three shapes [extract_go_patterns] looks for. *)
Inductive shape : Type := FuncShape | InterfaceShape | StructShape.

Definition shape_pattern (isalnum : char → bool) (sh : shape) : regex :=
  match sh with
  | FuncShape => func_pattern isalnum
  | InterfaceShape => interface_pattern isalnum
  | StructShape => struct_pattern isalnum
  end.

(** The [n] characters of [code] from offset [i] on are a block of the
    shape [sh]. *)
Definition occurrence (isalnum : char → bool) (sh : shape) (i n : nat)
    (code : str) : Prop :=
  (i + n ≤ length code)%nat
  ∧ matches (shape_pattern isalnum sh) (drop i code) (drop (i + n) code).

(** A name: word characters, one at least. *)
Definition is_name (isalnum : char → bool) (w : str) : Prop :=
  w ≠ [] ∧ forallb (isword isalnum) w = true.

(** The function blocks [extract_go_patterns] takes: the keyword,
    whitespace, a name, a list of parameters in parentheses with no
    closing parenthesis in it, at most one word for the result with
    whitespace after it, and a body in braces with no closing brace in
    it. *)
Definition func_block (isalnum : char → bool) (b : str) : Prop :=
  ∃ ws1 name ws2 params ws3 result body,
    b = lit "func" ++ ws1 ++ name ++ ws2 ++ lit "(" ++ params ++ lit ")"
        ++ ws3 ++ result ++ lit "{" ++ body ++ lit "}"
    ∧ ws1 ≠ [] ∧ blank ws1 = true ∧ is_name isalnum name ∧ blank ws2 = true
    ∧ forallb (no ")") params = true ∧ blank ws3 = true
    ∧ (result = []
       ∨ ∃ type ws4, result = type ++ ws4 ∧ is_name isalnum type
                     ∧ ws4 ≠ [] ∧ blank ws4 = true)
    ∧ forallb (no "}") body = true.

(** The interface and struct blocks it takes: the keyword [type],
    whitespace, a name, whitespace, the keyword of the kind, and a body
    in braces with no closing brace in it. *)
Definition type_block (isalnum : char → bool) (kind : string) (b : str)
  : Prop :=
  ∃ ws1 name ws2 ws3 body,
    b = lit "type" ++ ws1 ++ name ++ ws2 ++ lit kind ++ ws3 ++ lit "{"
        ++ body ++ lit "}"
    ∧ ws1 ≠ [] ∧ blank ws1 = true ∧ is_name isalnum name
    ∧ ws2 ≠ [] ∧ blank ws2 = true ∧ blank ws3 = true
    ∧ forallb (no "}") body = true.

Definition block (isalnum : char → bool) (sh : shape) (b : str) : Prop :=
  match sh with
  | FuncShape => func_block isalnum b
  | InterfaceShape => type_block isalnum "interface" b
  | StructShape => type_block isalnum "struct" b
  end.

(** [matches_exactly r s n]: [r] can match the first [n] characters of
    [s]; decided by running the matcher against a continuation that takes
    this length only, so through every way [r] can match. *)
Definition matches_exactly (r : regex) (s : str) (n : nat) : bool :=
  (n <=? length s)%nat
  && bool_decide (is_Some (bt r (λ rest, if (length rest =? length s - n)%nat
                                         then Some tt else None) s)).

(** Every block of one of the three shapes in [code]: shape, offset and
    length. *)
Definition occurrences (isalnum : char → bool) (code : str)
  : list (shape * nat * nat) :=
  sh ← [FuncShape; InterfaceShape; StructShape];
  i ← seq 0 (S (length code));
  n ← seq 0 (S (length code - i));
  if matches_exactly (shape_pattern isalnum sh) (drop i code) n
  then [(sh, i, n)] else [].

(** The ranking of a sequence of repositories never goes up. *)
Definition descending {Repo} (rank : Repo → Z) (l : list Repo) : Prop :=
  StronglySorted (λ a b, (rank b ≤ rank a)%Z) l.

(** A piece of a pattern matches a prefix and leaves the rest of the
    pattern to match what follows. *)
Definition sequential (piece : regex → regex) : Prop :=
  ∀ r s rest, matches (piece r) s rest →
              ∃ mid, matches r mid rest ∧ ∃ pre, s = pre ++ mid.

(** The three shapes end the same way: [\{[^}]*\}]. *)
Definition braces : regex := pat [one (ch "{"); many (no "}"); one (ch "}")].

(** [apart from places]: the places, each an offset and a length, stand
    one after the other from the offset [from] on, none empty, none
    overlapping the next. *)
Fixpoint apart (from : nat) (places : list (nat * nat)) : Prop :=
  match places with
  | [] => True
  | (i, n) :: places' => (from ≤ i)%nat ∧ (0 < n)%nat ∧ apart (i + n) places'
  end.

(** The text at a place of [s]. *)
Definition text_at (s : str) (place : nat * nat) : str :=
  take place.2 (drop place.1 s).

(** The keys of every dictionary of a value are distinct, as in every
    value of the runtime. *)
Fixpoint distinct_keys (v : json) : bool :=
  match v with
  | JNull | JBool _ | JInt _ | JFloat _ | JStr _ => true
  | JList items => forallb distinct_keys items
  | JDict members =>
      bool_decide (NoDup (map fst members))
      && forallb (λ m, distinct_keys m.2) members
  end.

(** No number stands in a value: it is made of strings, truth values
    and [None], in lists and dictionaries. *)
Fixpoint without_numbers (v : json) : bool :=
  match v with
  | JNull | JBool _ | JStr _ => true
  | JInt _ | JFloat _ => false
  | JList items => forallb without_numbers items
  | JDict members => forallb (λ m, without_numbers m.2) members
  end.

(** The strings of a value are text utf-8 encodes. *)
Fixpoint json_encodable (v : json) : bool :=
  match v with
  | JNull | JBool _ | JInt _ | JFloat _ => true
  | JStr s => forallb utf8_encodable s
  | JList items => forallb json_encodable items
  | JDict members =>
      forallb (λ m, forallb utf8_encodable m.1 && json_encodable m.2) members
  end.

(** The number of values and separators the scanner reads for a
    value. *)
Fixpoint weight (v : json) : nat :=
  match v with
  | JNull | JBool _ | JInt _ | JFloat _ | JStr _ => 1
  | JList items => S (list_sum (map (λ x, S (weight x)) items))
  | JDict members => S (list_sum (map (λ m, S (weight m.2)) members))
  end.

(** The text of a value starts with a character that is neither
    whitespace nor a closing bracket. *)
Definition opens (s : str) : Prop :=
  ∃ c t, s = c :: t ∧ is_json_ws c = false ∧ (c =? 93) = false
         ∧ (c =? 125) = false.

(** The scanner reads back the text of the value, whatever follows. *)
Definition reads_back (v : json) : Prop :=
  distinct_keys v = true → without_numbers v = true →
  ∀ level fuel rest, (weight v ≤ fuel)%nat →
    parse_value fuel (dumps level v ++ rest) = Some (v, rest).

(** The members of a dictionary have distinct keys and values whose
    dictionaries have. *)
Definition distinct_members (d : list (str * json)) : Prop :=
  NoDup (map fst d) ∧ forallb (λ m, distinct_keys m.2) d = true.

(** The text [prepare_dataset] makes of a pair. *)
Definition human_assistant (p : TrainingPair) : str :=
  lit "Human: " ++ prompt p ++ [NL] ++ lit "Assistant: " ++ completion p
  ++ lit "<|endoftext|>".

(** An item [prepare_dataset] can format: a dictionary with the two
    keys. *)
Definition has_both_keys (item : json) : Prop :=
  ∃ members p c, item = JDict members
                 ∧ dict_get (lit "prompt") members = Some p
                 ∧ dict_get (lit "completion") members = Some c.

(** What one page brings. *)
Definition fetched (session_get : str → response str) (page : str)
  : list (str * str) :=
  match session_get (base_url ++ page) with
  | Body content => [(page, content)]
  | RequestException => []
  end.

(** [tagged s]: somewhere in [s] stands a tag, a [<] and a [>] with
    characters other than [>] between them, one at least. *)
Definition tagged (s : str) : Prop :=
  ∃ pre body post,
    s = pre ++ lit "<" ++ body ++ lit ">" ++ post ∧ body ≠ [] ∧ 62 ∉ body.

(** The opening and the closing tag of a block of code. *)
Definition pre_open : str :=
  lit "<pre class=" ++ [QUOTE] ++ lit "code" ++ [QUOTE] ++ lit ">".
Definition pre_close : str := lit "</pre>".

(** The four pairs of a text under a label. *)
Definition four_pairs (block : str * str) : list TrainingPair :=
  [explanation_pair block.1 block.2; generation_pair block.1 block.2;
   debugging_pair block.1; improvement_pair block.1].

(** A text with a character that is not whitespace, under a label that
    is not empty. *)
Definition labelled (block : str * str) : Prop :=
  forallb isspace block.1 = false ∧ block.2 ≠ [].

(** The exceptions the scraper lets through. *)
Definition scraper_error (e : exn) : Prop :=
  e = KeyError ∨ e = ValueError ∨ e = BinasciiError ∨ e = UnicodeDecodeError.

(** [adds k self r]: the step from the trainer [self] to the result [r]
    appended the pairs of [k] texts at most to a list, each text with its
    four pairs, and raised nothing but an exception of the scraper. *)
Definition adds (k : nat) (self : GoModelTrainer)
    (r : GoModelTrainer * option exn) : Prop :=
  ∀ items, training_data self = JList items →
    ∃ blocks,
      training_data r.1 = JList (items ++ map pair_json (blocks ≫= four_pairs))
      ∧ Forall labelled blocks ∧ (length blocks ≤ k)%nat
      ∧ ∀ e, r.2 = Some e → scraper_error e.

(** [calm self r]: from a trainer that holds a list the step raised
    nothing and left a list. *)
Definition calm (self : GoModelTrainer) (r : GoModelTrainer * option exn)
  : Prop :=
  ∀ items, training_data self = JList items →
    r.2 = None ∧ ∃ items', training_data r.1 = JList items'.

(** The members of the configuration file for [n] examples. *)
Definition config_members (config : TrainingConfig) (n : nat)
  : list (str * config_value) :=
  [(lit "base_model", ConfigStr (base_model config));
   (lit "training_examples", ConfigInt (Z.of_nat n));
   (lit "max_length", ConfigInt (max_length config));
   (lit "batch_size", ConfigInt (batch_size config));
   (lit "num_epochs", ConfigInt (num_epochs config))].

(** A character of a text in ASCII: a newline or a printable one. *)
Definition ascii_text (c : char) : bool :=
  (c =? NL) || ((32 <=? c) && (c <=? 126)).

(** ** Sites for examples *)

(** A documentation site that serves the page of questions and one
    example, and fails on every other address. *)
Definition example_docs_get (url : str) : response str :=
  if bool_decide (url = lit "https://golang.org/doc/faq")
  then Body (lit "Why Go?")
  else if bool_decide (url = lit "https://gobyexample.com/")
  then Body (lit "<h1>Go</h1><pre class=" ++ [QUOTE] ++ lit "code" ++ [QUOTE]
             ++ lit "> <span>fmt</span>.Println(1) </pre>")
  else RequestException.

(** A search endpoint whose first page names one repository, a tree
    endpoint that lists one Go file and one other file, and a contents
    endpoint that serves one encoded text. *)
Definition example_search_get (page : nat) : response (option (list Repo)) :=
  match page with
  | 1%nat => Body (Some [{| full_name := lit "acme/widget" |}])
  | _ => RequestException
  end.

Definition example_trees_get (url : str)
  : response (option (list TreeItem)) :=
  Body (Some [{| item_type := lit "blob"; item_path := lit "main.go" |};
              {| item_type := lit "blob"; item_path := lit "README.md" |}]).

Definition example_contents_get (url : str) : response (option str) :=
  Body (Some (lit "cGFja2FnZQ==")).

(** The one entry of the base64 table that gives the bytes of the word
    "package", and utf-8 on bytes below 128. *)
Definition example_a2b_base64 (s : str) : option str :=
  if bool_decide (s = lit "cGFja2FnZQ==") then Some (lit "package") else None.

Definition example_utf8_decode (raw : str) : option str :=
  if forallb (λ b, b <? 128) raw then Some raw else None.

(** A directory in which the dataset file can be written and no other. *)
Definition example_writable (path : str) : bool :=
  bool_decide (path = lit "training_data.json").

(** ** Tactics of the proofs *)

Ltac invert_matches :=
  repeat match goal with
         | H : matches (Seq _ _) _ _ |- _ => inversion H; clear H; subst
         | H : matches (Chr _) _ _ |- _ => inversion H; clear H; subst
         | H : matches Eps _ _ |- _ => inversion H; clear H; subst
         end.

(** Comparisons of two character codes that are both known. *)
Ltac decide_tests :=
  repeat match goal with
         | |- context [N.eqb ?a ?b] =>
             let v := eval vm_compute in (N.eqb a b) in
             lazymatch v with
             | true => change (N.eqb a b) with true
             | false => change (N.eqb a b) with false
             end
         | |- context [N.ltb ?a ?b] =>
             let v := eval vm_compute in (N.ltb a b) in
             lazymatch v with
             | true => change (N.ltb a b) with true
             | false => change (N.ltb a b) with false
             end
         end;
  cbv beta iota.

(** The parts of a text, one after the other. *)
Ltac split_text :=
  repeat match goal with
         | |- Forall _ (_ ++ _) => apply Forall_app; split
         end.

(** * Part II: the properties *)

(** ** The model at work *)

Example clean_sample :
  clean_go_code (lit "package main" ++ [NL] ++ lit "// hi" ++ [NL]
                 ++ lit "func main(){}" ++ [NL])
  = lit "package main" ++ [NL] ++ lit "func main(){}".
Proof. vm_compute. reflexivity. Qed.

Example clean_block_sample :
  clean_go_code (lit "a /* x" ++ [NL; NL] ++ lit " y */ b" ++ [NL; 32; NL; NL]
                 ++ lit "c /* open")
  = lit "a  b" ++ [NL] ++ lit "c /* open".
Proof. vm_compute. reflexivity. Qed.

Example extract_sample :
  extract_go_patterns ascii_alnum
    (lit "type T struct { x int }" ++ [NL] ++ lit "func f(a int) int { return a }"
     ++ [NL] ++ lit "func (t T) m() {}")
  = [lit "func f(a int) int { return a }"; lit "type T struct { x int }"].
Proof. vm_compute. reflexivity. Qed.

Example dumps_sample :
  dumps 0 (dataset [{| prompt := lit "a" ++ [QUOTE; NL; 1]; completion := [] |}])
  = lit "[" ++ [NL] ++ lit "  {" ++ [NL]
    ++ lit "    " ++ [QUOTE] ++ lit "prompt" ++ [QUOTE] ++ lit ": "
    ++ [QUOTE] ++ lit "a\" ++ [QUOTE] ++ lit "\n\u0001" ++ [QUOTE] ++ lit "," ++ [NL]
    ++ lit "    " ++ [QUOTE] ++ lit "completion" ++ [QUOTE] ++ lit ": "
    ++ [QUOTE; QUOTE; NL] ++ lit "  }" ++ [NL] ++ lit "]".
Proof. vm_compute. reflexivity. Qed.

Example loads_sample :
  json_loads (lit " [ {" ++ [QUOTE] ++ lit "k" ++ [QUOTE] ++ lit " : [true, null]}, "
              ++ [QUOTE] ++ lit "\u00e9\ud83d\uDE00\/" ++ [QUOTE] ++ lit "] ")
  = Some (JList [JDict [(lit "k", JList [JBool true; JNull])];
                 JStr [233; 128512; 47]]).
Proof. vm_compute. reflexivity. Qed.

Example decimal_sample : decimal 120 = lit "120" ∧ decimal 0 = lit "0".
Proof. vm_compute. split; reflexivity. Qed.

Example loads_numbers_sample :
  json_loads (lit "[-12, 2.50, -0, NaN]")
  = Some (JList [JInt (-12); JFloat (Finite false 5629499534213120 (-51));
                 JInt 0; JFloat NaN]).
Proof. vm_compute. reflexivity. Qed.

Example dumps_numbers_sample :
  dumps 0 <$> json_loads (lit "[1, 1e3, 0.10, 1E400, 1e-7, 12345678901234567890.0]")
  = Some (lit "[" ++ [NL] ++ lit "  1," ++ [NL] ++ lit "  1000.0," ++ [NL]
          ++ lit "  0.1," ++ [NL] ++ lit "  Infinity," ++ [NL]
          ++ lit "  1e-07," ++ [NL] ++ lit "  1.2345678901234567e+19" ++ [NL]
          ++ lit "]").
Proof. vm_compute. reflexivity. Qed.

Example load_number_sample :
  load_training_data (lit "d.json") new_trainer {[ lit "d.json" := lit "7" ]}
  = ({| training_data := JInt 7 |}, Some TypeError,
     [(INFO, lit "Loading training data from d.json")]).
Proof. vm_compute. reflexivity. Qed.


(** ** Whitespace and [strip] *)

Lemma drop_while_nil_iff p s : drop_while p s = [] ↔ forallb p s = true.
Proof.
  induction s as [|c s IH]; simpl; [tauto|].
  destruct (p c); simpl; [exact IH|]. split; discriminate.
Qed.

Lemma forallb_rev p (s : str) : forallb p (rev s) = forallb p s.
Proof.
  induction s as [|c s IH]; simpl; [done|].
  rewrite forallb_app, IH. simpl. rewrite andb_true_r. apply andb_comm.
Qed.

Lemma forallb_drop_while p s : forallb p (drop_while p s) = forallb p s.
Proof.
  induction s as [|c s IH]; simpl; [done|].
  destruct (p c) eqn:E; simpl; [exact IH|]. rewrite E. reflexivity.
Qed.

Lemma strip_nil_iff s : strip s = [] ↔ forallb isspace s = true.
Proof.
  unfold strip, rstrip, lstrip. split.
  - intros H. apply (f_equal (@rev char)) in H. rewrite rev_involutive in H.
    simpl in H.
    apply drop_while_nil_iff in H.
    rewrite forallb_rev, forallb_drop_while in H. exact H.
  - intros H. apply drop_while_nil_iff in H. rewrite H. reflexivity.
Qed.

Lemma truthy_strip s : truthy (strip s) = negb (forallb isspace s).
Proof.
  destruct (forallb isspace s) eqn:E; simpl.
  - apply strip_nil_iff in E. rewrite E. reflexivity.
  - destruct (strip s) eqn:E'; [|reflexivity].
    apply strip_nil_iff in E'. congruence.
Qed.

(** ** create_training_pairs *)

(** C10: a text of whitespace only gives no pair, whatever the label. *)
Theorem create_training_pairs_blank (code context : str) :
  forallb isspace code = true →
  create_training_pairs code context = [].
Proof.
  intros H. unfold create_training_pairs.
  rewrite truthy_strip, H. reflexivity.
Qed.

Lemma create_training_pairs_blank_witness :
  lit "  " ++ [NL; 9] ≠ [] ∧ forallb isspace (lit "  " ++ [NL; 9]) = true
  ∧ create_training_pairs (lit "  " ++ [NL; 9]) (lit "from acme/widget") = [].
Proof.
  split; [discriminate|]. split; [reflexivity|].
  apply (create_training_pairs_blank (lit "  " ++ [NL; 9])).
  reflexivity.
Defined.

(** C2, as the code has it: the empty text, and any text of whitespace
    only, gives no pair; a text with a character that is not whitespace
    gives the three pairs explanation, debugging, improvement under an
    empty label, and the four pairs explanation, generation, debugging,
    improvement under any other. *)
Theorem create_training_pairs_templates (code context : str) :
  create_training_pairs [] context = []
  ∧ (forallb isspace code = true → create_training_pairs code context = [])
  ∧ (forallb isspace code = false → context = [] →
     create_training_pairs code context
     = [explanation_pair code context; debugging_pair code;
        improvement_pair code])
  ∧ (forallb isspace code = false → context ≠ [] →
     create_training_pairs code context
     = [explanation_pair code context; generation_pair code context;
        debugging_pair code; improvement_pair code]).
Proof.
  split; [reflexivity|].
  unfold create_training_pairs. rewrite truthy_strip.
  split; [intros ->; reflexivity|].
  split; intros -> Hc; simpl.
  - subst context. reflexivity.
  - destruct context; [congruence|reflexivity].
Qed.

Lemma create_training_pairs_templates_witness :
  create_training_pairs (lit " " ++ [NL; 9]) (lit "Go example") = []
  ∧ length (create_training_pairs (lit "x := 1") []) = 3%nat
  ∧ length (create_training_pairs (lit "x := 1") (lit "Go example")) = 4%nat.
Proof.
  destruct (create_training_pairs_templates (lit " " ++ [NL; 9])
              (lit "Go example")) as (_ & H0 & _).
  destruct (create_training_pairs_templates (lit "x := 1") [])
    as (_ & _ & H3 & _).
  destruct (create_training_pairs_templates (lit "x := 1") (lit "Go example"))
    as (_ & _ & _ & H4).
  rewrite (H0 eq_refl), (H3 eq_refl eq_refl), (H4 eq_refl ltac:(discriminate)).
  repeat split.
Defined.

(** C2 as stated fails: a text of one space is not empty, and it gives
    no pair where the claim promises three. *)
Lemma create_training_pairs_space :
  lit " " ≠ [] ∧ create_training_pairs (lit " ") [] = [].
Proof. split; [discriminate|reflexivity]. Qed.

(** ** get_repo_files *)

Lemma keep_go_file_foldl max_files (tree acc : list TreeItem) :
  foldl (keep_go_file max_files) acc tree
  = acc ++ take (Z.to_nat max_files - length acc)
                (List.filter is_go_blob tree).
Proof.
  revert acc. induction tree as [|item tree IH]; intros acc; simpl.
  - rewrite take_nil, app_nil_r. reflexivity.
  - rewrite IH. unfold keep_go_file.
    destruct (is_go_blob item) eqn:Hb; simpl; [|reflexivity].
    destruct (Z.ltb_spec (Z.of_nat (length acc)) max_files) as [Hlt|Hge].
    + rewrite length_app. simpl.
      replace (Z.to_nat max_files - length acc)%nat
        with (S (Z.to_nat max_files - (length acc + 1)))%nat by lia.
      simpl. rewrite <- app_assoc. reflexivity.
    + replace (Z.to_nat max_files - length acc)%nat with 0%nat by lia.
      reflexivity.
Qed.

Lemma get_repo_files_listing session_get repo max_files tree :
  session_get (trees_url repo) = Body tree →
  get_repo_files session_get repo max_files
  = take (Z.to_nat max_files) (List.filter is_go_blob (default [] tree)).
Proof.
  intros H. unfold get_repo_files. rewrite H, keep_go_file_foldl.
  simpl. rewrite Nat.sub_0_r. reflexivity.
Qed.

Lemma filter_sublist {A} (f : A → bool) (l : list A) :
  sublist (List.filter f l) l.
Proof.
  induction l as [|a l IH]; simpl; [constructor|].
  destruct (f a); [apply sublist_skip|apply sublist_cons]; exact IH.
Qed.

(** C8: the files returned are at most [max_files], each is a blob whose
    path ends with [.go], they are the first such entries of the listing
    in its order, and a request that fails gives the empty list. *)
Theorem get_repo_files_bounded session_get repo max_files :
  (Z.of_nat (length (get_repo_files session_get repo max_files))
   ≤ Z.max 0 max_files)%Z
  ∧ Forall (λ item, item_type item = lit "blob"
                    ∧ endswith (item_path item) (lit ".go") = true)
           (get_repo_files session_get repo max_files)
  ∧ (∀ tree, session_get (trees_url repo) = Body (Some tree) →
       get_repo_files session_get repo max_files
       = take (Z.to_nat max_files) (List.filter is_go_blob tree)
       ∧ sublist (get_repo_files session_get repo max_files) tree)
  ∧ (session_get (trees_url repo) = RequestException →
       get_repo_files session_get repo max_files = []).
Proof.
  destruct (session_get (trees_url repo)) as [|tree] eqn:Hget.
  - unfold get_repo_files. rewrite Hget. simpl.
    repeat split; try constructor; try discriminate; lia.
  - rewrite (get_repo_files_listing _ _ _ _ Hget).
    split; [rewrite length_take; lia|]. split.
    + apply Forall_take, Forall_forall. intros item Hin.
      apply list_elem_of_In, filter_In in Hin as [_ Hb].
      unfold is_go_blob in Hb. apply andb_true_iff in Hb as [Ht Hp].
      apply bool_decide_eq_true in Ht. split; assumption.
    + split; [|discriminate]. intros tree' [= ->]. simpl.
      split; [reflexivity|].
      etrans; [apply sublist_take|apply filter_sublist].
Qed.

Lemma get_repo_files_bounded_witness :
  get_repo_files
    (λ _, Body (Some [ {| item_type := lit "blob"; item_path := lit "main.go" |};
                       {| item_type := lit "blob"; item_path := lit "README.md" |};
                       {| item_type := lit "tree"; item_path := lit "pkg.go" |};
                       {| item_type := lit "blob"; item_path := lit "a/b.go" |};
                       {| item_type := lit "blob"; item_path := lit "c.go" |} ]))
    (lit "acme/widget") 2
  = [ {| item_type := lit "blob"; item_path := lit "main.go" |};
      {| item_type := lit "blob"; item_path := lit "a/b.go" |} ].
Proof.
  destruct (get_repo_files_bounded
    (λ _, Body (Some [ {| item_type := lit "blob"; item_path := lit "main.go" |};
                       {| item_type := lit "blob"; item_path := lit "README.md" |};
                       {| item_type := lit "tree"; item_path := lit "pkg.go" |};
                       {| item_type := lit "blob"; item_path := lit "a/b.go" |};
                       {| item_type := lit "blob"; item_path := lit "c.go" |} ]))
    (lit "acme/widget") 2) as (_ & _ & H & _).
  destruct (H _ eq_refl) as [-> _]. vm_compute. reflexivity.
Defined.

(** ** download_file_content *)

(** What a decode failure does.  A body without content, or whose
    content does not decode, leaves with the exception (the only handler
    is for [requests.RequestException]), so [None] comes back on a
    failed request only. *)
Lemma download_file_content_decode_failure {Bytes}
    (a2b_base64 : str → option Bytes) (utf8_decode : Bytes → option str)
    session_get (repo path : str) :
  (session_get (contents_url repo path) = Body None →
   download_file_content a2b_base64 utf8_decode session_get repo path
   = Raised KeyError)
  ∧ (∀ encoded e,
       session_get (contents_url repo path) = Body (Some encoded) →
       b64decode a2b_base64 encoded = Raised e →
       download_file_content a2b_base64 utf8_decode session_get repo path
       = Raised e)
  ∧ (∀ encoded raw,
       session_get (contents_url repo path) = Body (Some encoded) →
       b64decode a2b_base64 encoded = Returned raw → utf8_decode raw = None →
       download_file_content a2b_base64 utf8_decode session_get repo path
       = Raised UnicodeDecodeError)
  ∧ (download_file_content a2b_base64 utf8_decode session_get repo path
     = Returned None →
     session_get (contents_url repo path) = RequestException).
Proof.
  unfold download_file_content.
  repeat split.
  - intros ->. reflexivity.
  - intros encoded e -> ->. reflexivity.
  - intros encoded raw -> -> ->. reflexivity.
  - destruct (session_get _) as [|[encoded|]]; [done| |done].
    destruct (b64decode a2b_base64 encoded) as [raw|]; [|done].
    destruct (utf8_decode raw); done.
Qed.

(** What [b64decode] raises: [ValueError] on a text with a code point
    above 127, [binascii.Error] on ASCII text that is not base64. *)
Lemma b64decode_raised {Bytes} (a2b_base64 : str → option Bytes) s e :
  b64decode a2b_base64 s = Raised e →
  (e = ValueError ∧ forallb (λ c, c <? 128) s = false)
  ∨ (e = BinasciiError ∧ forallb (λ c, c <? 128) s = true
     ∧ a2b_base64 s = None).
Proof.
  unfold b64decode. destruct (forallb _ s).
  - destruct (a2b_base64 s); [discriminate|]. intros [= <-]. right. done.
  - intros [= <-]. left. done.
Qed.

(** C5, as the code has it: a request that fails gives [None], not an
    error; a body whose content decodes gives the decoded text. *)
Theorem download_file_content_outcomes {Bytes} (a2b_base64 : str → option Bytes)
    (utf8_decode : Bytes → option str) session_get (repo path : str) :
  (session_get (contents_url repo path) = RequestException →
   download_file_content a2b_base64 utf8_decode session_get repo path
   = Returned None)
  ∧ (∀ encoded raw content,
       session_get (contents_url repo path) = Body (Some encoded) →
       b64decode a2b_base64 encoded = Returned raw →
       utf8_decode raw = Some content →
       download_file_content a2b_base64 utf8_decode session_get repo path
       = Returned (Some content)).
Proof.
  unfold download_file_content. split.
  - intros ->. reflexivity.
  - intros encoded raw content -> -> ->. reflexivity.
Qed.

(** For examples: the one entry of the base64 table that gives the
    bytes of the word "package", and utf-8 on bytes below 128. *)
Lemma download_file_content_outcomes_witness :
  download_file_content example_a2b_base64 example_utf8_decode
    (λ _, Body (Some (lit "cGFja2FnZQ=="))) (lit "acme/widget") (lit "main.go")
  = Returned (Some (lit "package"))
  ∧ download_file_content example_a2b_base64 example_utf8_decode
      (λ _, RequestException) (lit "acme/widget") (lit "main.go")
    = Returned None.
Proof.
  split.
  - eapply (download_file_content_outcomes example_a2b_base64
              example_utf8_decode (λ _, Body (Some (lit "cGFja2FnZQ==")))).
    + reflexivity.
    + reflexivity.
    + reflexivity.
  - apply (download_file_content_outcomes example_a2b_base64
             example_utf8_decode (λ _, RequestException)). reflexivity.
Defined.

(** C5 as stated fails: on a body without the key [content] the call
    raises, whatever the decoders. *)
Lemma download_file_content_missing_content :
  ¬ (∀ (a2b_base64 : str → option str) (utf8_decode : str → option str)
       session_get repo path,
       session_get (contents_url repo path) = Body None →
       download_file_content a2b_base64 utf8_decode session_get repo path
       = Returned None).
Proof.
  intros H.
  specialize (H (λ _, None) (λ _, None) (λ _, Body None) [] [] eq_refl).
  discriminate H.
Qed.

(** ** load_training_data *)

(** C6, as the code has it: when no file exists at the path the call
    leaves the trainer as it was (so empty only if it was empty), logs a
    warning and raises nothing; when a file exists and parses, the data
    in memory are the parsed contents, whatever they were before. *)
Theorem load_training_data_effect (input_file : str) (self : GoModelTrainer)
    (fs : filesystem) :
  (fs !! input_file = None →
   load_training_data input_file self fs
   = (self, None,
      [(INFO, lit "Loading training data from " ++ input_file);
       (WARNING, lit "Training data file " ++ input_file ++ lit " not found")]))
  ∧ (∀ text data,
       fs !! input_file = Some text → json_loads text = Some data →
       (load_training_data input_file self fs).1.1
       = {| training_data := data |}).
Proof.
  unfold load_training_data. split.
  - intros ->. reflexivity.
  - intros text data -> ->. destruct (py_len data); reflexivity.
Qed.

Lemma load_training_data_effect_witness :
  training_data
    (load_training_data (lit "training_data.json")
       {| training_data := dataset [debugging_pair (lit "x")] |}
       {[ lit "training_data.json" := lit "[]" ]}).1.1
  = JList []
  ∧ training_data
      (load_training_data (lit "training_data.json") new_trainer ∅).1.1
    = JList [].
Proof.
  split.
  - destruct (load_training_data_effect (lit "training_data.json")
                {| training_data := dataset [debugging_pair (lit "x")] |}
                {[ lit "training_data.json" := lit "[]" ]}) as [_ H].
    rewrite (H (lit "[]") (JList [])); [reflexivity| |reflexivity].
    apply lookup_singleton_eq.
  - destruct (load_training_data_effect (lit "training_data.json")
                new_trainer ∅) as [H _].
    rewrite H; [reflexivity|]. apply lookup_empty.
Defined.

(** C6 as stated fails: a trainer that holds one pair still holds it
    after loading from a path at which no file exists. *)
Lemma load_training_data_absent_keeps :
  training_data
    (load_training_data (lit "training_data.json")
       {| training_data := dataset [debugging_pair (lit "x")] |} ∅).1.1
  ≠ JList [].
Proof. vm_compute. discriminate. Qed.

(** ** get_top_go_repos *)

Section SearchFacts.
Context {Repo : Type}.
Variable session_get : nat → response (option (list Repo)).
Variable limit : Z.

Lemma all_fetched_cons page n items :
  session_get page = Body (Some items) →
  all_fetched session_get (S page) n → all_fetched session_get page (S n).
Proof.
  intros H0 H i Hi. destruct i as [|i].
  - rewrite Nat.add_0_r. eauto.
  - replace (page + S i)%nat with (S page + i)%nat by lia. apply H. lia.
Qed.

Lemma all_fetched_tail page n :
  all_fetched session_get page (S n) → all_fetched session_get (S page) n.
Proof.
  intros H i Hi. replace (S page + i)%nat with (page + S i)%nat by lia.
  apply H. lia.
Qed.

(** Why the loop was left: after [n] pages, none of which was fetched
    with the limit reached already, the limit is reached, or the next
    request fails, or its body has no items. *)
Lemma fetch_loop_exit fuel repos page out :
  fetch_loop session_get limit fuel repos page = Some out →
  ∃ n, all_fetched session_get page n
       ∧ (∀ m, (m < n)%nat →
            (Z.of_nat (length (repos ++ delivered session_get page m))
             < limit)%Z)
       ∧ ((out = Returned (repos ++ delivered session_get page n)
           ∧ (limit ≤ Z.of_nat (length (repos ++ delivered session_get page n)))%Z)
          ∨ (out = Returned (repos ++ delivered session_get page n)
             ∧ (Z.of_nat (length (repos ++ delivered session_get page n)) < limit)%Z
             ∧ session_get (page + n)%nat = RequestException)
          ∨ (out = Raised KeyError
             ∧ (Z.of_nat (length (repos ++ delivered session_get page n)) < limit)%Z
             ∧ session_get (page + n)%nat = Body None)).
Proof.
  revert repos page. induction fuel as [|fuel IH]; intros repos page; simpl.
  - destruct (Z.ltb_spec (Z.of_nat (length repos)) limit); [discriminate|].
    intros [= <-]. exists 0%nat. split; [intros i Hi; lia|].
    split; [intros m Hm; lia|].
    left. simpl. rewrite app_nil_r. split; [reflexivity|lia].
  - destruct (Z.ltb_spec (Z.of_nat (length repos)) limit) as [Hlt|Hge].
    + destruct (session_get page) as [|[items|]] eqn:Hget.
      * intros [= <-]. exists 0%nat. split; [intros i Hi; lia|].
        split; [intros m Hm; lia|].
        right; left. simpl. rewrite app_nil_r, Nat.add_0_r. done.
      * intros H. apply IH in H as (n & Hall & Hlow & H).
        exists (S n). split; [eapply all_fetched_cons; eassumption|].
        split.
        { intros [|m] Hm; simpl; [rewrite app_nil_r; exact Hlt|].
          rewrite Hget. simpl. rewrite app_assoc. apply Hlow. lia. }
        simpl. rewrite Hget. simpl.
        replace (page + S n)%nat with (S page + n)%nat by lia.
        rewrite <- !app_assoc in H. exact H.
      * intros [= <-]. exists 0%nat. split; [intros i Hi; lia|].
        split; [intros m Hm; lia|].
        right; right. simpl. rewrite app_nil_r, Nat.add_0_r. done.
    + intros [= <-]. exists 0%nat. split; [intros i Hi; lia|].
      split; [intros m Hm; lia|].
      left. simpl. rewrite app_nil_r. split; [reflexivity|lia].
Qed.

(** A request that fails after [n] pages, the limit not reached: the
    loop is left with what the pages brought. *)
Lemma fetch_loop_break n : ∀ repos page,
  all_fetched session_get page n →
  (Z.of_nat (length (repos ++ delivered session_get page n)) < limit)%Z →
  session_get (page + n)%nat = RequestException →
  fetch_loop session_get limit (S n) repos page
  = Some (Returned (repos ++ delivered session_get page n)).
Proof.
  induction n as [|n IH]; intros repos page Hall Hlt Hfail.
  - simpl in *. rewrite app_nil_r in *. rewrite Nat.add_0_r in Hfail.
    rewrite Hfail. destruct (Z.ltb_spec (Z.of_nat (length repos)) limit);
      [reflexivity|lia].
  - change (fetch_loop session_get limit (S (S n)) repos page)
      with (if (Z.of_nat (length repos) <? limit)%Z
            then match session_get page with
                 | RequestException => Some (Returned repos)
                 | Body None => Some (Raised KeyError)
                 | Body (Some items) =>
                     fetch_loop session_get limit (S n) (repos ++ items)
                                (S page)
                 end
            else Some (Returned repos)).
    destruct (Hall 0%nat ltac:(lia)) as [items Hget].
    rewrite Nat.add_0_r in Hget. simpl in Hlt. rewrite Hget in Hlt |- *.
    simpl in Hlt. rewrite app_assoc in Hlt.
    destruct (Z.ltb_spec (Z.of_nat (length repos)) limit) as [_|Hge].
    + rewrite IH; [|apply all_fetched_tail; exact Hall|exact Hlt|].
      * simpl. rewrite Hget. simpl. rewrite app_assoc. reflexivity.
      * replace (S page + n)%nat with (page + S n)%nat by lia. exact Hfail.
    + rewrite !length_app in Hlt. lia.
Qed.

(** The loop is left after [n] pages when they bring the limit, or when
    the request after them does not bring items. *)
Lemma fetch_loop_stops n : ∀ repos page,
  all_fetched session_get page n →
  (limit ≤ Z.of_nat (length (repos ++ delivered session_get page n)))%Z
  ∨ (∀ items, session_get (page + n)%nat ≠ Body (Some items)) →
  ∃ out, fetch_loop session_get limit (S n) repos page = Some out.
Proof.
  induction n as [|n IH]; intros repos page Hall Hstop.
  - simpl. destruct (Z.ltb_spec (Z.of_nat (length repos)) limit); [|eauto].
    destruct Hstop as [Hstop|Hstop].
    + simpl in Hstop. rewrite app_nil_r in Hstop. lia.
    + rewrite Nat.add_0_r in Hstop.
      destruct (session_get page) as [|[items|]]; eauto.
      exfalso. eapply Hstop. reflexivity.
  - change (fetch_loop session_get limit (S (S n)) repos page)
      with (if (Z.of_nat (length repos) <? limit)%Z
            then match session_get page with
                 | RequestException => Some (Returned repos)
                 | Body None => Some (Raised KeyError)
                 | Body (Some items) =>
                     fetch_loop session_get limit (S n) (repos ++ items)
                                (S page)
                 end
            else Some (Returned repos)).
    destruct (Z.ltb_spec (Z.of_nat (length repos)) limit); [|eauto].
    destruct (Hall 0%nat ltac:(lia)) as [items Hget].
    rewrite Nat.add_0_r in Hget. rewrite Hget.
    apply IH; [apply all_fetched_tail; exact Hall|].
    simpl in Hstop. rewrite Hget in Hstop. simpl in Hstop.
    rewrite <- app_assoc.
    replace (S page + n)%nat with (page + S n)%nat by lia. exact Hstop.
Qed.

Lemma fetch_loop_fuel_mono fuel fuel' repos page out :
  (fuel ≤ fuel')%nat →
  fetch_loop session_get limit fuel repos page = Some out →
  fetch_loop session_get limit fuel' repos page = Some out.
Proof.
  revert fuel' repos page.
  induction fuel as [|fuel IH]; intros fuel' repos page Hle; simpl.
  - destruct (Z.ltb_spec (Z.of_nat (length repos)) limit) as [|Hge];
      [discriminate|].
    intros <-. destruct fuel'; simpl;
      destruct (Z.ltb_spec (Z.of_nat (length repos)) limit); try lia; done.
  - destruct fuel' as [|fuel']; [lia|]. simpl.
    destruct (Z.of_nat (length repos) <? limit)%Z; [|done].
    destruct (session_get page) as [|[items|]]; try done.
    apply IH. lia.
Qed.

(** No page is empty: the loop is left within [limit] requests. *)
Lemma fetch_loop_progress fuel : ∀ repos page,
  (∀ p, session_get p ≠ Body (Some [])) →
  (limit ≤ Z.of_nat (length repos + fuel))%Z →
  ∃ out, fetch_loop session_get limit fuel repos page = Some out.
Proof.
  induction fuel as [|fuel IH]; intros repos page Hne Hle; simpl.
  - destruct (Z.ltb_spec (Z.of_nat (length repos)) limit); [lia|eauto].
  - destruct (Z.ltb_spec (Z.of_nat (length repos)) limit); [|eauto].
    destruct (session_get page) as [|[items|]] eqn:Hget; eauto.
    apply IH; [exact Hne|]. rewrite length_app.
    destruct items as [|r items]; [exfalso; eapply Hne; eassumption|].
    simpl. lia.
Qed.
End SearchFacts.

Lemma slice_to_nonneg {A} (stop : Z) (l : list A) :
  (0 ≤ stop)%Z → slice_to stop l = take (Z.to_nat stop) l.
Proof.
  intros H. unfold slice_to.
  destruct (Z.leb_spec 0 stop); [reflexivity|lia].
Qed.

Lemma slice_to_nil {A} (stop : Z) : slice_to stop (@nil A) = [].
Proof. unfold slice_to. destruct (0 <=? stop)%Z; apply take_nil. Qed.

(** An empty page leaves the loop running, with what it has. *)
Lemma fetch_loop_empty_page {Repo}
    (session_get : nat → response (option (list Repo))) (limit : Z)
    fuel repos page :
  (Z.of_nat (length repos) < limit)%Z →
  session_get page = Body (Some []) →
  fetch_loop session_get limit (S fuel) repos page
  = fetch_loop session_get limit fuel repos (S page).
Proof.
  intros Hlt Hget. simpl. rewrite Hget, app_nil_r.
  destruct (Z.ltb_spec (Z.of_nat (length repos)) limit); [reflexivity|lia].
Qed.

(** C3, as the code has it.  The loop is left only with the limit
    reached or on a request that fails (a body without items raises
    [KeyError]); it is left as soon as the pages bring the limit or a
    request brings no items, so for every limit when no page is empty. *)
Theorem fetch_loop_terminates {Repo}
    (session_get : nat → response (option (list Repo))) (limit : Z) :
  (∀ fuel out,
     fetch_loop session_get limit fuel [] 1 = Some out →
     ∃ n, all_fetched session_get 1 n
          ∧ ((out = Returned (delivered session_get 1 n)
              ∧ (limit ≤ Z.of_nat (length (delivered session_get 1 n)))%Z)
             ∨ (out = Returned (delivered session_get 1 n)
                ∧ session_get (1 + n)%nat = RequestException)
             ∨ (out = Raised KeyError
                ∧ session_get (1 + n)%nat = Body None)))
  ∧ (∀ n, all_fetched session_get 1 n →
       (limit ≤ Z.of_nat (length (delivered session_get 1 n)))%Z
       ∨ (∀ items, session_get (1 + n)%nat ≠ Body (Some items)) →
       ∃ out, fetch_loop session_get limit (S n) [] 1 = Some out)
  ∧ ((∀ page, session_get page ≠ Body (Some [])) →
     ∃ out, fetch_loop session_get limit (Z.to_nat limit) [] 1 = Some out).
Proof.
  repeat split.
  - intros fuel out H.
    apply fetch_loop_exit in H as (n & Hall & _ & H).
    exists n. split; [exact Hall|]. simpl in H. tauto.
  - intros n Hall Hstop. apply fetch_loop_stops; [exact Hall|exact Hstop].
  - intros Hne. apply fetch_loop_progress; [exact Hne|]. simpl. lia.
Qed.

Lemma fetch_loop_terminates_witness :
  (∀ page : nat, (λ _ : nat, Body (Some [7%Z; 5%Z])) page ≠ Body (Some []))
  ∧ ∃ out, fetch_loop (λ _ : nat, Body (Some [7%Z; 5%Z])) 3 3 [] 1 = Some out.
Proof.
  assert (H : ∀ page : nat,
             (λ _ : nat, Body (Some [7%Z; 5%Z])) page ≠ Body (Some []))
    by (intros page; discriminate).
  split; [exact H|].
  exact (proj2 (proj2
    (fetch_loop_terminates (λ _ : nat, Body (Some [7%Z; 5%Z])) 3)) H).
Defined.

Lemma fetch_loop_empty_pages fuel : ∀ page,
  fetch_loop (λ _ : nat, Body (Some (@nil Z))) 1 fuel [] page = None.
Proof. induction fuel as [|fuel IH]; intros page; simpl; [reflexivity|apply IH]. Qed.

(** C3 as stated fails: when every page is empty (the upstream has no
    more items) the loop for the limit 1 is never left, whatever the
    number of requests. *)
Lemma fetch_loop_empty_pages_diverges :
  ¬ ∃ fuel out,
      fetch_loop (λ _ : nat, Body (Some (@nil Z))) 1 fuel [] 1 = Some out.
Proof. intros (fuel & out & H). rewrite fetch_loop_empty_pages in H. discriminate. Qed.

(** C4: what the call returns has at most [limit] entries (none for a
    limit below zero) and is the first entries of the pages in the order
    of delivery, so in descending ranking when the pages are; and a
    request that fails before the limit is reached makes the call return
    what the pages before it brought. *)
Theorem get_top_go_repos_partial_result {Repo}
    (session_get : nat → response (option (list Repo))) (limit : Z) :
  (∀ fuel repos,
     get_top_go_repos session_get limit fuel = Some (Returned repos) →
     (Z.of_nat (length repos) ≤ Z.max 0 limit)%Z
     ∧ (∃ n, all_fetched session_get 1 n
             ∧ repos = take (Z.to_nat limit) (delivered session_get 1 n))
     ∧ (∀ rank, (∀ n, descending rank (delivered session_get 1 n)) →
                descending rank repos))
  ∧ (∀ n, all_fetched session_get 1 n →
       (Z.of_nat (length (delivered session_get 1 n)) < limit)%Z →
       session_get (1 + n)%nat = RequestException →
       get_top_go_repos session_get limit (S n)
       = Some (Returned (delivered session_get 1 n))).
Proof.
  split.
  - intros fuel repos H. unfold get_top_go_repos in H.
    destruct (fetch_loop session_get limit fuel [] 1) as [[all|e]|] eqn:Hloop;
      [|discriminate..].
    injection H as <-.
    apply fetch_loop_exit in Hloop as (n & Hall & Hlow & Hout).
    simpl in Hlow, Hout.
    assert (Hall' : all = delivered session_get 1 n)
      by (destruct Hout as [[[= ->] _]|[[[= ->] _]|[[=] _]]]; reflexivity).
    subst all.
    assert (Hslice : slice_to limit (delivered session_get 1 n)
                     = take (Z.to_nat limit) (delivered session_get 1 n)).
    { destruct (Z.le_gt_cases 0 limit) as [Hpos|Hneg];
        [apply slice_to_nonneg; exact Hpos|].
      destruct n as [|n]; [simpl; rewrite slice_to_nil, take_nil; reflexivity|].
      specialize (Hlow 0%nat ltac:(lia)). simpl in Hlow. lia. }
    rewrite Hslice. split; [rewrite length_take; lia|].
    split; [exists n; split; [exact Hall|reflexivity]|].
    intros rank Hsorted. specialize (Hsorted n). unfold descending in *.
    rewrite <- (take_drop (Z.to_nat limit) (delivered session_get 1 n))
      in Hsorted.
    eapply StronglySorted_app_1_l. exact Hsorted.
  - intros n Hall Hlt Hfail. unfold get_top_go_repos.
    rewrite (fetch_loop_break session_get limit n [] 1 Hall Hlt Hfail).
    simpl. rewrite slice_to_nonneg by lia.
    rewrite take_ge by lia. reflexivity.
Qed.

Lemma get_top_go_repos_partial_result_witness :
  get_top_go_repos
    (λ page : nat, if (page <=? 2)%nat then Body (Some [Z.of_nat (10 - page)])
                   else RequestException) 5 3
  = Some (Returned [9%Z; 8%Z]).
Proof.
  apply (proj2 (get_top_go_repos_partial_result
    (λ page : nat, if (page <=? 2)%nat then Body (Some [Z.of_nat (10 - page)])
                   else RequestException) 5) 2%nat).
  - intros i Hi. destruct i as [|[|i]]; [eexists; reflexivity..|lia].
  - simpl. lia.
  - reflexivity.
Defined.

(** ** The matcher and the language of a pattern *)

Lemma matches_suffix r s rest : matches r s rest → ∃ pre, s = pre ++ rest.
Proof.
  induction 1 as [s|p c s Hp|r1 r2 s s1 s2 _ [p1 ->] _ [p2 ->]
                 |r s s1 _ IH|r s|g p s|g p c s s1 Hp _ [pre ->]| |s].
  - exists []. reflexivity.
  - exists [c]. reflexivity.
  - exists (p1 ++ p2). rewrite app_assoc. reflexivity.
  - exact IH.
  - exists []. reflexivity.
  - exists []. reflexivity.
  - exists (c :: pre). reflexivity.
  - exists []. reflexivity.
  - exists []. reflexivity.
Qed.

Lemma matches_length r s rest : matches r s rest → (length rest ≤ length s)%nat.
Proof. intros [pre ->]%matches_suffix. rewrite length_app. lia. Qed.

Lemma star_greedy_sound {A} g p (k : str → option A) s x :
  star_greedy p k s = Some x →
  ∃ rest, matches (Star g p) s rest ∧ k rest = Some x.
Proof.
  induction s as [|c s IH]; simpl.
  - intros H. exists []. split; [constructor|exact H].
  - destruct (p c) eqn:Hp.
    + destruct (star_greedy p k s) as [y|] eqn:Hs.
      * intros [= <-]. destruct (IH eq_refl) as (rest & Hm & Hk).
        exists rest. split; [constructor; assumption|exact Hk].
      * intros H. exists (c :: s). split; [constructor|exact H].
    + intros H. exists (c :: s). split; [constructor|exact H].
Qed.

Lemma star_lazy_sound {A} g p (k : str → option A) s x :
  star_lazy p k s = Some x →
  ∃ rest, matches (Star g p) s rest ∧ k rest = Some x.
Proof.
  induction s as [|c s IH]; simpl.
  - destruct (k []) eqn:Hk; [|discriminate].
    intros [= <-]. exists []. split; [constructor|exact Hk].
  - destruct (k (c :: s)) eqn:Hk.
    + intros [= <-]. exists (c :: s). split; [constructor|exact Hk].
    + destruct (p c) eqn:Hp; [|discriminate].
      intros H. destruct (IH H) as (rest & Hm & Hr).
      exists rest. split; [constructor; assumption|exact Hr].
Qed.

(** What the matcher finds is in the language of the pattern. *)
Lemma bt_sound {A} r : ∀ (k : str → option A) s x,
  bt r k s = Some x → ∃ rest, matches r s rest ∧ k rest = Some x.
Proof.
  induction r as [|p|r1 IH1 r2 IH2|r IH|g p|]; intros k s x; simpl.
  - intros H. exists s. split; [constructor|exact H].
  - destruct s as [|c s]; [discriminate|].
    destruct (p c) eqn:Hp; [|discriminate].
    intros H. exists s. split; [constructor; exact Hp|exact H].
  - intros H. apply IH1 in H as (s1 & H1 & H).
    apply IH2 in H as (s2 & H2 & H).
    exists s2. split; [econstructor; eassumption|exact H].
  - destruct (bt r k s) as [y|] eqn:Hr.
    + intros [= <-]. apply IH in Hr as (rest & Hm & Hk).
      exists rest. split; [constructor; exact Hm|exact Hk].
    + intros H. exists s. split; [apply matches_opt_none|exact H].
  - destruct g; [apply star_greedy_sound|apply star_lazy_sound].
  - destruct s as [|c s].
    + intros H. exists []. split; [constructor|exact H].
    + destruct (N.eqb_spec c NL) as [->|]; [|discriminate].
      intros H. exists (NL :: s). split; [constructor|exact H].
Qed.

(** Where the pattern can match and the rest of the pattern succeeds, the
    matcher succeeds. *)
Lemma bt_complete r s rest :
  matches r s rest →
  ∀ A (k : str → option A), is_Some (k rest) → is_Some (bt r k s).
Proof.
  induction 1 as [s|p c s Hp|r1 r2 s s1 s2 _ IH1 _ IH2
                 |r s s1 _ IH|r s|g p s|g p c s s1 Hp _ IH| |s];
    intros A k Hk; simpl.
  - exact Hk.
  - rewrite Hp. exact Hk.
  - apply IH1, IH2, Hk.
  - specialize (IH A k Hk). destruct IH as [y ->]. eauto.
  - destruct (bt r k s); [eauto|exact Hk].
  - destruct g.
    + destruct s as [|c s]; simpl; [exact Hk|].
      destruct (p c); [|exact Hk].
      destruct (star_greedy p k s); [eauto|exact Hk].
    + destruct s as [|c s]; simpl; destruct Hk as [y ->]; eauto.
  - specialize (IH A k Hk). destruct g; simpl in *.
    + rewrite Hp. destruct IH as [y ->]. eauto.
    + destruct (k (c :: s)); [eauto|]. rewrite Hp. exact IH.
  - exact Hk.
  - exact Hk.
Qed.

Lemma match_len_sound r s n :
  match_len r s = Some n → (n ≤ length s)%nat ∧ matches r s (drop n s).
Proof.
  unfold match_len. intros H. apply bt_sound in H as (rest & Hm & [= <-]).
  split; [lia|].
  destruct (matches_suffix _ _ _ Hm) as [pre ->].
  rewrite length_app, Nat.add_sub, drop_app_length. exact Hm.
Qed.

Lemma match_len_complete r s rest :
  matches r s rest → is_Some (match_len r s).
Proof. intros H. eapply bt_complete; [exact H|eauto]. Qed.

Lemma matches_exactly_spec r s n :
  matches_exactly r s n = true ↔ (n ≤ length s)%nat ∧ matches r s (drop n s).
Proof.
  unfold matches_exactly. rewrite andb_true_iff, Nat.leb_le, bool_decide_eq_true.
  split; intros [Hn H]; (split; [exact Hn|]).
  - destruct H as [[] H]. apply bt_sound in H as (rest & Hm & Hk).
    destruct (Nat.eqb_spec (length rest) (length s - n)) as [Hlen|];
      [|discriminate].
    destruct (matches_suffix _ _ _ Hm) as [pre ->].
    rewrite length_app in Hlen, Hn.
    replace n with (length pre) by lia. rewrite drop_app_length. exact Hm.
  - eapply bt_complete; [exact H|].
    rewrite length_drop, Nat.eqb_refl. eauto.
Qed.

(** ** [re.sub] and [re.findall], match by match *)

Lemma sub_from_skip r repl n : ∀ s,
  sub_from r repl n s = re_sub r repl (drop n s).
Proof.
  induction n as [|n IH]; intros s; [reflexivity|].
  destruct s as [|c s]; [reflexivity|]. simpl. apply IH.
Qed.

Lemma re_sub_match r repl s n :
  match_len r s = Some (S n) →
  re_sub r repl s = repl ++ re_sub r repl (drop (S n) s).
Proof.
  intros H. destruct s as [|c s].
  - apply match_len_sound in H as [H _]. simpl in H. lia.
  - unfold re_sub at 1. simpl. rewrite H, sub_from_skip. reflexivity.
Qed.

Lemma re_sub_no_match r repl c s :
  match_len r (c :: s) = None → re_sub r repl (c :: s) = c :: re_sub r repl s.
Proof. intros H. unfold re_sub. simpl. rewrite H. reflexivity. Qed.

Lemma findall_from_skip r n : ∀ s,
  findall_from r n s = re_findall r (drop n s).
Proof.
  induction n as [|n IH]; intros s; [reflexivity|].
  destruct s as [|c s]; [reflexivity|]. simpl. apply IH.
Qed.

Lemma re_findall_match r s n :
  match_len r s = Some (S n) →
  re_findall r s = take (S n) s :: re_findall r (drop (S n) s).
Proof.
  intros H. destruct s as [|c s].
  - apply match_len_sound in H as [H _]. simpl in H. lia.
  - unfold re_findall at 1. simpl. rewrite H, findall_from_skip. reflexivity.
Qed.

Lemma re_findall_no_match r c s :
  match_len r (c :: s) = None ∨ match_len r (c :: s) = Some 0%nat →
  re_findall r (c :: s) = re_findall r s.
Proof. intros [H|H]; unfold re_findall; simpl; rewrite H; reflexivity. Qed.

Section Findall.
Variable r : regex.
(** The pattern does not match the empty string. *)
Hypothesis nonempty : ∀ s rest, matches r s rest → rest ≠ s.

Lemma match_len_positive s n : match_len r s = Some n → n ≠ 0%nat.
Proof.
  intros H ->. apply match_len_sound in H as [_ H].
  exact (nonempty _ _ H eq_refl).
Qed.

Lemma re_findall_nowhere s :
  (∀ j m, (j + m ≤ length s)%nat →
          ¬ matches r (drop j s) (drop (j + m) s)) →
  re_findall r s = [].
Proof.
  induction s as [|c s IH]; intros Hno; [reflexivity|].
  destruct (match_len r (c :: s)) as [n|] eqn:Hm.
  - apply match_len_sound in Hm as [Hn Hm].
    exfalso. exact (Hno 0%nat n Hn Hm).
  - rewrite re_findall_no_match by (left; exact Hm).
    apply IH. intros j m Hjm. apply (Hno (S j) m). simpl. lia.
Qed.

Lemma re_findall_once i : ∀ s n,
  (i + n ≤ length s)%nat →
  matches r (drop i s) (drop (i + n) s) →
  (∀ j m, (j + m ≤ length s)%nat →
          matches r (drop j s) (drop (j + m) s) → j = i ∧ m = n) →
  re_findall r s = [take n (drop i s)].
Proof.
  induction i as [|i IH]; intros s n Hin Hocc Huniq.
  - rewrite drop_0 in *. simpl in Hocc.
    destruct (match_len_complete _ _ _ Hocc) as [k Hk].
    pose proof (match_len_positive _ _ Hk) as Hpos.
    pose proof (match_len_sound _ _ _ Hk) as [Hlen Hm].
    destruct (Huniq 0%nat k Hlen Hm) as [_ ->].
    destruct n as [|n]; [done|].
    rewrite (re_findall_match _ _ _ Hk). f_equal.
    apply re_findall_nowhere. intros j m Hjm. rewrite !drop_drop.
    rewrite length_drop in Hjm.
    intros H. replace (S n + (j + m))%nat with (S n + j + m)%nat in H by lia.
    apply Huniq in H; lia.
  - destruct s as [|c s]; [simpl in Hin; lia|].
    destruct (match_len r (c :: s)) as [k|] eqn:Hk.
    + apply match_len_sound in Hk as [Hlen Hm].
      destruct (Huniq 0%nat k Hlen Hm) as [[=] _].
    + rewrite re_findall_no_match by (left; exact Hk).
      apply (IH s n); [simpl in Hin; lia|exact Hocc|].
      intros j m Hjm Hm. destruct (Huniq (S j) m) as [Hj ->];
        [simpl; lia|exact Hm|]. split; [lia|reflexivity].
Qed.
End Findall.

(** ** extract_go_patterns *)

Lemma matches_literal_first p r s rest :
  matches (Seq (Chr p) r) s rest → rest ≠ s.
Proof.
  intros H. inversion H as [| |r1 r2 s0 s1 s2 H1 H2| | | | | |]; subst.
  inversion H1; subst. apply matches_length in H2.
  intros ->. simpl in H2. lia.
Qed.

(** No shape matches the empty string: each starts with a keyword. *)
Lemma shape_pattern_nonempty isalnum sh s rest :
  matches (shape_pattern isalnum sh) s rest → rest ≠ s.
Proof. destruct sh; apply matches_literal_first. Qed.

Lemma occurrences_spec isalnum code sh i n :
  (sh, i, n) ∈ occurrences isalnum code ↔ occurrence isalnum sh i n code.
Proof.
  unfold occurrences, occurrence. split.
  - intros H.
    apply list_elem_of_bind in H as (sh' & H & _).
    apply list_elem_of_bind in H as (i' & H & Hi).
    apply list_elem_of_bind in H as (n' & H & Hn).
    destruct (matches_exactly _ _ n') eqn:Hm; [|by apply elem_of_nil in H].
    apply list_elem_of_singleton in H as [= -> -> ->].
    apply matches_exactly_spec in Hm as [Hlen Hm].
    rewrite length_drop in Hlen. apply elem_of_seq in Hi.
    rewrite drop_drop in Hm. split; [lia|exact Hm].
  - intros [Hlen Hm].
    apply list_elem_of_bind. exists sh. split; [|destruct sh; set_solver].
    apply list_elem_of_bind. exists i. split; [|apply elem_of_seq; lia].
    apply list_elem_of_bind. exists n. split; [|apply elem_of_seq; lia].
    rewrite (proj2 (matches_exactly_spec _ _ _)); [set_solver|].
    rewrite length_drop, drop_drop. split; [lia|exact Hm].
Qed.

(** When a pattern matches at one place of [code], and that is the only
    place in [code] where one of the three does, the blocks extracted
    are the text at that place alone. *)
Lemma extract_go_patterns_one_occurrence (isalnum : char → bool) (code : str)
    (sh : shape) (i n : nat) :
  occurrence isalnum sh i n code →
  (∀ sh' i' n', occurrence isalnum sh' i' n' code →
                sh' = sh ∧ i' = i ∧ n' = n) →
  extract_go_patterns isalnum code = [take n (drop i code)].
Proof.
  intros [Hlen Hocc] Huniq.
  assert (Hother : ∀ sh', sh' ≠ sh →
            re_findall (shape_pattern isalnum sh') code = []).
  { intros sh' Hne. apply re_findall_nowhere. intros j m Hjm Hm.
    destruct (Huniq sh' j m) as [Hsh _]; [split; assumption|]. congruence. }
  assert (Hthis : re_findall (shape_pattern isalnum sh) code
                  = [take n (drop i code)]).
  { apply re_findall_once.
    - apply shape_pattern_nonempty.
    - exact Hlen.
    - exact Hocc.
    - intros j m Hjm Hm. destruct (Huniq sh j m) as (_ & -> & ->);
        [split; assumption|]. split; reflexivity. }
  unfold extract_go_patterns.
  change (func_pattern isalnum) with (shape_pattern isalnum FuncShape).
  change (interface_pattern isalnum)
    with (shape_pattern isalnum InterfaceShape).
  change (struct_pattern isalnum) with (shape_pattern isalnum StructShape).
  destruct sh.
  - rewrite Hthis, !Hother by discriminate. reflexivity.
  - rewrite Hthis, !Hother by discriminate. reflexivity.
  - rewrite Hthis, !Hother by discriminate. reflexivity.
Qed.

(** ** clean_go_code *)

(** *** Facts on the vocabulary *)

Lemma has2_cons a b x s :
  has2 a b (x :: s)
  = match s with
    | y :: _ => ((x =? a) && (y =? b)) || has2 a b s
    | [] => false
    end.
Proof. reflexivity. Qed.

Lemma has2_app_r a b pre s : has2 a b s = true → has2 a b (pre ++ s) = true.
Proof.
  intros H. induction pre as [|x pre IH]; [exact H|].
  simpl app. rewrite has2_cons. destruct (pre ++ s) as [|y u] eqn:E.
  - destruct pre; simpl in E; [subst s|]; discriminate.
  - rewrite IH. apply orb_true_r.
Qed.

Lemma has2_app_l a b s post : has2 a b s = true → has2 a b (s ++ post) = true.
Proof.
  induction s as [|x s IH]; [discriminate|].
  rewrite has2_cons. destruct s as [|y s]; [discriminate|].
  intros H. simpl app. rewrite has2_cons.
  apply orb_true_iff in H as [H|H]; [rewrite H; reflexivity|].
  simpl app in IH. rewrite (IH H). apply orb_true_r.
Qed.

Lemma has2_here a b s : has2 a b (a :: b :: s) = true.
Proof. rewrite has2_cons, !N.eqb_refl. reflexivity. Qed.

Lemma has2_split a b s :
  has2 a b s = true → ∃ pre post, s = pre ++ a :: b :: post.
Proof.
  induction s as [|x s IH]; [discriminate|].
  rewrite has2_cons. destruct s as [|y s]; [discriminate|].
  intros [H|H]%orb_true_iff.
  - apply andb_true_iff in H as [->%N.eqb_eq ->%N.eqb_eq].
    exists [], s. reflexivity.
  - destruct (IH H) as (pre & post & ->). exists (x :: pre), post. reflexivity.
Qed.

Lemma has_block_cons x s :
  has_block (x :: s)
  = match s with
    | y :: t => ((x =? SLASH) && (y =? STAR) && has2 STAR SLASH t)
                || has_block s
    | [] => false
    end.
Proof. reflexivity. Qed.

Lemma has_block_app_r pre s : has_block s = true → has_block (pre ++ s) = true.
Proof.
  intros H. induction pre as [|x pre IH]; [exact H|].
  simpl app. rewrite has_block_cons. destruct (pre ++ s) as [|y u] eqn:E.
  - destruct pre; simpl in E; [subst s|]; discriminate.
  - rewrite IH. apply orb_true_r.
Qed.

Lemma has_block_app_l s post : has_block s = true → has_block (s ++ post) = true.
Proof.
  induction s as [|x s IH]; [discriminate|].
  rewrite has_block_cons. destruct s as [|y s]; [discriminate|].
  intros H. simpl app. rewrite has_block_cons.
  apply orb_true_iff in H as [H|H].
  - apply andb_true_iff in H as [-> H]. rewrite (has2_app_l _ _ _ _ H).
    reflexivity.
  - simpl app in IH. rewrite (IH H). apply orb_true_r.
Qed.


Lemma quiet_app t post : quiet (t ++ post) = true → quiet t = true.
Proof.
  induction t as [|c t IH]; [reflexivity|]. simpl.
  destruct (isspace c); [|reflexivity].
  intros [-> H]%andb_true_iff. exact (IH H).
Qed.

Lemma no_blank_run_app_r pre s :
  no_blank_run (pre ++ s) = true → no_blank_run s = true.
Proof.
  induction pre as [|c pre IH]; [done|]. simpl.
  intros [_ H]%andb_true_iff. exact (IH H).
Qed.

Lemma no_blank_run_app_l s post :
  no_blank_run (s ++ post) = true → no_blank_run s = true.
Proof.
  induction s as [|c s IH]; [reflexivity|]. simpl.
  intros [Hq H]%andb_true_iff. rewrite (IH H), andb_true_r.
  destruct (c =? NL); [|reflexivity]. exact (quiet_app _ _ Hq).
Qed.

Lemma quiet_blank_run ws post :
  forallb isspace ws = true → quiet (ws ++ NL :: post) = false.
Proof.
  induction ws as [|c ws IH]; simpl; [reflexivity|].
  intros [-> H]%andb_true_iff. rewrite (IH H). apply andb_false_r.
Qed.

(** *** The three patterns, match by match *)

Lemma ch_eq a c : ch a c = true → c = N_of_ascii a.
Proof. unfold ch. intros H%N.eqb_eq. congruence. Qed.

Lemma matches_star_span g p : ∀ pre s,
  forallb p pre = true → matches (Star g p) (pre ++ s) s.
Proof.
  induction pre as [|c pre IH]; intros s; simpl; [constructor|].
  intros [Hc H]%andb_true_iff. constructor; [exact Hc|exact (IH s H)].
Qed.

Lemma line_comment_starts s rest :
  matches line_comment s rest → ∃ t, s = SLASH :: SLASH :: t.
Proof.
  cbv [line_comment pat foldr word many eol]. intros H. invert_matches.
  repeat match goal with H : ch _ _ = true |- _ => apply ch_eq in H; subst end.
  eauto.
Qed.

Lemma line_comment_matches t :
  ∃ rest, matches line_comment (SLASH :: SLASH :: t) rest.
Proof.
  assert (H : ∃ rest, matches (Star true dot) t rest ∧ matches Eol rest rest).
  { induction t as [|c t [rest [H1 H2]]].
    - exists []. split; constructor.
    - destruct (N.eqb_spec c NL) as [->|Hc].
      + exists (NL :: t). split; constructor.
      + exists rest. split; [|exact H2]. constructor; [|exact H1].
        unfold dot. apply negb_true_iff, N.eqb_neq, Hc. }
  destruct H as (rest & H1 & H2). exists rest.
  unfold line_comment, pat, many, eol. simpl.
  eapply matches_seq; [apply matches_chr; reflexivity|].
  eapply matches_seq; [apply matches_chr; reflexivity|].
  eapply matches_seq; [exact H1|].
  eapply matches_seq; [exact H2|constructor].
Qed.

Lemma block_comment_starts s rest :
  matches block_comment s rest →
  ∃ t, s = SLASH :: STAR :: t ∧ has2 STAR SLASH t = true.
Proof.
  cbv [block_comment pat foldr word few]. intros H. invert_matches.
  repeat match goal with H : ch _ _ = true |- _ => apply ch_eq in H; subst end.
  eexists. split; [reflexivity|].
  match goal with H : matches (Star _ _) _ _ |- _ =>
    apply matches_suffix in H as [pre ->] end.
  apply has2_app_r, has2_here.
Qed.

Lemma block_comment_matches t :
  has2 STAR SLASH t = true →
  ∃ rest, matches block_comment (SLASH :: STAR :: t) rest.
Proof.
  intros (pre & post & ->)%has2_split. exists post.
  unfold block_comment, pat, few. simpl.
  eapply matches_seq; [apply matches_chr; reflexivity|].
  eapply matches_seq; [apply matches_chr; reflexivity|].
  eapply matches_seq;
    [apply matches_star_span; apply forallb_forall; done|].
  eapply matches_seq; [apply matches_chr; reflexivity|].
  eapply matches_seq; [apply matches_chr; reflexivity|constructor].
Qed.

Lemma match_len_none r s :
  match_len r s = None ↔ ∀ rest, ¬ matches r s rest.
Proof.
  split.
  - intros H rest Hm. apply match_len_complete in Hm as [n Hn]. congruence.
  - intros H. destruct (match_len r s) as [n|] eqn:E; [|reflexivity].
    apply match_len_sound in E as [_ E]. destruct (H _ E).
Qed.

Lemma isspace_NL : isspace NL = true.
Proof. reflexivity. Qed.

Section GreedyBlank.
Context {A : Type}.
Variable k0 : str → option A.
Hypothesis k0_total : ∀ s, is_Some (k0 s).

(** [\s*\n] finds no newline: there is none in the whitespace. *)
Lemma greedy_blank_none t :
  star_greedy isspace (bt (Seq (Chr (N.eqb NL)) Eps) k0) t = None →
  quiet t = true.
Proof.
  induction t as [|c t IH]; cbn [star_greedy bt quiet]; [reflexivity|].
  destruct (isspace c) eqn:Hc; [|reflexivity].
  destruct (star_greedy _ _ t) eqn:Hs; [discriminate|].
  rewrite (IH eq_refl), andb_true_r.
  destruct (N.eqb_spec NL c) as [<-|Hne].
  - destruct (k0_total t) as [x ->]. discriminate.
  - intros _. apply negb_true_iff, N.eqb_neq. congruence.
Qed.

(** [\s*\n] stops at the last newline of the whitespace. *)
Lemma greedy_blank_some t x :
  star_greedy isspace (bt (Seq (Chr (N.eqb NL)) Eps) k0) t = Some x →
  ∃ pre rest, t = pre ++ rest ∧ k0 rest = Some x ∧ quiet rest = true.
Proof.
  induction t as [|c t IH]; cbn [star_greedy bt quiet]; [discriminate|].
  destruct (isspace c) eqn:Hc.
  - destruct (star_greedy _ _ t) as [y|] eqn:Hs.
    + intros [= <-]. destruct (IH eq_refl) as (pre & rest & -> & Hk & Hq).
      exists (c :: pre), rest. done.
    + destruct (N.eqb_spec NL c) as [<-|]; [|discriminate].
      intros Hk. exists [NL], t. split; [reflexivity|].
      split; [exact Hk|]. apply greedy_blank_none, Hs.
  - destruct (N.eqb_spec NL c) as [<-|]; [|discriminate].
    rewrite isspace_NL in Hc. discriminate.
Qed.
End GreedyBlank.

Lemma blank_run_match s n :
  match_len blank_run s = Some n →
  ∃ t, s = NL :: t ∧ quiet (drop n s) = true.
Proof.
  unfold match_len. cbv [blank_run pat foldr one many]. cbn [bt].
  destruct s as [|c t]; [discriminate|].
  destruct (N.eqb_spec NL c) as [<-|]; [|discriminate].
  intros H. apply greedy_blank_some in H as (pre & rest & -> & [= <-] & Hq);
    [|eauto].
  exists (pre ++ rest). split; [reflexivity|].
  cbn [length]. rewrite length_app.
  replace (S (length pre + length rest) - length rest)%nat
    with (S (length pre)) by lia.
  cbn [drop]. rewrite drop_app_length. exact Hq.
Qed.

Lemma blank_run_no_match t :
  match_len blank_run (NL :: t) = None → quiet t = true.
Proof.
  unfold match_len. cbv [blank_run pat foldr one many]. cbn [bt].
  apply greedy_blank_none. eauto.
Qed.

(** *** Induction along the matches of [re.sub] *)

Section ReSub.
Variable r : regex.
Variable repl : str.
Hypothesis nonempty : ∀ s rest, matches r s rest → rest ≠ s.

Lemma re_sub_cons c s :
  (match_len r (c :: s) = None
   ∧ re_sub r repl (c :: s) = c :: re_sub r repl s)
  ∨ (∃ n, match_len r (c :: s) = Some (S n)
          ∧ re_sub r repl (c :: s) = repl ++ re_sub r repl (drop n s)).
Proof.
  destruct (match_len r (c :: s)) as [[|n]|] eqn:E.
  - destruct (match_len_positive r nonempty _ _ E eq_refl).
  - right. exists n. split; [reflexivity|].
    rewrite (re_sub_match _ _ _ _ E). reflexivity.
  - left. split; [reflexivity|]. apply re_sub_no_match, E.
Qed.

Lemma re_sub_ind (P : str → str → Prop) :
  P [] [] →
  (∀ c s, match_len r (c :: s) = None →
          P s (re_sub r repl s) → P (c :: s) (c :: re_sub r repl s)) →
  (∀ c s n, match_len r (c :: s) = Some (S n) →
            P (drop n s) (re_sub r repl (drop n s)) →
            P (c :: s) (repl ++ re_sub r repl (drop n s))) →
  ∀ s, P s (re_sub r repl s).
Proof.
  intros Hnil Hnone Hsome s.
  remember (length s) as m eqn:Hm. revert s Hm.
  induction m as [m IH] using lt_wf_ind. intros s ->.
  assert (IH' : ∀ s', (length s' < length s)%nat → P s' (re_sub r repl s')).
  { intros s' Hlt. eapply IH; [exact Hlt|reflexivity]. }
  clear IH. destruct s as [|c s]; [exact Hnil|].
  destruct (re_sub_cons c s) as [[E ->]|(n & E & ->)].
  - apply Hnone; [exact E|]. apply IH'. simpl. lia.
  - apply Hsome; [exact E|]. apply IH'. rewrite length_drop. simpl. lia.
Qed.
End ReSub.

Lemma line_comment_nonempty s rest : matches line_comment s rest → rest ≠ s.
Proof. apply matches_literal_first. Qed.

Lemma block_comment_nonempty s rest : matches block_comment s rest → rest ≠ s.
Proof. apply matches_literal_first. Qed.

Lemma blank_run_nonempty s rest : matches blank_run s rest → rest ≠ s.
Proof. apply matches_literal_first. Qed.

(** *** The three substitutions, one after the other *)

Lemma has2_cons_false a b x out :
  has2 a b out = false → (x = a → ∀ u, out ≠ b :: u) →
  has2 a b (x :: out) = false.
Proof.
  intros Hout Hx. rewrite has2_cons. destruct out as [|y u]; [reflexivity|].
  rewrite Hout, orb_false_r. apply andb_false_iff.
  destruct (N.eqb_spec x a) as [->|]; [right|left; reflexivity].
  apply N.eqb_neq. intros ->. exact (Hx eq_refl u eq_refl).
Qed.

Lemma has2_false_app_r a b pre s :
  has2 a b (pre ++ s) = false → has2 a b s = false.
Proof.
  intros H. destruct (has2 a b s) eqn:E; [|reflexivity].
  rewrite (has2_app_r _ _ pre _ E) in H. discriminate.
Qed.

Lemma has2_false_drop a b n s : has2 a b s = false → has2 a b (drop n s) = false.
Proof. rewrite <- (take_drop n s) at 1. apply has2_false_app_r. Qed.

Lemma has2_false_tail a b x s : has2 a b (x :: s) = false → has2 a b s = false.
Proof. apply (has2_false_app_r a b [x]). Qed.

Lemma has_block_false_app_r pre s :
  has_block (pre ++ s) = false → has_block s = false.
Proof.
  intros H. destruct (has_block s) eqn:E; [|reflexivity].
  rewrite (has_block_app_r pre _ E) in H. discriminate.
Qed.

Lemma has_block_false_drop n s : has_block s = false → has_block (drop n s) = false.
Proof. rewrite <- (take_drop n s) at 1. apply has_block_false_app_r. Qed.

(** After the first substitution no line comment is left. *)
Lemma line_comments_removed s : has2 SLASH SLASH (re_sub line_comment [] s) = false.
Proof.
  apply (re_sub_ind line_comment [] line_comment_nonempty
           (λ _ out, has2 SLASH SLASH out = false)); clear s.
  - reflexivity.
  - intros c s Hnone IH. apply has2_cons_false; [exact IH|].
    intros -> u Hu. destruct s as [|d s]; [discriminate|].
    destruct (N.eqb_spec d SLASH) as [->|Hd].
    + destruct (line_comment_matches s) as [rest Hm].
      exact (proj1 (match_len_none _ _) Hnone _ Hm).
    + rewrite re_sub_no_match in Hu; [congruence|].
      apply match_len_none. intros rest [t Ht]%line_comment_starts. congruence.
  - intros c s n _ IH. exact IH.
Qed.

Lemma block_comment_no_match_at d s :
  d ≠ SLASH → match_len block_comment (d :: s) = None.
Proof.
  intros Hd. apply match_len_none.
  intros rest (t & Ht & _)%block_comment_starts. congruence.
Qed.

(** The second substitution brings no line comment back. *)
Lemma block_comments_keep_line_comments_out s :
  has2 SLASH SLASH s = false →
  has2 SLASH SLASH (re_sub block_comment [] s) = false.
Proof.
  apply (re_sub_ind block_comment [] block_comment_nonempty
           (λ s out, has2 SLASH SLASH s = false
                     → has2 SLASH SLASH out = false)); clear s.
  - reflexivity.
  - intros c s Hnone IH Hs. pose proof (has2_false_tail _ _ _ _ Hs) as Hs'.
    apply has2_cons_false; [exact (IH Hs')|].
    intros -> u Hu. destruct s as [|d s]; [discriminate|].
    assert (Hd : d ≠ SLASH)
      by (intros ->; rewrite has2_here in Hs; discriminate).
    rewrite re_sub_no_match in Hu by (apply block_comment_no_match_at, Hd).
    congruence.
  - intros c s n _ IH Hs. apply IH.
    apply has2_false_drop. exact (has2_false_tail _ _ _ _ Hs).
Qed.

(** Where no closing marker stands the second substitution changes
    nothing. *)
Lemma block_comment_needs_closing s :
  has2 STAR SLASH s = false → re_sub block_comment [] s = s.
Proof.
  apply (re_sub_ind block_comment [] block_comment_nonempty
           (λ s out, has2 STAR SLASH s = false → out = s)); clear s.
  - reflexivity.
  - intros c s _ IH Hs. rewrite IH; [reflexivity|].
    exact (has2_false_tail _ _ _ _ Hs).
  - intros c s n Hm _ Hs. exfalso.
    apply match_len_sound in Hm as [_ Hm].
    apply block_comment_starts in Hm as (t & Ht & Hclose).
    rewrite Ht in Hs.
    pose proof (has2_app_r STAR SLASH [SLASH; STAR] t Hclose) as H'.
    change (has2 STAR SLASH (SLASH :: STAR :: t) = true) in H'.
    congruence.
Qed.

(** After the second substitution no block comment is left. *)
Lemma block_comments_removed s :
  has2 SLASH SLASH s = false →
  has_block (re_sub block_comment [] s) = false.
Proof.
  apply (re_sub_ind block_comment [] block_comment_nonempty
           (λ s out, has2 SLASH SLASH s = false → has_block out = false));
    clear s.
  - reflexivity.
  - intros c s Hnone IH Hs. pose proof (has2_false_tail _ _ _ _ Hs) as Hs'.
    rewrite has_block_cons.
    destruct (re_sub block_comment [] s) as [|y t] eqn:Hout; [reflexivity|].
    rewrite (IH Hs'), orb_false_r.
    destruct (N.eqb_spec c SLASH) as [->|]; [|reflexivity].
    destruct (N.eqb_spec y STAR) as [->|]; [|reflexivity]. simpl.
    destruct s as [|d s]; [discriminate|].
    assert (Hd : d ≠ SLASH)
      by (intros ->; rewrite has2_here in Hs; discriminate).
    rewrite re_sub_no_match in Hout by (apply block_comment_no_match_at, Hd).
    injection Hout as -> <-.
    assert (Hclose : has2 STAR SLASH s = false).
    { destruct (has2 STAR SLASH s) eqn:E; [|reflexivity].
      destruct (block_comment_matches s E) as [rest Hm].
      destruct (proj1 (match_len_none _ _) Hnone _ Hm). }
    rewrite (block_comment_needs_closing s Hclose). exact Hclose.
  - intros c s n _ IH Hs. apply IH.
    apply has2_false_drop. exact (has2_false_tail _ _ _ _ Hs).
Qed.

(** What the third substitution leaves at its head, unless a newline,
    stood at the head before it. *)
Lemma blank_run_head s d u :
  re_sub blank_run [NL] s = d :: u → d ≠ NL →
  ∃ s', s = d :: s' ∧ u = re_sub blank_run [NL] s'.
Proof.
  intros H Hd. destruct s as [|c s]; [discriminate|].
  destruct (re_sub_cons blank_run [NL] blank_run_nonempty c s)
    as [[_ E]|(n & _ & E)]; rewrite E in H.
  - injection H as -> <-. eauto.
  - injection H as <- _. congruence.
Qed.

(** The third substitution brings together no two characters that were
    apart, so no comment marker. *)
Lemma blank_runs_keep_pairs_out a b s :
  a ≠ NL → b ≠ NL →
  has2 a b s = false → has2 a b (re_sub blank_run [NL] s) = false.
Proof.
  intros Ha Hb.
  apply (re_sub_ind blank_run [NL] blank_run_nonempty
           (λ s out, has2 a b s = false → has2 a b out = false)); clear s.
  - reflexivity.
  - intros c s _ IH Hs. pose proof (has2_false_tail _ _ _ _ Hs) as Hs'.
    apply has2_cons_false; [exact (IH Hs')|].
    intros -> u Hu. apply blank_run_head in Hu as (s' & -> & _); [|exact Hb].
    rewrite has2_here in Hs. discriminate.
  - intros c s n _ IH Hs. simpl app. apply has2_cons_false.
    + apply IH, has2_false_drop. exact (has2_false_tail _ _ _ _ Hs).
    + intros Heq. congruence.
Qed.

Lemma blank_runs_keep_block_comments_out s :
  has_block s = false → has_block (re_sub blank_run [NL] s) = false.
Proof.
  apply (re_sub_ind blank_run [NL] blank_run_nonempty
           (λ s out, has_block s = false → has_block out = false)); clear s.
  - reflexivity.
  - intros c s _ IH Hs.
    pose proof (has_block_false_app_r [c] _ Hs) as Hs'.
    rewrite has_block_cons.
    destruct (re_sub blank_run [NL] s) as [|y t] eqn:Hout; [reflexivity|].
    rewrite (IH Hs'), orb_false_r.
    destruct (N.eqb_spec c SLASH) as [->|]; [|reflexivity].
    destruct (N.eqb_spec y STAR) as [->|]; [|reflexivity]. simpl.
    apply blank_run_head in Hout as (s' & -> & ->); [|discriminate].
    apply blank_runs_keep_pairs_out; [discriminate..|].
    rewrite has_block_cons, !N.eqb_refl in Hs. simpl in Hs.
    apply orb_false_iff in Hs as [Hs _]. exact Hs.
  - intros c s n _ IH Hs. simpl app. rewrite has_block_cons.
    destruct (re_sub blank_run [NL] (drop n s)) as [|y t] eqn:Hout;
      [reflexivity|].
    simpl. apply IH, has_block_false_drop.
    exact (has_block_false_app_r [c] _ Hs).
Qed.

Lemma blank_run_quiet s :
  quiet s = true → quiet (re_sub blank_run [NL] s) = true.
Proof.
  induction s as [|c s IH]; [reflexivity|].
  cbn [quiet]. intros Hq.
  assert (Hc : c ≠ NL).
  { intros ->. rewrite isspace_NL in Hq. discriminate. }
  rewrite re_sub_no_match.
  - cbn [quiet]. destruct (isspace c); [|reflexivity].
    apply andb_true_iff in Hq as [-> Hq]. exact (IH Hq).
  - destruct (match_len blank_run (c :: s)) as [n|] eqn:E; [|reflexivity].
    apply blank_run_match in E as (t & [= ->] & _). congruence.
Qed.

(** After the third substitution no run of blank lines is left. *)
Lemma blank_runs_removed s : no_blank_run (re_sub blank_run [NL] s) = true.
Proof.
  apply (re_sub_ind blank_run [NL] blank_run_nonempty
           (λ _ out, no_blank_run out = true)); clear s.
  - reflexivity.
  - intros c s Hnone IH. cbn [no_blank_run]. rewrite IH, andb_true_r.
    destruct (N.eqb_spec c NL) as [->|]; [|reflexivity].
    apply blank_run_quiet, blank_run_no_match, Hnone.
  - intros c s n Hm IH. simpl app. cbn [no_blank_run].
    rewrite IH, andb_true_r, N.eqb_refl.
    apply blank_run_quiet.
    apply blank_run_match in Hm as (_ & _ & Hq). exact Hq.
Qed.

(** *** [strip] and the lines of its result *)

Lemma drop_while_suffix p s : ∃ pre, s = pre ++ drop_while p s.
Proof.
  induction s as [|c s [pre IH]]; [exists []; reflexivity|]. simpl.
  destruct (p c); [|exists []; reflexivity].
  exists (c :: pre). simpl. rewrite <- IH. reflexivity.
Qed.

Lemma drop_while_head p s c u : drop_while p s = c :: u → p c = false.
Proof.
  induction s as [|d s IH]; simpl; [discriminate|].
  destruct (p d) eqn:E; [exact IH|]. intros [= <- _]. exact E.
Qed.

Lemma rstrip_prefix s : ∃ post, s = rstrip s ++ post.
Proof.
  unfold rstrip. destruct (drop_while_suffix isspace (rev s)) as [pre H].
  exists (rev pre). rewrite <- rev_app_distr, <- H, rev_involutive. reflexivity.
Qed.

Lemma strip_infix s : ∃ pre post, s = pre ++ strip s ++ post.
Proof.
  unfold strip. destruct (drop_while_suffix isspace s) as [pre H].
  destruct (rstrip_prefix (lstrip s)) as [post H'].
  exists pre, post. rewrite <- H'. exact H.
Qed.

Lemma strip_head s c u : strip s = c :: u → isspace c = false.
Proof.
  unfold strip. intros H.
  destruct (rstrip_prefix (lstrip s)) as [post H']. rewrite H in H'.
  exact (drop_while_head _ _ _ _ H').
Qed.

Lemma strip_last s u c : strip s = u ++ [c] → isspace c = false.
Proof.
  unfold strip, rstrip. intros H.
  apply (f_equal (@rev char)) in H. rewrite rev_involutive, rev_unit in H.
  exact (drop_while_head _ _ _ _ H).
Qed.




(** *** The lines of a text *)





(** *** The first substitution, line by line *)





(** *** The second substitution, comment by comment *)






(** *** The third substitution, blank line by blank line *)












(** *** The result of [clean_go_code] *)

Lemma clean_go_code_markers code :
  has2 SLASH SLASH (clean_go_code code) = false
  ∧ has_block (clean_go_code code) = false
  ∧ no_blank_run (clean_go_code code) = true.
Proof.
  unfold clean_go_code.
  pose proof (line_comments_removed code) as H1.
  pose proof (block_comments_keep_line_comments_out _ H1) as H2.
  pose proof (block_comments_removed _ H1) as H3.
  pose proof (blank_runs_keep_pairs_out SLASH SLASH _ ltac:(discriminate)
                ltac:(discriminate) H2) as H4.
  pose proof (blank_runs_keep_block_comments_out _ H3) as H5.
  pose proof (blank_runs_removed
                (re_sub block_comment [] (re_sub line_comment [] code))) as H6.
  destruct (strip_infix
              (re_sub blank_run [NL]
                 (re_sub block_comment [] (re_sub line_comment [] code))))
    as (pre & post & E).
  rewrite E in H4, H5, H6. repeat split.
  - destruct (has2 SLASH SLASH (strip _)) eqn:F; [|reflexivity].
    rewrite (has2_app_r _ _ pre _ (has2_app_l _ _ _ post F)) in H4. done.
  - destruct (has_block (strip _)) eqn:F; [|reflexivity].
    rewrite (has_block_app_r pre _ (has_block_app_l _ post F)) in H5. done.
  - eapply no_blank_run_app_l, no_blank_run_app_r, H6.
Qed.




(** ** extract_go_patterns: the blocks it takes

    The language of a pattern, piece by piece. *)

Lemma matches_star_inv g p s rest :
  matches (Star g p) s rest → ∃ pre, s = pre ++ rest ∧ forallb p pre = true.
Proof.
  intros H. remember (Star g p) as r eqn:Hr.
  induction H as [| | | | |g' p' s|g' p' c s s1 Hp _ IH| |]; try discriminate.
  - exists []. split; reflexivity.
  - injection Hr as -> ->. destruct (IH eq_refl) as (pre & -> & Hpre).
    exists (c :: pre). split; [reflexivity|]. simpl. rewrite Hp. exact Hpre.
Qed.

Lemma matches_seq_iff r1 r2 s rest :
  matches (Seq r1 r2) s rest ↔ ∃ mid, matches r1 s mid ∧ matches r2 mid rest.
Proof.
  split.
  - intros H. inversion H; subst. eauto.
  - intros (mid & H1 & H2). econstructor; eassumption.
Qed.

Lemma matches_chr_iff p s rest :
  matches (Chr p) s rest ↔ ∃ c, s = c :: rest ∧ p c = true.
Proof.
  split.
  - intros H. inversion H; subst. eauto.
  - intros (c & -> & H). constructor. exact H.
Qed.

Lemma matches_eps_iff s rest : matches Eps s rest ↔ s = rest.
Proof.
  split.
  - intros H. inversion H; subst. reflexivity.
  - intros ->. constructor.
Qed.

Lemma matches_star_iff g p s rest :
  matches (Star g p) s rest ↔ ∃ pre, s = pre ++ rest ∧ forallb p pre = true.
Proof.
  split; [apply matches_star_inv|].
  intros (pre & -> & H). apply matches_star_span, H.
Qed.

Lemma matches_word_iff w r s rest :
  matches (word w r) s rest ↔ ∃ s', s = lit w ++ s' ∧ matches r s' rest.
Proof.
  revert s. induction w as [|a w IH]; intros s; cbn [word lit].
  - split; [eauto|]. intros (s' & -> & H). exact H.
  - rewrite matches_seq_iff. split.
    + intros (mid & (c & -> & Hc)%matches_chr_iff & (s' & -> & H)%IH).
      apply ch_eq in Hc. subst c. eauto.
    + intros (s' & -> & H). exists (lit w ++ s'). split.
      * apply matches_chr. unfold ch. apply N.eqb_refl.
      * apply IH. eauto.
Qed.

Lemma matches_one_iff p r s rest :
  matches (one p r) s rest
  ↔ ∃ c s', s = c :: s' ∧ p c = true ∧ matches r s' rest.
Proof.
  unfold one. rewrite matches_seq_iff. split.
  - intros (mid & (c & -> & Hc)%matches_chr_iff & H). eauto.
  - intros (c & s' & -> & Hc & H). exists s'. split; [|exact H].
    constructor. exact Hc.
Qed.

Lemma matches_many_iff p r s rest :
  matches (many p r) s rest
  ↔ ∃ pre s', s = pre ++ s' ∧ forallb p pre = true ∧ matches r s' rest.
Proof.
  unfold many. rewrite matches_seq_iff. split.
  - intros (mid & (pre & -> & Hp)%matches_star_iff & H). eauto.
  - intros (pre & s' & -> & Hp & H). exists s'. split; [|exact H].
    apply matches_star_span, Hp.
Qed.

Lemma matches_plus_iff p r s rest :
  matches (plus p r) s rest
  ↔ ∃ pre s', s = pre ++ s' ∧ pre ≠ [] ∧ forallb p pre = true
              ∧ matches r s' rest.
Proof.
  unfold plus. rewrite matches_one_iff. split.
  - intros (c & s1 & -> & Hc & (pre & s' & -> & Hp & H)%matches_many_iff).
    exists (c :: pre), s'. cbn [forallb]. rewrite Hc, Hp. done.
  - intros (pre & s' & -> & Hne & Hp & H).
    destruct pre as [|c pre]; [done|]. cbn [forallb] in Hp.
    apply andb_true_iff in Hp as [Hc Hp].
    exists c, (pre ++ s'). split; [reflexivity|]. split; [exact Hc|].
    apply matches_many_iff. eauto.
Qed.

Lemma matches_opt_iff pieces r s rest :
  matches (opt pieces r) s rest
  ↔ matches r s rest ∨ ∃ mid, matches (pat pieces) s mid ∧ matches r mid rest.
Proof.
  unfold opt. rewrite matches_seq_iff. split.
  - intros (mid & H1 & H2). inversion H1; subst; eauto.
  - intros [H|(mid & H1 & H2)].
    + exists s. split; [apply matches_opt_none|exact H].
    + exists mid. split; [apply matches_opt_some, H1|exact H2].
Qed.

Lemma matches_name_space isalnum s rest :
  matches (pat [plus (isword isalnum); plus isspace]) s rest
  ↔ ∃ type ws, s = type ++ ws ++ rest ∧ is_name isalnum type
               ∧ ws ≠ [] ∧ blank ws = true.
Proof.
  cbv [pat foldr]. rewrite matches_plus_iff. split.
  - intros (type & s1 & -> & Hne & Ht
            & (ws & s2 & -> & Hws & Hb & ->%matches_eps_iff)%matches_plus_iff).
    exists type, ws. done.
  - intros (type & ws & -> & [Hne Ht] & Hws & Hb).
    exists type, (ws ++ rest). split; [reflexivity|]. split; [exact Hne|].
    split; [exact Ht|]. apply matches_plus_iff.
    exists ws, rest. split; [reflexivity|]. split; [exact Hws|].
    split; [exact Hb|constructor].
Qed.

Lemma matches_braces_iff s rest :
  matches (pat [one (ch "{"); many (no "}"); one (ch "}")]) s rest
  ↔ ∃ body, s = lit "{" ++ body ++ lit "}" ++ rest
            ∧ forallb (no "}") body = true.
Proof.
  cbv [pat foldr]. rewrite matches_one_iff. split.
  - intros (c & s1 & -> & Hc%ch_eq
            & (body & s2 & -> & Hb
               & (d & s3 & -> & Hd%ch_eq & ->%matches_eps_iff)%matches_one_iff)
              %matches_many_iff).
    subst. exists body. done.
  - intros (body & -> & Hb). exists 123, (body ++ lit "}" ++ rest).
    split; [reflexivity|]. split; [reflexivity|].
    apply matches_many_iff. exists body, (lit "}" ++ rest).
    split; [reflexivity|]. split; [exact Hb|].
    apply matches_one_iff. exists 125, rest. repeat split. constructor.
Qed.

(** The language of the function pattern is the function blocks. *)
Lemma func_pattern_block isalnum s rest :
  matches (func_pattern isalnum) s rest
  ↔ ∃ b, s = b ++ rest ∧ func_block isalnum b.
Proof.
  unfold func_pattern.
  change (pat [word "func"; plus isspace; plus (isword isalnum); many isspace;
               one (ch "("); many (no ")"); one (ch ")"); many isspace;
               opt [plus (isword isalnum); plus isspace];
               one (ch "{"); many (no "}"); one (ch "}")])
    with (word "func"
            (plus isspace
               (plus (isword isalnum)
                  (many isspace
                     (one (ch "(")
                        (many (no ")")
                           (one (ch ")")
                              (many isspace
                                 (opt [plus (isword isalnum); plus isspace]
                                    (pat [one (ch "{"); many (no "}");
                                          one (ch "}")])))))))))).
  split.
  - intros (s1 & -> & H)%matches_word_iff.
    apply matches_plus_iff in H as (ws1 & s2 & -> & Hne1 & Hb1 & H).
    apply matches_plus_iff in H as (name & s3 & -> & Hnn & Hn & H).
    apply matches_many_iff in H as (ws2 & s4 & -> & Hb2 & H).
    apply matches_one_iff in H as (c & s5 & -> & ->%ch_eq & H).
    apply matches_many_iff in H as (params & s6 & -> & Hp & H).
    apply matches_one_iff in H as (c & s7 & -> & ->%ch_eq & H).
    apply matches_many_iff in H as (ws3 & s8 & -> & Hb3 & H).
    apply matches_opt_iff in H as [H|(mid & H1 & H)].
    + apply matches_braces_iff in H as (body & -> & Hbody).
      exists (lit "func" ++ ws1 ++ name ++ ws2 ++ lit "(" ++ params ++ lit ")"
              ++ ws3 ++ [] ++ lit "{" ++ body ++ lit "}").
      split; [rewrite <- !app_assoc; reflexivity|].
      exists ws1, name, ws2, params, ws3, [], body.
      repeat split; try assumption. left. reflexivity.
    + apply matches_name_space in H1 as (type & ws4 & -> & Ht & Hne4 & Hb4).
      apply matches_braces_iff in H as (body & -> & Hbody).
      exists (lit "func" ++ ws1 ++ name ++ ws2 ++ lit "(" ++ params ++ lit ")"
              ++ ws3 ++ (type ++ ws4) ++ lit "{" ++ body ++ lit "}").
      split; [rewrite <- !app_assoc; reflexivity|].
      exists ws1, name, ws2, params, ws3, (type ++ ws4), body.
      repeat split; try assumption. right. exists type, ws4. done.
  - intros (b & -> & ws1 & name & ws2 & params & ws3 & result & body & ->
            & Hne1 & Hb1 & [Hnn Hn] & Hb2 & Hp & Hb3 & Hres & Hbody).
    rewrite <- !app_assoc.
    apply matches_word_iff. eexists. split; [reflexivity|].
    apply matches_plus_iff. eexists _, _. split; [reflexivity|].
    split; [exact Hne1|]. split; [exact Hb1|].
    apply matches_plus_iff. eexists _, _. split; [reflexivity|].
    split; [exact Hnn|]. split; [exact Hn|].
    apply matches_many_iff. eexists _, _. split; [reflexivity|].
    split; [exact Hb2|].
    apply matches_one_iff. eexists _, _. split; [reflexivity|].
    split; [reflexivity|].
    apply matches_many_iff. eexists _, _. split; [reflexivity|].
    split; [exact Hp|].
    apply matches_one_iff. eexists _, _. split; [reflexivity|].
    split; [reflexivity|].
    apply matches_many_iff. eexists _, _. split; [reflexivity|].
    split; [exact Hb3|].
    apply matches_opt_iff.
    destruct Hres as [->|(type & ws4 & -> & Ht & Hne4 & Hb4)].
    + left. apply matches_braces_iff. exists body. done.
    + right. exists (lit "{" ++ body ++ lit "}" ++ rest). split.
      * rewrite <- !app_assoc. apply matches_name_space.
        exists type, ws4. done.
      * apply matches_braces_iff. exists body. done.
Qed.

(** The language of the other two patterns is the blocks of their
    kind. *)
Lemma type_pattern_block isalnum (kind : string) s rest :
  matches (pat [word "type"; plus isspace; plus (isword isalnum);
                plus isspace; word kind; many isspace;
                one (ch "{"); many (no "}"); one (ch "}")]) s rest
  ↔ ∃ b, s = b ++ rest ∧ type_block isalnum kind b.
Proof.
  change (pat [word "type"; plus isspace; plus (isword isalnum);
               plus isspace; word kind; many isspace;
               one (ch "{"); many (no "}"); one (ch "}")])
    with (word "type"
            (plus isspace
               (plus (isword isalnum)
                  (plus isspace
                     (word kind
                        (many isspace
                           (pat [one (ch "{"); many (no "}");
                                 one (ch "}")]))))))).
  split.
  - intros (s1 & -> & H)%matches_word_iff.
    apply matches_plus_iff in H as (ws1 & s2 & -> & Hne1 & Hb1 & H).
    apply matches_plus_iff in H as (name & s3 & -> & Hnn & Hn & H).
    apply matches_plus_iff in H as (ws2 & s4 & -> & Hne2 & Hb2 & H).
    apply matches_word_iff in H as (s5 & -> & H).
    apply matches_many_iff in H as (ws3 & s6 & -> & Hb3 & H).
    apply matches_braces_iff in H as (body & -> & Hbody).
    exists (lit "type" ++ ws1 ++ name ++ ws2 ++ lit kind ++ ws3 ++ lit "{"
            ++ body ++ lit "}").
    split; [rewrite <- !app_assoc; reflexivity|].
    exists ws1, name, ws2, ws3, body. done.
  - intros (b & -> & ws1 & name & ws2 & ws3 & body & -> & Hne1 & Hb1
            & [Hnn Hn] & Hne2 & Hb2 & Hb3 & Hbody).
    rewrite <- !app_assoc.
    apply matches_word_iff. eexists. split; [reflexivity|].
    apply matches_plus_iff. eexists _, _. split; [reflexivity|].
    split; [exact Hne1|]. split; [exact Hb1|].
    apply matches_plus_iff. eexists _, _. split; [reflexivity|].
    split; [exact Hnn|]. split; [exact Hn|].
    apply matches_plus_iff. eexists _, _. split; [reflexivity|].
    split; [exact Hne2|]. split; [exact Hb2|].
    apply matches_word_iff. eexists. split; [reflexivity|].
    apply matches_many_iff. eexists _, _. split; [reflexivity|].
    split; [exact Hb3|].
    apply matches_braces_iff. exists body. done.
Qed.

Lemma shape_pattern_block isalnum sh s rest :
  matches (shape_pattern isalnum sh) s rest
  ↔ ∃ b, s = b ++ rest ∧ block isalnum sh b.
Proof.
  destruct sh; [apply func_pattern_block|apply type_pattern_block..].
Qed.

(** A block stands at a place of the text when the pattern of its shape
    matches there. *)
Lemma occurrence_block isalnum sh i n code :
  occurrence isalnum sh i n code
  ↔ (i + n ≤ length code)%nat ∧ block isalnum sh (take n (drop i code)).
Proof.
  unfold occurrence. rewrite shape_pattern_block.
  split; intros [Hlen H]; (split; [exact Hlen|]).
  - destruct H as (b & E & Hb).
    rewrite <- (take_drop n (drop i code)) in E at 1.
    rewrite drop_drop in E. apply app_inv_tail in E. rewrite E. exact Hb.
  - exists (take n (drop i code)). split; [|exact H].
    rewrite <- (take_drop n (drop i code)) at 1. rewrite drop_drop.
    reflexivity.
Qed.

Lemma block_place isalnum code sh before b after :
  code = before ++ b ++ after → block isalnum sh b →
  (sh, length before, length b) ∈ occurrences isalnum code.
Proof.
  intros -> Hb. apply occurrences_spec, occurrence_block.
  rewrite !length_app. split; [lia|].
  rewrite drop_app_length, take_app_length. exact Hb.
Qed.

Lemma place_block isalnum code sh i n :
  (sh, i, n) ∈ occurrences isalnum code →
  block isalnum sh (take n (drop i code)).
Proof. intros H%occurrences_spec%occurrence_block. apply H. Qed.

(** C9, as the code has it: when [code] holds one block of one of the
    three shapes, spelled out as above, and that is the only place in
    [code] where such a block stands, the blocks extracted are that
    block alone. *)
Theorem extract_go_patterns_single_block (isalnum : char → bool)
    (code before b after : str) (sh : shape) :
  code = before ++ b ++ after →
  block isalnum sh b →
  (∀ sh' before' b' after',
     code = before' ++ b' ++ after' → block isalnum sh' b' →
     sh' = sh ∧ before' = before ∧ b' = b) →
  extract_go_patterns isalnum code = [b].
Proof.
  intros Hcode Hb Huniq.
  rewrite (extract_go_patterns_one_occurrence isalnum code sh (length before)
             (length b)).
  - rewrite Hcode, drop_app_length, take_app_length. reflexivity.
  - apply occurrences_spec. exact (block_place _ _ _ _ _ _ Hcode Hb).
  - intros sh' i' n' [Hlen Hb']%occurrence_block.
    destruct (Huniq sh' (take i' code) (take n' (drop i' code))
                (drop (i' + n') code)) as (-> & Hi & Hn).
    + rewrite <- drop_drop, !take_drop. reflexivity.
    + exact Hb'.
    + split; [reflexivity|].
      rewrite <- Hi, <- Hn, !length_take, length_drop. lia.
Qed.

Lemma extract_go_patterns_single_block_witness :
  extract_go_patterns ascii_alnum
    (lit "package p" ++ [NL] ++ lit "func f(a int) int { return a }" ++ [NL]
     ++ lit "var v = T{}")
  = [lit "func f(a int) int { return a }"].
Proof.
  apply (extract_go_patterns_single_block ascii_alnum
           (lit "package p" ++ [NL] ++ lit "func f(a int) int { return a }"
            ++ [NL] ++ lit "var v = T{}")
           (lit "package p" ++ [NL]) (lit "func f(a int) int { return a }")
           ([NL] ++ lit "var v = T{}") FuncShape).
  - reflexivity.
  - apply (place_block ascii_alnum
             (lit "package p" ++ [NL] ++ lit "func f(a int) int { return a }"
              ++ [NL] ++ lit "var v = T{}") FuncShape 10 30).
    vm_compute. apply elem_of_cons. left. reflexivity.
  - intros sh' before' b' after' Hcode Hb.
    symmetry in Hcode.
    pose proof (block_place _ _ _ _ _ _ (eq_sym Hcode) Hb) as Hin.
    replace (occurrences ascii_alnum _) with [(FuncShape, 10%nat, 30%nat)]
      in Hin by (vm_compute; reflexivity).
    apply list_elem_of_singleton in Hin as [= -> Hi Hn].
    split; [reflexivity|].
    change (before' ++ b' ++ after'
            = (lit "package p" ++ [NL])
              ++ lit "func f(a int) int { return a }" ++ [NL]
              ++ lit "var v = T{}") in Hcode.
    apply app_inj_1 in Hcode as [-> Hcode]; [|rewrite Hi; reflexivity].
    split; [reflexivity|].
    apply app_inj_1 in Hcode as [-> _]; [reflexivity|].
    rewrite Hn. reflexivity.
Defined.

(** C9 as stated fails: a function whose result type stands against the
    opening brace is well formed and not nested, and it is not
    extracted. *)
Lemma extract_go_patterns_result_type :
  extract_go_patterns ascii_alnum (lit "func k() int{ return 1 }") = [].
Proof. vm_compute. reflexivity. Qed.

(** ** The dataset file: [json.dumps] read back by [json.loads] *)

Lemma hexval_hexdigit n : n < 16 → hexval (hexdigit n) = Some n.
Proof.
  intros Hn. unfold hexval, hexdigit. destruct (N.ltb_spec n 10).
  - rewrite (proj2 (N.leb_le 48 (48 + n))), (proj2 (N.leb_le (48 + n) 57))
      by lia.
    simpl. f_equal. lia.
  - rewrite (proj2 (N.leb_gt (87 + n) 57)) by lia.
    rewrite andb_false_r.
    rewrite (proj2 (N.leb_le 97 (87 + n))), (proj2 (N.leb_le (87 + n) 102))
      by lia.
    simpl. f_equal. lia.
Qed.

Lemma hex4_control c :
  c < 32 → hex4 48 48 (hexdigit (c / 16)) (hexdigit (c mod 16)) = Some c.
Proof.
  intros Hc. unfold hex4.
  pose proof (N.div_mod c 16 ltac:(lia)) as Hdm.
  pose proof (N.mod_upper_bound c 16 ltac:(lia)) as Hm.
  assert (Hd : c / 16 < 16) by (apply N.Div0.div_lt_upper_bound; lia).
  rewrite (hexval_hexdigit _ Hd), (hexval_hexdigit _ Hm).
  change (hexval 48) with (Some 0). cbv beta iota. f_equal. lia.
Qed.

(** The three ways [escape_char] writes a character. *)
Lemma escape_char_cases c :
  (escape_char c = [c]
   ∧ (c =? QUOTE) = false ∧ (c =? BACKSLASH) = false ∧ (c <? 32) = false)
  ∨ (∃ e, escape_char c = [BACKSLASH; e]
          ∧ unescape e = Some c ∧ (e =? 117) = false)
  ∨ (c < 32
     ∧ escape_char c
       = [BACKSLASH; 117; 48; 48; hexdigit (c / 16); hexdigit (c mod 16)]).
Proof.
  unfold escape_char.
  destruct (N.eqb_spec c QUOTE) as [->|H1];
    [right; left; eexists; repeat split; reflexivity|].
  destruct (N.eqb_spec c BACKSLASH) as [->|H2];
    [right; left; eexists; repeat split; reflexivity|].
  destruct (N.eqb_spec c 10) as [->|H3];
    [right; left; exists 110; repeat split; reflexivity|].
  destruct (N.eqb_spec c 13) as [->|H4];
    [right; left; exists 114; repeat split; reflexivity|].
  destruct (N.eqb_spec c 9) as [->|H5];
    [right; left; exists 116; repeat split; reflexivity|].
  destruct (N.eqb_spec c 12) as [->|H6];
    [right; left; exists 102; repeat split; reflexivity|].
  destruct (N.eqb_spec c 8) as [->|H7];
    [right; left; exists 98; repeat split; reflexivity|].
  destruct (N.ltb_spec c 32) as [H8|H8].
  - right; right. split; [exact H8|reflexivity].
  - left. repeat split; reflexivity.
Qed.

Lemma scan_string_plain c s :
  (c =? QUOTE) = false → (c =? BACKSLASH) = false → (c <? 32) = false →
  scan_string (c :: s) = cons_to c (scan_string s).
Proof. intros H1 H2 H3. cbn [scan_string]. rewrite H1, H2, H3. reflexivity. Qed.

Lemma scan_string_escape e x s :
  unescape e = Some x → (e =? 117) = false →
  scan_string (BACKSLASH :: e :: s) = cons_to x (scan_string s).
Proof.
  intros H1 H2. cbn [scan_string]. decide_tests. rewrite H2, H1. reflexivity.
Qed.

Lemma scan_string_control c s :
  c < 32 →
  scan_string (BACKSLASH :: 117 :: 48 :: 48 :: hexdigit (c / 16)
               :: hexdigit (c mod 16) :: s)
  = cons_to c (scan_string s).
Proof.
  intros Hc. cbn [scan_string]. decide_tests. rewrite (hex4_control c Hc).
  assert (Hs : is_high_surrogate c = false).
  { unfold is_high_surrogate. rewrite (proj2 (N.leb_gt 55296 c)) by lia.
    reflexivity. }
  rewrite Hs. cbn [andb].
  destruct s as [|? [|? [|? [|? [|? [|? ?]]]]]]; reflexivity.
Qed.

(** The scanner reads back the text of an encoded string. *)
Lemma scan_string_encoded s rest :
  scan_string (concat (map escape_char s) ++ QUOTE :: rest) = Some (s, rest).
Proof.
  induction s as [|c s IH]; [reflexivity|].
  cbn [map concat]. rewrite <- app_assoc.
  destruct (escape_char_cases c)
    as [(-> & H1 & H2 & H3)|[(e & -> & H1 & H2)|(H1 & ->)]]; cbn [app].
  - rewrite (scan_string_plain _ _ H1 H2 H3), IH. reflexivity.
  - rewrite (scan_string_escape _ _ _ H1 H2), IH. reflexivity.
  - rewrite (scan_string_control _ _ H1), IH. reflexivity.
Qed.

Lemma encode_string_app s rest :
  encode_string s ++ rest
  = QUOTE :: concat (map escape_char s) ++ QUOTE :: rest.
Proof. unfold encode_string. cbn [app]. rewrite <- app_assoc. reflexivity. Qed.

Lemma parse_value_string fuel s rest :
  parse_value (S fuel) (encode_string s ++ rest) = Some (JStr s, rest).
Proof.
  rewrite encode_string_app. cbn [parse_value]. decide_tests.
  rewrite scan_string_encoded. reflexivity.
Qed.

Lemma skip_ws_stop c s : is_json_ws c = false → skip_ws (c :: s) = c :: s.
Proof. intros H. unfold skip_ws. cbn [drop_while]. rewrite H. reflexivity. Qed.

Lemma skip_ws_indent level c s :
  is_json_ws c = false → skip_ws (newline_indent level ++ c :: s) = c :: s.
Proof.
  intros H. unfold newline_indent, skip_ws. cbn [app drop_while].
  change (is_json_ws NL) with true. cbv beta iota.
  induction (2 * level)%nat as [|n IH]; cbn [repeat app drop_while].
  - rewrite H. reflexivity.
  - change (is_json_ws 32) with true. cbv beta iota. exact IH.
Qed.







Lemma parse_items_step fuel s acc :
  parse_items (S fuel) s acc
  = match parse_value fuel s with
    | None => None
    | Some (x, rest) =>
        match skip_ws rest with
        | [] => None
        | c :: s1 =>
            if c =? 93 then Some (acc ++ [x], s1)
            else if c =? 44 then parse_items fuel (skip_ws s1) (acc ++ [x])
            else None
        end
    end.
Proof. reflexivity. Qed.




(** ** save_training_data, then load_training_data *)

Lemma utf8_encodable_ascii c : c < 128 → utf8_encodable c = true.
Proof.
  intros H. unfold utf8_encodable.
  rewrite (proj2 (N.ltb_lt c 55296)) by lia. reflexivity.
Qed.

Lemma hexdigit_encodable n : n < 16 → utf8_encodable (hexdigit n) = true.
Proof.
  intros H. apply utf8_encodable_ascii. unfold hexdigit.
  destruct (n <? 10); lia.
Qed.

Lemma unescape_encodable e c : unescape e = Some c → utf8_encodable e = true.
Proof.
  unfold unescape.
  repeat match goal with
         | |- context [N.eqb e ?x] =>
             destruct (N.eqb_spec e x) as [->|]; [reflexivity|]
         end.
  discriminate.
Qed.



Lemma newline_indent_encodable level :
  forallb utf8_encodable (newline_indent level) = true.
Proof.
  unfold newline_indent. cbn [forallb]. change (utf8_encodable NL) with true.
  cbn [andb]. induction (2 * level)%nat as [|n IH]; [reflexivity|].
  cbn [repeat forallb]. change (utf8_encodable 32) with true. exact IH.
Qed.






(** * Part III: the rest of the pipeline *)

(** ** The model at work, again *)

Example tag_sample :
  re_sub tag_pattern [] (lit "a<<b>c>d<>e<f") = lit "ac>d<>e<f".
Proof. vm_compute. reflexivity. Qed.

Example findall_group_sample :
  re_findall_group code_open code_body code_close
    (pre_open ++ pre_open ++ lit "a" ++ pre_close ++ lit "b" ++ pre_close
     ++ pre_open ++ pre_close)
  = [pre_open ++ lit "a"; []].
Proof. vm_compute. reflexivity. Qed.

Example scrape_sample :
  scrape_documentation example_docs_get = [(lit "/doc/faq", lit "Why Go?")]
  ∧ scrape_examples example_docs_get = [lit "fmt.Println(1)"].
Proof. vm_compute. split; reflexivity. Qed.

Example prepare_dataset_sample :
  (prepare_dataset (λ _, [])
     {| training_data :=
          JList [JDict [(lit "completion", JBool true); (lit "prompt", JNull)]] |}).1
  = Returned (Some [lit "Human: None" ++ [NL] ++ lit "Assistant: True<|endoftext|>"])
  ∧ (prepare_dataset (λ _, [])
       {| training_data := JList [JDict [(lit "prompt", JNull)]] |}).1
    = Raised KeyError
  ∧ (prepare_dataset (λ _, []) {| training_data := JStr (lit "ab") |}).1
    = Raised TypeError.
Proof. vm_compute. repeat split; reflexivity. Qed.

(** ** clean_go_code: what it keeps *)

Lemma re_sub_delete_sublist r s :
  (∀ s rest, matches r s rest → rest ≠ s) →
  sublist (re_sub r [] s) s.
Proof.
  intros Hne.
  apply (re_sub_ind r [] Hne (λ s out, sublist out s)); clear s.
  - constructor.
  - intros c s _ IH. apply sublist_skip, IH.
  - intros c s n _ IH. simpl app. apply sublist_cons.
    etrans; [exact IH|apply sublist_drop].
Qed.

Lemma blank_run_sublist s : sublist (re_sub blank_run [NL] s) s.
Proof.
  apply (re_sub_ind blank_run [NL] blank_run_nonempty (λ s out, sublist out s));
    clear s.
  - constructor.
  - intros c s _ IH. apply sublist_skip, IH.
  - intros c s n Hm IH. apply blank_run_match in Hm as (t & [= -> ->] & _).
    simpl app. apply sublist_skip. etrans; [exact IH|apply sublist_drop].
Qed.

Lemma strip_sublist s : sublist (strip s) s.
Proof.
  destruct (strip_infix s) as (pre & post & E). rewrite E at 2.
  apply sublist_inserts_l, sublist_inserts_r. reflexivity.
Qed.

(** X1: the cleaned code is the code with characters taken out, none
    added and none moved: it is a subsequence of the code, so never
    longer. *)
Theorem clean_go_code_sublist (code : str) :
  sublist (clean_go_code code) code
  ∧ (length (clean_go_code code) ≤ length code)%nat.
Proof.
  assert (H : sublist (clean_go_code code) code).
  { unfold clean_go_code.
    etrans; [apply strip_sublist|].
    etrans; [apply blank_run_sublist|].
    etrans; [apply re_sub_delete_sublist, block_comment_nonempty|].
    apply re_sub_delete_sublist, line_comment_nonempty. }
  split; [exact H|apply sublist_length, H].
Qed.

(** ** clean_go_code: clean code is left as it is *)

Lemma line_comment_absent s :
  has2 SLASH SLASH s = false → re_sub line_comment [] s = s.
Proof.
  apply (re_sub_ind line_comment [] line_comment_nonempty
           (λ s out, has2 SLASH SLASH s = false → out = s)); clear s.
  - reflexivity.
  - intros c s _ IH Hs. rewrite IH; [reflexivity|].
    exact (has2_false_tail _ _ _ _ Hs).
  - intros c s n Hm _ Hs. exfalso.
    apply match_len_sound in Hm as [_ Hm].
    apply line_comment_starts in Hm as [t Ht]. rewrite Ht, has2_here in Hs.
    discriminate.
Qed.

Lemma block_comment_absent s :
  has_block s = false → re_sub block_comment [] s = s.
Proof.
  apply (re_sub_ind block_comment [] block_comment_nonempty
           (λ s out, has_block s = false → out = s)); clear s.
  - reflexivity.
  - intros c s _ IH Hs. rewrite IH; [reflexivity|].
    exact (has_block_false_app_r [c] _ Hs).
  - intros c s n Hm _ Hs. exfalso.
    apply match_len_sound in Hm as [_ Hm].
    apply block_comment_starts in Hm as (t & Ht & Hclose).
    rewrite Ht, has_block_cons, Hclose, !N.eqb_refl in Hs. discriminate.
Qed.

Lemma blank_run_absent s :
  no_blank_run s = true → re_sub blank_run [NL] s = s.
Proof.
  apply (re_sub_ind blank_run [NL] blank_run_nonempty
           (λ s out, no_blank_run s = true → out = s)); clear s.
  - reflexivity.
  - intros c s _ IH Hs. rewrite IH; [reflexivity|].
    exact (no_blank_run_app_r [c] _ Hs).
  - intros c s n Hm _ Hs. exfalso.
    apply match_len_sound in Hm as [_ Hm].
    revert Hm. cbv [blank_run pat foldr one many]. intros Hm.
    invert_matches.
    repeat match goal with H : N.eqb NL _ = true |- _ =>
      apply N.eqb_eq in H; subst end.
    match goal with H : matches (Star _ _) _ _ |- _ =>
      apply matches_star_inv in H as (ws & E & Hws) end.
    cbn [no_blank_run] in Hs. rewrite N.eqb_refl in Hs.
    apply andb_true_iff in Hs as [Hq _].
    rewrite E, (quiet_blank_run _ _ Hws) in Hq. discriminate.
Qed.

Lemma drop_while_fixed p s :
  (∀ c u, s = c :: u → p c = false) → drop_while p s = s.
Proof.
  destruct s as [|c u]; [reflexivity|]. intros H. simpl.
  rewrite (H c u eq_refl). reflexivity.
Qed.

Lemma strip_fixed s :
  (∀ c u, s = c :: u → isspace c = false) →
  (∀ u c, s = u ++ [c] → isspace c = false) →
  strip s = s.
Proof.
  intros Hhead Hlast. unfold strip, lstrip, rstrip.
  rewrite (drop_while_fixed isspace s Hhead).
  rewrite drop_while_fixed; [apply rev_involutive|].
  intros c u E. apply (Hlast (rev u) c).
  apply (f_equal (@rev char)) in E. rewrite rev_involutive in E.
  rewrite E. reflexivity.
Qed.

Lemma strip_strip s : strip (strip s) = strip s.
Proof.
  apply strip_fixed; [intros c u; apply strip_head|intros u c; apply strip_last].
Qed.

(** X2: cleaning cleaned code changes nothing. *)
Theorem clean_go_code_idempotent (code : str) :
  clean_go_code (clean_go_code code) = clean_go_code code.
Proof.
  destruct (clean_go_code_markers code) as (H1 & H2 & H3).
  unfold clean_go_code at 1.
  rewrite (line_comment_absent _ H1), (block_comment_absent _ H2),
    (blank_run_absent _ H3).
  unfold clean_go_code. apply strip_strip.
Qed.

(** ** re.findall, match by match *)

Section FindallFacts.
Variable r : regex.
Hypothesis nonempty : ∀ s rest, matches r s rest → rest ≠ s.

Lemma re_findall_cons c s :
  (match_len r (c :: s) = None ∧ re_findall r (c :: s) = re_findall r s)
  ∨ (∃ n, match_len r (c :: s) = Some (S n)
          ∧ re_findall r (c :: s)
            = take (S n) (c :: s) :: re_findall r (drop n s)).
Proof.
  destruct (match_len r (c :: s)) as [[|n]|] eqn:E.
  - destruct (match_len_positive r nonempty _ _ E eq_refl).
  - right. exists n. split; [reflexivity|].
    rewrite (re_findall_match _ _ _ E). reflexivity.
  - left. split; [reflexivity|]. apply re_findall_no_match. left. exact E.
Qed.

(** Every text found is a match of the pattern somewhere in the
    string. *)
Lemma re_findall_elem s : ∀ x,
  x ∈ re_findall r s →
  ∃ i n, (i + n ≤ length s)%nat
         ∧ matches r (drop i s) (drop (i + n) s)
         ∧ x = take n (drop i s).
Proof.
  remember (length s) as m eqn:Hm. revert s Hm.
  induction m as [m IH] using lt_wf_ind. intros s -> x Hx.
  destruct s as [|c s]; [by apply elem_of_nil in Hx|].
  destruct (re_findall_cons c s) as [[_ E]|(n & Hn & E)]; rewrite E in Hx.
  - assert (Hlt : (length s < length (c :: s))%nat) by (simpl; lia).
    destruct (IH _ Hlt s eq_refl x Hx) as (i & n & Hlen & Hmatch & ->).
    exists (S i), n. split; [simpl; lia|]. split; [exact Hmatch|reflexivity].
  - apply elem_of_cons in Hx as [->|Hx].
    + apply match_len_sound in Hn as [Hlen Hmatch].
      exists 0%nat, (S n). split; [exact Hlen|]. split; [exact Hmatch|reflexivity].
    + assert (Hlt : (length (drop n s) < length (c :: s))%nat)
        by (rewrite length_drop; simpl; lia).
      destruct (IH _ Hlt _ eq_refl x Hx) as (i & k & Hlen & Hmatch & ->).
      rewrite length_drop in Hlen. rewrite !drop_drop in Hmatch.
      apply match_len_sound in Hn as [Hn _]. simpl in Hn.
      exists (S (n + i)), k. split; [simpl; lia|].
      split.
      * simpl. replace (n + i + k)%nat with (n + (i + k))%nat by lia.
        exact Hmatch.
      * rewrite drop_drop. reflexivity.
Qed.

(** Nothing is found only where the pattern matches nowhere. *)
Lemma re_findall_nil s :
  re_findall r s = [] →
  ∀ i n, (i + n ≤ length s)%nat → ¬ matches r (drop i s) (drop (i + n) s).
Proof.
  induction s as [|c s IH]; intros Hnil i n Hlen Hm.
  - simpl in Hlen. assert (i = 0%nat ∧ n = 0%nat) as [-> ->] by lia.
    exact (nonempty _ _ Hm eq_refl).
  - destruct (re_findall_cons c s) as [[Hnone E]|(k & _ & E)];
      rewrite E in Hnil; [|discriminate].
    destruct i as [|i].
    + rewrite drop_0 in Hm.
      exact (proj1 (match_len_none _ _) Hnone _ Hm).
    + apply (IH Hnil i n); [simpl in Hlen; lia|exact Hm].
Qed.
End FindallFacts.

(** ** extract_go_patterns, on any code *)

Lemma extract_go_patterns_shapes isalnum code x :
  x ∈ extract_go_patterns isalnum code ↔
  ∃ sh, x ∈ re_findall (shape_pattern isalnum sh) code.
Proof.
  unfold extract_go_patterns. cbn [app]. rewrite !elem_of_app. split.
  - intros [[H|H]|H];
      [exists FuncShape|exists InterfaceShape|exists StructShape]; exact H.
  - intros [[] H]; simpl in H; tauto.
Qed.

(** X4: each text extracted is a block of one of the three shapes that
    stands in the code. *)
Theorem extract_go_patterns_sound (isalnum : char → bool) (code x : str) :
  x ∈ extract_go_patterns isalnum code →
  ∃ sh i n, occurrence isalnum sh i n code ∧ x = take n (drop i code).
Proof.
  intros [sh H]%extract_go_patterns_shapes.
  apply re_findall_elem in H as (i & n & Hlen & Hm & ->);
    [|apply shape_pattern_nonempty].
  exists sh, i, n. split; [split; assumption|reflexivity].
Qed.

Lemma extract_go_patterns_sound_witness :
  ∃ sh i n,
    occurrence ascii_alnum sh i n
      (lit "package p" ++ [NL] ++ lit "func f() { if x { y } }")
    ∧ lit "func f() { if x { y }"
      = take n (drop i (lit "package p" ++ [NL] ++ lit "func f() { if x { y } }")).
Proof.
  apply (extract_go_patterns_sound ascii_alnum
           (lit "package p" ++ [NL] ++ lit "func f() { if x { y } }")
           (lit "func f() { if x { y }")).
  vm_compute. apply elem_of_cons. left. reflexivity.
Defined.

(** X5: nothing is extracted exactly when no block of any of the three
    shapes stands anywhere in the code. *)
Theorem extract_go_patterns_nil (isalnum : char → bool) (code : str) :
  extract_go_patterns isalnum code = [] ↔
  ∀ sh i n, ¬ occurrence isalnum sh i n code.
Proof.
  split.
  - intros Hnil sh i n [Hlen Hm].
    assert (H : re_findall (shape_pattern isalnum sh) code = []).
    { destruct (re_findall (shape_pattern isalnum sh) code) as [|x l] eqn:E;
        [reflexivity|].
      assert (Hx : x ∈ extract_go_patterns isalnum code).
      { apply extract_go_patterns_shapes. exists sh. rewrite E.
        apply elem_of_cons. left. reflexivity. }
      rewrite Hnil in Hx. by apply elem_of_nil in Hx. }
    exact (re_findall_nil _ (shape_pattern_nonempty isalnum sh) _ H i n Hlen Hm).
  - intros Hno. unfold extract_go_patterns.
    change (func_pattern isalnum) with (shape_pattern isalnum FuncShape).
    change (interface_pattern isalnum)
      with (shape_pattern isalnum InterfaceShape).
    change (struct_pattern isalnum) with (shape_pattern isalnum StructShape).
    rewrite !re_findall_nowhere; [reflexivity|..];
      intros j m Hjm Hm; eapply Hno; split; eassumption.
Qed.

(** ** The closing brace of a block *)

Lemma sequential_seq r1 : sequential (Seq r1).
Proof.
  intros r s rest H. inversion H as [| |? ? ? s1 ? H1 H2| | | | | |]; subst.
  exists s1. split; [exact H2|]. exact (matches_suffix _ _ _ H1).
Qed.

Lemma sequential_word w : sequential (word w).
Proof.
  induction w as [|a w IH]; intros r s rest H; simpl in H.
  - exists s. split; [exact H|]. exists []. reflexivity.
  - apply sequential_seq in H as (mid & H & pre & ->).
    apply IH in H as (mid' & H & pre' & ->).
    exists mid'. split; [exact H|]. exists (pre ++ pre').
    rewrite app_assoc. reflexivity.
Qed.

Lemma sequential_plus p : sequential (plus p).
Proof.
  intros r s rest H. unfold plus, one, many in H.
  apply sequential_seq in H as (mid & H & pre & ->).
  apply sequential_seq in H as (mid' & H & pre' & ->).
  exists mid'. split; [exact H|]. exists (pre ++ pre').
  rewrite app_assoc. reflexivity.
Qed.

Lemma sequential_pieces pieces r0 s rest :
  Forall sequential pieces →
  matches (foldr (λ piece r, piece r) r0 pieces) s rest →
  ∃ mid, matches r0 mid rest ∧ ∃ pre, s = pre ++ mid.
Proof.
  intros Hall. revert s. induction Hall as [|piece pieces Hp _ IH]; intros s H.
  - exists s. split; [exact H|]. exists []. reflexivity.
  - simpl in H. apply Hp in H as (mid & H & pre & ->).
    apply IH in H as (mid' & H & pre' & ->).
    exists mid'. split; [exact H|]. exists (pre ++ pre').
    rewrite app_assoc. reflexivity.
Qed.

Lemma matches_braces s rest :
  matches braces s rest →
  ∃ body, s = 123 :: body ++ 125 :: rest ∧ 125 ∉ body.
Proof.
  cbv [braces pat foldr one many]. intros H. invert_matches.
  repeat match goal with H : ch _ _ = true |- _ => apply ch_eq in H; subst end.
  match goal with H : matches (Star _ _) _ _ |- _ =>
    apply matches_star_inv in H as (body & -> & Hbody) end.
  exists body. split; [reflexivity|].
  intros Hin. apply list_elem_of_In in Hin.
  apply (proj1 (forallb_forall _ _) Hbody) in Hin. discriminate Hin.
Qed.

Lemma shape_pattern_braces isalnum sh s rest :
  matches (shape_pattern isalnum sh) s rest →
  ∃ head body, s = head ++ 123 :: body ++ 125 :: rest ∧ 125 ∉ body.
Proof.
  intros H.
  assert (Hb : ∃ mid, matches braces mid rest ∧ ∃ pre, s = pre ++ mid).
  { destruct sh.
    - apply (sequential_pieces
               [word "func"; plus isspace; plus (isword isalnum); many isspace;
                one (ch "("); many (no ")"); one (ch ")"); many isspace;
                opt [plus (isword isalnum); plus isspace]]);
        [|exact H].
      repeat constructor;
        first [apply sequential_word | apply sequential_plus
              | apply sequential_seq].
    - apply (sequential_pieces
               [word "type"; plus isspace; plus (isword isalnum); plus isspace;
                word "interface"; many isspace]);
        [|exact H].
      repeat constructor;
        first [apply sequential_word | apply sequential_plus
              | apply sequential_seq].
    - apply (sequential_pieces
               [word "type"; plus isspace; plus (isword isalnum); plus isspace;
                word "struct"; many isspace]);
        [|exact H].
      repeat constructor;
        first [apply sequential_word | apply sequential_plus
              | apply sequential_seq]. }
  destruct Hb as (mid & Hm & pre & ->).
  apply matches_braces in Hm as (body & -> & Hbody).
  exists pre, body. split; [reflexivity|exact Hbody].
Qed.

(** X6: each text extracted ends at the first closing brace after its
    opening brace; a body that holds a nested block is cut there. *)
Theorem extract_go_patterns_first_brace (isalnum : char → bool) (code x : str) :
  x ∈ extract_go_patterns isalnum code →
  ∃ head body, x = head ++ lit "{" ++ body ++ lit "}" ∧ 125 ∉ body.
Proof.
  intros [sh H]%extract_go_patterns_shapes.
  apply re_findall_elem in H as (i & n & Hlen & Hm & ->);
    [|apply shape_pattern_nonempty].
  apply shape_pattern_braces in Hm as (head & body & E & Hbody).
  exists head, body. split; [|exact Hbody].
  assert (Hn : n = length (head ++ 123 :: body ++ [125])).
  { apply (f_equal length) in E. rewrite !length_app in E. simpl in E.
    rewrite length_app in E. simpl in E.
    rewrite !length_drop in E. rewrite length_app. simpl. rewrite length_app.
    simpl. lia. }
  remember (drop (i + n) code) as rest eqn:Hrest. clear Hrest.
  rewrite E, Hn.
  replace (head ++ 123 :: body ++ 125 :: rest)
    with ((head ++ 123 :: body ++ [125]) ++ rest).
  - rewrite take_app_length. reflexivity.
  - rewrite <- !app_assoc. simpl. rewrite <- app_assoc. reflexivity.
Qed.

Lemma extract_go_patterns_first_brace_witness :
  ∃ head body,
    lit "func f() { if x { y }" = head ++ lit "{" ++ body ++ lit "}"
    ∧ 125 ∉ body.
Proof.
  apply (extract_go_patterns_first_brace ascii_alnum
           (lit "package p" ++ [NL] ++ lit "func f() { if x { y } }")
           (lit "func f() { if x { y }")).
  vm_compute. apply elem_of_cons. left. reflexivity.
Defined.

(** ** extract_go_patterns: the order of the blocks *)

Section FindallOrder.
Variable r : regex.
Hypothesis nonempty : ∀ s rest, matches r s rest → rest ≠ s.

Lemma apart_weaken from from' places :
  (from' ≤ from)%nat → apart from places → apart from' places.
Proof.
  destruct places as [|[i n] places]; [done|]. simpl. intros ? (? & ? & ?).
  split; [lia|done].
Qed.

Lemma apart_shift k places : ∀ from,
  apart from places →
  apart (k + from) (map (λ p, ((k + p.1)%nat, p.2)) places).
Proof.
  induction places as [|[i n] places IH]; intros from; [done|].
  cbn [apart map fst snd]. intros (Hi & Hn & H).
  split; [lia|]. split; [exact Hn|].
  replace (k + i + n)%nat with (k + (i + n))%nat by lia. apply IH, H.
Qed.

(** The texts found are the texts at places of the string that stand
    apart, in their order, each a match of the pattern. *)
Lemma re_findall_places s :
  ∃ places,
    re_findall r s = map (text_at s) places
    ∧ apart 0 places
    ∧ Forall (λ p, (p.1 + p.2 ≤ length s)%nat
                   ∧ matches r (drop p.1 s) (drop (p.1 + p.2) s)) places.
Proof.
  remember (length s) as m eqn:Hm. revert s Hm.
  induction m as [m IH] using lt_wf_ind. intros s ->.
  destruct s as [|c s]; [exists []; done|].
  destruct (re_findall_cons r nonempty c s) as [[_ E]|(n & Hn & E)]; rewrite E.
  - assert (Hlt : (length s < length (c :: s))%nat) by (simpl; lia).
    destruct (IH _ Hlt s eq_refl) as (places & -> & Hap & Hall).
    exists (map (λ p, ((1 + p.1)%nat, p.2)) places). split; [|split].
    + rewrite map_map. reflexivity.
    + eapply apart_weaken; [|apply (apart_shift 1 places 0 Hap)]. lia.
    + apply Forall_map. eapply Forall_impl; [exact Hall|].
      intros [i k] [Hlen Hmatch]. cbn [fst snd] in *. split; [simpl; lia|].
      exact Hmatch.
  - pose proof (match_len_sound _ _ _ Hn) as [Hlen Hmatch]. simpl in Hlen.
    assert (Hlt : (length (drop n s) < length (c :: s))%nat)
      by (rewrite length_drop; simpl; lia).
    destruct (IH _ Hlt _ eq_refl) as (places & -> & Hap & Hall).
    exists ((0%nat, S n) :: map (λ p, ((S n + p.1)%nat, p.2)) places).
    split; [|split].
    + cbn [map]. f_equal. rewrite map_map. apply map_ext. intros [i k].
      unfold text_at. cbn [fst snd]. rewrite drop_drop. reflexivity.
    + cbn [apart]. split; [lia|]. split; [lia|].
      replace (0 + S n)%nat with (S n + 0)%nat by lia.
      apply (apart_shift (S n) places 0 Hap).
    + constructor; [split; [simpl; lia|exact Hmatch]|].
      apply Forall_map. eapply Forall_impl; [exact Hall|].
      intros [i k] [Hlen' Hmatch']. cbn [fst snd] in *.
      rewrite length_drop in Hlen'. rewrite !drop_drop in Hmatch'.
      split; [simpl; lia|].
      replace (S n + i + k)%nat with (S (n + (i + k))) by lia. exact Hmatch'.
Qed.
End FindallOrder.

(** X30: the texts extracted are the functions, then the interfaces,
    then the structs; those of one kind are blocks of the code that stand
    apart, none overlapping another, in the order they stand in the
    code. *)
Theorem extract_go_patterns_in_order (isalnum : char → bool) (code : str) :
  ∃ funcs interfaces structs,
    extract_go_patterns isalnum code
    = map (text_at code) funcs ++ map (text_at code) interfaces
      ++ map (text_at code) structs
    ∧ apart 0 funcs ∧ apart 0 interfaces ∧ apart 0 structs
    ∧ Forall (λ p, occurrence isalnum FuncShape p.1 p.2 code) funcs
    ∧ Forall (λ p, occurrence isalnum InterfaceShape p.1 p.2 code) interfaces
    ∧ Forall (λ p, occurrence isalnum StructShape p.1 p.2 code) structs.
Proof.
  destruct (re_findall_places _ (shape_pattern_nonempty isalnum FuncShape) code)
    as (funcs & Ef & Hf & Hof).
  destruct (re_findall_places _ (shape_pattern_nonempty isalnum InterfaceShape)
              code) as (interfaces & Ei & Hi & Hoi).
  destruct (re_findall_places _ (shape_pattern_nonempty isalnum StructShape)
              code) as (structs & Es & Hs & Hos).
  exists funcs, interfaces, structs. unfold extract_go_patterns.
  change (func_pattern isalnum) with (shape_pattern isalnum FuncShape).
  change (interface_pattern isalnum)
    with (shape_pattern isalnum InterfaceShape).
  change (struct_pattern isalnum) with (shape_pattern isalnum StructShape).
  rewrite Ef, Ei, Es. cbn [app]. rewrite <- app_assoc.
  repeat split; assumption.
Qed.

(** ** get_top_go_repos: a short result *)

(** X7: the call returns as many repositories as the limit asks for
    (none for a limit below zero), unless a request failed, and then what
    the pages before that request delivered. *)
Theorem get_top_go_repos_short_result {Repo}
    (session_get : nat → response (option (list Repo))) (limit : Z)
    (fuel : nat) (repos : list Repo) :
  get_top_go_repos session_get limit fuel = Some (Returned repos) →
  length repos = Z.to_nat limit
  ∨ ∃ n, all_fetched session_get 1 n
         ∧ session_get (1 + n)%nat = RequestException
         ∧ repos = delivered session_get 1 n.
Proof.
  intros H. unfold get_top_go_repos in H.
  destruct (fetch_loop session_get limit fuel [] 1) as [[all|e]|] eqn:Hloop;
    [|discriminate..].
  injection H as <-.
  apply fetch_loop_exit in Hloop as (n & Hall & Hlow & Hout).
  simpl in Hlow, Hout.
  destruct Hout as [[[= ->] Hle]|[([= ->] & Hlt & Hfail)|[[=] _]]].
  - left. destruct (Z.le_gt_cases 0 limit) as [Hpos|Hneg].
    + rewrite slice_to_nonneg by exact Hpos. rewrite length_take. lia.
    + destruct n as [|n].
      * simpl. rewrite slice_to_nil. simpl. lia.
      * specialize (Hlow 0%nat ltac:(lia)). simpl in Hlow. lia.
  - right. exists n. split; [exact Hall|]. split; [exact Hfail|].
    rewrite slice_to_nonneg by lia. apply take_ge. lia.
Qed.

Lemma get_top_go_repos_short_result_witness :
  get_top_go_repos
    (λ page : nat, if (page <=? 2)%nat then Body (Some [Z.of_nat (10 - page)])
                   else RequestException) 5 3
  = Some (Returned [9%Z; 8%Z])
  ∧ (length [9%Z; 8%Z] = Z.to_nat 5
     ∨ ∃ n, all_fetched
              (λ page : nat, if (page <=? 2)%nat
                             then Body (Some [Z.of_nat (10 - page)])
                             else RequestException) 1 n
            ∧ (λ page : nat, if (page <=? 2)%nat
                             then Body (Some [Z.of_nat (10 - page)])
                             else RequestException) (1 + n)%nat
              = RequestException
            ∧ [9%Z; 8%Z]
              = delivered
                  (λ page : nat, if (page <=? 2)%nat
                                 then Body (Some [Z.of_nat (10 - page)])
                                 else RequestException) 1 n).
Proof.
  split; [reflexivity|].
  apply (get_top_go_repos_short_result
           (λ page : nat, if (page <=? 2)%nat
                          then Body (Some [Z.of_nat (10 - page)])
                          else RequestException) 5 3).
  reflexivity.
Defined.

(** ** clean_go_code, then create_training_pairs *)

(** X3: cleaned code that is not empty passes the guard of
    [create_training_pairs]: it gives the four pairs under a label, and
    the three without the generation pair under the empty label. *)
Theorem clean_go_code_then_pairs (code context : str) :
  clean_go_code code ≠ [] →
  create_training_pairs (clean_go_code code) context
  = if truthy context
    then [explanation_pair (clean_go_code code) context;
          generation_pair (clean_go_code code) context;
          debugging_pair (clean_go_code code);
          improvement_pair (clean_go_code code)]
    else [explanation_pair (clean_go_code code) context;
          debugging_pair (clean_go_code code);
          improvement_pair (clean_go_code code)].
Proof.
  intros Hne. unfold create_training_pairs. rewrite truthy_strip.
  assert (Hb : forallb isspace (clean_go_code code) = false).
  { destruct (clean_go_code code) as [|c u] eqn:E; [done|].
    unfold clean_go_code in E. apply strip_head in E. simpl. rewrite E.
    reflexivity. }
  rewrite Hb. cbn [negb]. destruct (truthy context); reflexivity.
Qed.

Lemma clean_go_code_then_pairs_witness :
  clean_go_code (lit "x := 1 // one" ++ [NL]) = lit "x := 1"
  ∧ length (create_training_pairs (clean_go_code (lit "x := 1 // one" ++ [NL]))
              (lit "from acme/widget")) = 4%nat.
Proof.
  split; [vm_compute; reflexivity|].
  rewrite (clean_go_code_then_pairs (lit "x := 1 // one" ++ [NL])
             (lit "from acme/widget")); [reflexivity|].
  vm_compute. discriminate.
Defined.

(** ** get_top_go_repos: no limit to reach *)

(** X8: for a limit of zero or less the call returns the empty list
    whatever the endpoint would answer, and within any number of
    requests, none included. *)
Theorem get_top_go_repos_no_request {Repo}
    (session_get : nat → response (option (list Repo))) (limit : Z)
    (fuel : nat) :
  (limit ≤ 0)%Z → get_top_go_repos session_get limit fuel = Some (Returned []).
Proof.
  intros H. unfold get_top_go_repos.
  assert (Hloop : fetch_loop session_get limit fuel [] 1 = Some (Returned [])).
  { destruct fuel as [|fuel]; cbn [fetch_loop length];
      destruct (Z.ltb_spec (Z.of_nat 0) limit); try reflexivity; lia. }
  rewrite Hloop, slice_to_nil. reflexivity.
Qed.

Lemma get_top_go_repos_no_request_witness :
  get_top_go_repos example_search_get (-3) 0 = Some (Returned []).
Proof. apply get_top_go_repos_no_request. lia. Defined.

(** ** The text of a number *)

Lemma string_of_uint_digits u :
  Forall (λ c, 48 ≤ c ≤ 57) (lit (NilEmpty.string_of_uint u)).
Proof. induction u; simpl; constructor; (lia || assumption). Qed.

Lemma digits_of_digits n : Forall (λ c, 48 ≤ c ≤ 57) (digits_of n).
Proof.
  unfold digits_of, NilZero.string_of_uint.
  destruct (N.to_uint _); try apply string_of_uint_digits.
  simpl. constructor; [lia|constructor].
Qed.

Lemma digits_of_length n : (1 ≤ length (digits_of n))%nat.
Proof.
  unfold digits_of, NilZero.string_of_uint.
  destruct (N.to_uint _); simpl; lia.
Qed.

Lemma Forall_repeat {A} (P : A → Prop) x n : P x → Forall P (repeat x n).
Proof. intros H. induction n; simpl; constructor; assumption. Qed.

Lemma Forall_drop_zeros (P : char → Prop) s :
  Forall P s → Forall P (drop_zeros s).
Proof.
  induction 1 as [|c s Hc Hs IH]; simpl; [constructor|].
  destruct (c =? 48); [exact IH|constructor; assumption].
Qed.

Lemma digits_ascii s : Forall (λ c, 48 ≤ c ≤ 57) s → Forall (λ c, c < 128) s.
Proof.
  intros H. eapply Forall_impl; [exact H|]. intros c Hc. simpl in Hc. lia.
Qed.

Lemma forallb_ascii s :
  forallb (λ c, c <? 128) s = true → Forall (λ c, c < 128) s.
Proof.
  intros H. apply Forall_forall. intros c Hc.
  apply N.ltb_lt. apply list_elem_of_In in Hc.
  exact (proj1 (forallb_forall _ _) H c Hc).
Qed.


Lemma int_repr_ascii n : Forall (λ c, c < 128) (int_repr n).
Proof.
  unfold int_repr. destruct (n <? 0)%Z.
  - apply Forall_app. split; [apply forallb_ascii; reflexivity|].
    apply digits_ascii, digits_of_digits.
  - apply digits_ascii, digits_of_digits.
Qed.

Lemma exponent_text_ascii x : Forall (λ c, c < 128) (exponent_text x).
Proof.
  unfold exponent_text. split_text.
  - destruct (x <? 0)%Z; apply forallb_ascii; reflexivity.
  - destruct (Z.abs x <? 10)%Z; [apply forallb_ascii; reflexivity|constructor].
  - apply digits_ascii, digits_of_digits.
Qed.

Lemma float_repr_ascii x : Forall (λ c, c < 128) (float_repr x).
Proof.
  destruct x as [|negative|negative m e].
  - apply forallb_ascii; reflexivity.
  - destruct negative; apply forallb_ascii; reflexivity.
  - unfold float_repr. apply Forall_app. split.
    { destruct negative; [apply forallb_ascii; reflexivity|constructor]. }
    destruct (m =? 0)%Z; [apply forallb_ascii; reflexivity|].
    destruct (shortest_digits m e) as [c p].
    assert (Hd : Forall (λ c, c < 128) (rev (drop_zeros (rev (digits_of c))))).
    { apply List.Forall_rev, Forall_drop_zeros, List.Forall_rev, digits_ascii,
        digits_of_digits. }
    cbv zeta. set (digits := rev (drop_zeros (rev (digits_of c)))) in *.
    clearbody digits.
    repeat case_match; split_text;
      lazymatch goal with
      | |- Forall _ (take _ _) => apply Forall_take, Hd
      | |- Forall _ (drop _ _) => apply Forall_drop, Hd
      | |- Forall _ (repeat _ _) => apply Forall_repeat; lia
      | |- Forall _ (exponent_text _) => apply exponent_text_ascii
      | |- Forall _ [] => constructor
      | |- Forall _ (lit _) => apply forallb_ascii; reflexivity
      | |- _ => exact Hd
      end.
Qed.

Lemma floatstr_ascii x : Forall (λ c, c < 128) (floatstr x).
Proof.
  destruct x as [|negative|negative m e].
  - apply forallb_ascii; reflexivity.
  - destruct negative; apply forallb_ascii; reflexivity.
  - apply float_repr_ascii.
Qed.

Lemma ascii_encodable s :
  Forall (λ c, c < 128) s → forallb utf8_encodable s = true.
Proof.
  intros H. apply forallb_forall. intros c Hc.
  apply utf8_encodable_ascii. rewrite Forall_forall in H.
  apply H, list_elem_of_In, Hc.
Qed.

Lemma int_repr_length n : (1 ≤ length (int_repr n))%nat.
Proof.
  unfold int_repr. pose proof (digits_of_length n).
  pose proof (digits_of_length (- n)).
  destruct (n <? 0)%Z; rewrite ?length_app; lia.
Qed.

Lemma floatstr_length x : (1 ≤ length (floatstr x))%nat.
Proof.
  destruct x as [|negative|negative m e].
  - simpl. lia.
  - destruct negative; simpl; lia.
  - unfold floatstr, float_repr. rewrite length_app.
    destruct (m =? 0)%Z; [simpl; lia|].
    destruct (shortest_digits m e) as [c p]. cbv zeta.
    set (digits := rev (drop_zeros (rev (digits_of c)))). clearbody digits.
    set (decpt := (Z.of_nat (length (digits_of c)) + p)%Z). clearbody decpt.
    repeat case_match; rewrite ?length_app; cbn [lit length]; lia.
Qed.

(** ** Induction on the values *)

Lemma json_ind (P : json → Prop) :
  P JNull → (∀ b, P (JBool b)) → (∀ n, P (JInt n)) → (∀ x, P (JFloat x)) →
  (∀ s, P (JStr s)) →
  (∀ items, Forall P items → P (JList items)) →
  (∀ members, Forall (λ m, P m.2) members → P (JDict members)) →
  ∀ v, P v.
Proof.
  intros Hnull Hbool Hint Hfloat Hstr Hlist Hdict.
  fix IH 1. intros [|b|n|x|s|items|members].
  - exact Hnull.
  - apply Hbool.
  - apply Hint.
  - apply Hfloat.
  - apply Hstr.
  - apply Hlist. induction items as [|x items IHitems]; constructor.
    + apply IH.
    + exact IHitems.
  - apply Hdict. induction members as [|[k x] members IHmembers]; constructor.
    + apply IH.
    + exact IHmembers.
Qed.

(** ** [json.dumps] read back by [json.loads], on any value *)

Lemma parse_value_null fuel rest :
  parse_value (S fuel) (lit "null" ++ rest) = Some (JNull, rest).
Proof. reflexivity. Qed.

Lemma parse_value_bool fuel (b : bool) rest :
  parse_value (S fuel) ((if b then lit "true" else lit "false") ++ rest)
  = Some (JBool b, rest).
Proof. destruct b; reflexivity. Qed.

Lemma parse_value_empty_list fuel rest :
  parse_value (S fuel) (lit "[]" ++ rest) = Some (JList [], rest).
Proof. reflexivity. Qed.

Lemma parse_value_empty_dict fuel rest :
  parse_value (S fuel) (lit "{}" ++ rest) = Some (JDict [], rest).
Proof. reflexivity. Qed.

Lemma opens_app s rest : opens s → opens (s ++ rest).
Proof. intros (c & t & -> & H). exists c, (t ++ rest). done. Qed.

Lemma dumps_opens level v : without_numbers v = true → opens (dumps level v).
Proof.
  destruct v as [|[]|n|x|s|[|x items]|[|m members]]; intros Hnum;
    try discriminate Hnum;
    eexists _, _; (split; [reflexivity|done]).
Qed.

Lemma join_opens sep (parts : list str) p :
  opens p → opens (join sep (p :: parts)).
Proof.
  intros H. cbn [join]. destruct parts; [exact H|]. apply opens_app, H.
Qed.

Lemma skip_ws_opens s : opens s → skip_ws s = s.
Proof. intros (c & t & -> & H & _). apply skip_ws_stop, H. Qed.

Lemma skip_ws_indent_opens level s : opens s → skip_ws (newline_indent level ++ s) = s.
Proof. intros (c & t & -> & H & _). apply skip_ws_indent, H. Qed.

Lemma parse_value_list fuel level s items rest :
  opens s → parse_items fuel s [] = Some (items, rest) →
  parse_value (S fuel) (91 :: newline_indent level ++ s)
  = Some (JList items, rest).
Proof.
  intros (c & t & -> & Hws & H93 & _) Hp. cbn [parse_value]. decide_tests.
  rewrite skip_ws_indent by exact Hws. rewrite H93, Hp. reflexivity.
Qed.

Lemma parse_value_dict fuel level s members rest :
  opens s → parse_members fuel s [] = Some (members, rest) →
  parse_value (S fuel) (123 :: newline_indent level ++ s)
  = Some (JDict members, rest).
Proof.
  intros (c & t & -> & Hws & _ & H125) Hp. cbn [parse_value]. decide_tests.
  rewrite skip_ws_indent by exact Hws. rewrite H125, Hp. reflexivity.
Qed.

Lemma parse_members_key fuel k s acc :
  parse_members (S fuel) (encode_string k ++ lit ": " ++ s) acc
  = match parse_value fuel (skip_ws s) with
    | None => None
    | Some (x, s4) =>
        match skip_ws s4 with
        | [] => None
        | c :: s5 =>
            if c =? 125 then Some (dict_set k x acc, s5)
            else if c =? 44 then
              parse_members fuel (skip_ws s5) (dict_set k x acc)
            else None
        end
    end.
Proof.
  rewrite (encode_string_app k). cbn [parse_members]. decide_tests.
  rewrite scan_string_encoded.
  change (lit ": " ++ s) with (58 :: 32 :: s).
  rewrite (skip_ws_stop 58) by reflexivity. decide_tests.
  change (skip_ws (32 :: s)) with (skip_ws s). reflexivity.
Qed.

Lemma dict_set_fresh k x acc :
  k ∉ map fst acc → dict_set k x acc = acc ++ [(k, x)].
Proof.
  induction acc as [|[k' x'] acc IH]; intros Hk; [reflexivity|].
  cbn [dict_set]. cbn [map fst] in Hk. rewrite not_elem_of_cons in Hk.
  destruct Hk as [Hne Hk].
  rewrite bool_decide_eq_false_2 by exact Hne. rewrite (IH Hk). reflexivity.
Qed.

Lemma parse_items_dumps level items :
  Forall reads_back items → forallb distinct_keys items = true →
  forallb without_numbers items = true → items ≠ [] →
  ∀ fuel acc rest,
    (list_sum (map (λ x, S (weight x)) items) ≤ fuel)%nat →
    parse_items fuel
      (join (lit "," ++ newline_indent (S level)) (map (dumps (S level)) items)
       ++ newline_indent level ++ 93 :: rest) acc
    = Some (acc ++ items, rest).
Proof.
  induction 1 as [|x items Hx _ IH]; intros Hwf Hnum Hne fuel acc rest Hfuel;
    [done|].
  cbn [forallb] in Hwf. apply andb_true_iff in Hwf as [Hwx Hwf].
  cbn [forallb] in Hnum. apply andb_true_iff in Hnum as [Hnx Hnum].
  cbn [map list_sum] in Hfuel. destruct fuel as [|fuel]; [simpl in Hfuel; lia|].
  rewrite parse_items_step. destruct items as [|y items].
  - cbn [map join]. rewrite (Hx Hwx Hnx) by (simpl in Hfuel; lia).
    rewrite (skip_ws_indent level 93) by reflexivity. decide_tests. reflexivity.
  - change (join (lit "," ++ newline_indent (S level))
              (map (dumps (S level)) (x :: y :: items)))
      with (dumps (S level) x
            ++ (44 :: newline_indent (S level))
            ++ join (lit "," ++ newline_indent (S level))
                    (map (dumps (S level)) (y :: items))).
    rewrite <- !app_assoc. rewrite (Hx Hwx Hnx) by (simpl in Hfuel; lia).
    cbn [app]. rewrite (skip_ws_stop 44) by reflexivity. decide_tests.
    rewrite skip_ws_indent_opens.
    2: { apply opens_app, join_opens, dumps_opens.
         cbn [forallb] in Hnum. apply andb_true_iff in Hnum as [Hny _].
         exact Hny. }
    rewrite IH; [|exact Hwf|exact Hnum|discriminate|simpl in *; lia].
    rewrite <- app_assoc. reflexivity.
Qed.

Lemma parse_members_dumps level members :
  Forall (λ m, reads_back m.2) members →
  forallb (λ m, distinct_keys m.2) members = true →
  forallb (λ m, without_numbers m.2) members = true → members ≠ [] →
  ∀ fuel acc rest,
    NoDup (map fst acc ++ map fst members) →
    (list_sum (map (λ m, S (weight m.2)) members) ≤ fuel)%nat →
    parse_members fuel
      (join (lit "," ++ newline_indent (S level))
            (map (λ m, match m with
                       | (k, x) => encode_string k ++ lit ": "
                                   ++ dumps (S level) x
                       end) members)
       ++ newline_indent level ++ 125 :: rest) acc
    = Some (acc ++ members, rest).
Proof.
  induction 1 as [|[k x] members Hx _ IH];
    intros Hwf Hnum Hne fuel acc rest Hnd Hfuel; [done|].
  cbn [forallb snd] in Hwf. apply andb_true_iff in Hwf as [Hwx Hwf].
  cbn [forallb snd] in Hnum. apply andb_true_iff in Hnum as [Hnx Hnum].
  cbn [snd] in Hx.
  cbn [map list_sum snd] in Hfuel.
  destruct fuel as [|fuel]; [simpl in Hfuel; lia|].
  assert (Hk : k ∉ map fst acc).
  { cbn [map fst] in Hnd. apply NoDup_app in Hnd as (_ & Hnd & _).
    intros Hin. apply (Hnd k Hin). apply elem_of_cons. by left. }
  assert (Hnd' : NoDup (map fst (acc ++ [(k, x)]) ++ map fst members)).
  { rewrite map_app. cbn [map fst]. rewrite <- app_assoc. exact Hnd. }
  destruct members as [|m members].
  - cbn [map join]. rewrite <- !app_assoc. rewrite parse_members_key.
    rewrite skip_ws_opens by (apply opens_app, dumps_opens, Hnx).
    rewrite (Hx Hwx Hnx) by (simpl in Hfuel; lia).
    rewrite (skip_ws_indent level 125) by reflexivity. decide_tests.
    rewrite (dict_set_fresh _ _ _ Hk). reflexivity.
  - change (join (lit "," ++ newline_indent (S level))
              (map (λ m, match m with
                         | (k, x) => encode_string k ++ lit ": "
                                     ++ dumps (S level) x
                         end) ((k, x) :: m :: members)))
      with ((encode_string k ++ lit ": " ++ dumps (S level) x)
            ++ (44 :: newline_indent (S level))
            ++ join (lit "," ++ newline_indent (S level))
                    (map (λ m, match m with
                               | (k, x) => encode_string k ++ lit ": "
                                           ++ dumps (S level) x
                               end) (m :: members))).
    rewrite <- !app_assoc. rewrite parse_members_key.
    rewrite skip_ws_opens by (apply opens_app, dumps_opens, Hnx).
    rewrite (Hx Hwx Hnx) by (simpl in Hfuel; lia).
    cbn [app]. rewrite (skip_ws_stop 44) by reflexivity. decide_tests.
    rewrite (dict_set_fresh _ _ _ Hk).
    assert (Hopen : opens (join (lit "," ++ newline_indent (S level))
                     (map (λ m, match m with
                                | (k, x) => encode_string k ++ lit ": "
                                            ++ dumps (S level) x
                                end) (m :: members))
                   ++ newline_indent level ++ 125 :: rest)).
    { apply opens_app. cbn [map]. apply join_opens. destruct m as [k' x'].
      exists QUOTE, (concat (map escape_char k') ++ [QUOTE] ++ lit ": "
                     ++ dumps (S level) x').
      split; [|done]. unfold encode_string. cbn [app].
      rewrite <- !app_assoc. reflexivity. }
    rewrite (skip_ws_indent_opens _ _ Hopen).
    rewrite IH; [|exact Hwf|exact Hnum|discriminate|exact Hnd'|simpl in *; lia].
    rewrite <- app_assoc. reflexivity.
Qed.

Lemma dumps_reads_back v : reads_back v.
Proof.
  induction v as [|b|n|x|s|items IH|members IH] using json_ind;
    intros Hwf Hnum level fuel rest Hfuel;
    (destruct fuel as [|fuel]; [simpl in Hfuel; lia|]).
  - apply parse_value_null.
  - apply (parse_value_bool fuel b rest).
  - discriminate Hnum.
  - discriminate Hnum.
  - apply parse_value_string.
  - destruct items as [|x items]; [apply parse_value_empty_list|].
    cbn [distinct_keys] in Hwf. cbn [without_numbers] in Hnum.
    cbn [weight] in Hfuel.
    change (dumps level (JList (x :: items)) ++ rest)
      with (91 :: (newline_indent (S level)
            ++ join (lit "," ++ newline_indent (S level))
                    (map (dumps (S level)) (x :: items))
            ++ newline_indent level ++ lit "]") ++ rest).
    rewrite <- !app_assoc. apply parse_value_list.
    + apply opens_app. cbn [map]. apply join_opens, dumps_opens.
      cbn [forallb] in Hnum. apply andb_true_iff in Hnum as [Hnx _].
      exact Hnx.
    + apply (parse_items_dumps level (x :: items) IH Hwf Hnum
               ltac:(discriminate) fuel [] rest). lia.
  - destruct members as [|m members]; [apply parse_value_empty_dict|].
    cbn [without_numbers] in Hnum.
    cbn [distinct_keys] in Hwf. apply andb_true_iff in Hwf as [Hnd Hwf].
    apply bool_decide_eq_true in Hnd. cbn [weight] in Hfuel.
    change (dumps level (JDict (m :: members)) ++ rest)
      with (123 :: (newline_indent (S level)
            ++ join (lit "," ++ newline_indent (S level))
                    (map (λ m, match m with
                               | (k, x) => encode_string k ++ lit ": "
                                           ++ dumps (S level) x
                               end) (m :: members))
            ++ newline_indent level ++ lit "}") ++ rest).
    rewrite <- !app_assoc. apply parse_value_dict.
    + apply opens_app. cbn [map]. apply join_opens. destruct m as [k' x'].
      exists QUOTE, (concat (map escape_char k') ++ [QUOTE] ++ lit ": "
                     ++ dumps (S level) x').
      split; [|done]. unfold encode_string. cbn [app].
      rewrite <- !app_assoc. reflexivity.
    + apply (parse_members_dumps level (m :: members) IH Hwf Hnum
               ltac:(discriminate) fuel [] rest); [exact Hnd|lia].
Qed.

(** The text of a value is at least as long as its weight. *)
Lemma join_weight {A} sep (f : A → str) (w : A → nat) (items : list A) :
  (1 ≤ length sep)%nat →
  Forall (λ x, w x ≤ length (f x))%nat items →
  (list_sum (map (λ x, S (w x)) items) ≤ S (length (join sep (map f items))))%nat.
Proof.
  intros Hsep. induction 1 as [|x items Hx _ IH]; [simpl; lia|].
  cbn [map list_sum join]. destruct (map f items) as [|d ds] eqn:E.
  - destruct items; [|discriminate E]. simpl. lia.
  - rewrite !length_app. cbn [map] in IH. simpl list_sum. lia.
Qed.

Lemma length_newline_indent level :
  length (newline_indent level) = S (2 * level).
Proof. unfold newline_indent. cbn [length]. rewrite repeat_length. reflexivity. Qed.

Lemma weight_length v : ∀ level, (weight v ≤ length (dumps level v))%nat.
Proof.
  induction v as [|b|n|x|s|items IH|members IH] using json_ind; intros level.
  - simpl. lia.
  - destruct b; simpl; lia.
  - apply int_repr_length.
  - apply floatstr_length.
  - unfold dumps, encode_string. rewrite !length_app. simpl. lia.
  - destruct items as [|x items]; [simpl; lia|].
    change (dumps level (JList (x :: items)))
      with (91 :: newline_indent (S level)
            ++ join (lit "," ++ newline_indent (S level))
                    (map (dumps (S level)) (x :: items))
            ++ newline_indent level ++ lit "]").
    assert (Hj := join_weight (lit "," ++ newline_indent (S level))
                    (dumps (S level)) weight (x :: items)
                    ltac:(simpl; lia)
                    ltac:(eapply Forall_impl; [exact IH|]; intros y Hy; apply Hy)).
    remember (join _ _) as J eqn:HJ. clear HJ.
    remember (list_sum _) as total eqn:Ht. 
    cbn [weight]. rewrite <- Ht. cbn [length]. rewrite !length_app.
    pose proof (length_newline_indent (S level)).
    pose proof (length_newline_indent level). lia.
  - destruct members as [|m members]; [simpl; lia|].
    change (dumps level (JDict (m :: members)))
      with (123 :: newline_indent (S level)
            ++ join (lit "," ++ newline_indent (S level))
                    (map (λ m, match m with
                               | (k, x) => encode_string k ++ lit ": "
                                           ++ dumps (S level) x
                               end) (m :: members))
            ++ newline_indent level ++ lit "}").
    assert (Hj := join_weight (lit "," ++ newline_indent (S level))
                    (λ m, match m with
                          | (k, x) => encode_string k ++ lit ": "
                                      ++ dumps (S level) x
                          end) (λ m, weight m.2) (m :: members)
                    ltac:(simpl; lia)).
    assert (Hall : Forall (λ m : str * json,
                             weight m.2
                             ≤ length (match m with
                                       | (k, x) => encode_string k ++ lit ": "
                                                   ++ dumps (S level) x
                                       end))%nat (m :: members)).
    { eapply Forall_impl; [exact IH|]. intros [k y] Hy. cbn [snd] in *.
      rewrite !length_app. specialize (Hy (S level)). lia. }
    specialize (Hj Hall).
    remember (join _ _) as J eqn:HJ. clear HJ.
    remember (list_sum _) as total eqn:Ht.
    cbn [weight]. rewrite <- Ht. cbn [length]. rewrite !length_app.
    pose proof (length_newline_indent (S level)).
    pose proof (length_newline_indent level). lia.
Qed.

(** [json.loads(json.dumps(value, indent=2, ensure_ascii=False))] is
    [value]. *)
Lemma json_loads_dumps v :
  distinct_keys v = true → without_numbers v = true →
  json_loads (dumps 0 v) = Some v.
Proof.
  intros Hwf Hnum. unfold json_loads.
  rewrite skip_ws_opens by apply dumps_opens, Hnum.
  rewrite <- (app_nil_r (dumps 0 v)) at 2.
  rewrite (dumps_reads_back v Hwf Hnum 0%nat); [reflexivity|].
  pose proof (weight_length v 0%nat). lia.
Qed.

(** *** Which texts utf-8 encodes *)

Lemma escape_char_encodable_eq c :
  forallb utf8_encodable (escape_char c) = utf8_encodable c.
Proof.
  destruct (escape_char_cases c) as [(-> & _)|[(e & -> & He & _)|(Hlt & ->)]].
  - simpl. apply andb_true_r.
  - cbn [forallb]. rewrite (unescape_encodable _ _ He). cbn [andb].
    symmetry. apply utf8_encodable_ascii. revert He. unfold unescape.
    repeat match goal with
           | |- context [N.eqb e ?x] => destruct (N.eqb e x)
           end; intros [= <-]; unfold QUOTE, BACKSLASH; lia.
  - rewrite (utf8_encodable_ascii c) by lia. cbn [forallb].
    rewrite !hexdigit_encodable; [reflexivity| |].
    + apply N.mod_upper_bound. lia.
    + apply N.Div0.div_lt_upper_bound. lia.
Qed.

Lemma encode_string_encodable_eq s :
  forallb utf8_encodable (encode_string s) = forallb utf8_encodable s.
Proof.
  unfold encode_string. rewrite !forallb_app. cbn [forallb].
  change (utf8_encodable QUOTE) with true. rewrite !andb_true_r. cbn [andb].
  induction s as [|c s IH]; [reflexivity|].
  cbn [map concat forallb]. rewrite forallb_app, escape_char_encodable_eq, IH.
  reflexivity.
Qed.

Lemma join_forallb {A} (p : char → bool) sep (f : A → str) (items : list A) :
  forallb p sep = true →
  forallb p (join sep (map f items)) = forallb (λ x, forallb p (f x)) items.
Proof.
  intros Hsep. induction items as [|x items IH]; [reflexivity|].
  cbn [map join forallb]. destruct items as [|y items].
  - cbn [map forallb]. rewrite andb_true_r. reflexivity.
  - change (map f (y :: items)) with (f y :: map f items) at 1.
    cbv beta iota. change (f y :: map f items) with (map f (y :: items)).
    rewrite !forallb_app, Hsep, IH. reflexivity.
Qed.

Lemma forallb_ext_Forall {A} (f g : A → bool) (l : list A) :
  Forall (λ x, f x = g x) l → forallb f l = forallb g l.
Proof. induction 1 as [|x l Hx _ IH]; [reflexivity|]. simpl. rewrite Hx, IH. done. Qed.

Lemma dumps_encodable v : ∀ level,
  forallb utf8_encodable (dumps level v) = json_encodable v.
Proof.
  induction v as [|b|n|x|s|items IH|members IH] using json_ind; intros level.
  - reflexivity.
  - destruct b; reflexivity.
  - apply ascii_encodable, int_repr_ascii.
  - apply ascii_encodable, floatstr_ascii.
  - apply encode_string_encodable_eq.
  - destruct items as [|x items]; [reflexivity|].
    change (dumps level (JList (x :: items)))
      with (91 :: newline_indent (S level)
            ++ join (lit "," ++ newline_indent (S level))
                    (map (dumps (S level)) (x :: items))
            ++ newline_indent level ++ lit "]").
    cbn [forallb]. rewrite !forallb_app, !newline_indent_encodable.
    change (utf8_encodable 91) with true.
    change (forallb utf8_encodable (lit "]")) with true.
    rewrite !andb_true_r. cbn [andb json_encodable].
    rewrite join_forallb
      by (rewrite forallb_app, newline_indent_encodable; reflexivity).
    apply forallb_ext_Forall. eapply Forall_impl; [exact IH|].
    intros y Hy. apply Hy.
  - destruct members as [|m members]; [reflexivity|].
    change (dumps level (JDict (m :: members)))
      with (123 :: newline_indent (S level)
            ++ join (lit "," ++ newline_indent (S level))
                    (map (λ m, match m with
                               | (k, x) => encode_string k ++ lit ": "
                                           ++ dumps (S level) x
                               end) (m :: members))
            ++ newline_indent level ++ lit "}").
    cbn [forallb]. rewrite !forallb_app, !newline_indent_encodable.
    change (utf8_encodable 123) with true.
    change (forallb utf8_encodable (lit "}")) with true.
    rewrite !andb_true_r. cbn [andb json_encodable].
    rewrite join_forallb
      by (rewrite forallb_app, newline_indent_encodable; reflexivity).
    apply forallb_ext_Forall. eapply Forall_impl; [exact IH|].
    intros [k y] Hy. cbn [fst snd] in *.
    rewrite !forallb_app, encode_string_encodable_eq, Hy. reflexivity.
Qed.

(** ** save_training_data and load_training_data, on any value *)

(** X10: on a path that cannot be opened for writing the call raises
    [OSError] and writes nothing; on one that can, it writes the text of
    the data at the path, over what was there and beside what else is
    there, unless a string of the data holds a surrogate code point;
    then it raises [UnicodeEncodeError]. *)
Theorem save_training_data_effect (writable : str → bool) (output_file : str)
    (self : GoModelTrainer) (fs : filesystem) :
  (save_training_data writable output_file self fs).1
  = if writable output_file then
      if json_encodable (training_data self)
      then Returned (<[output_file := dumps 0 (training_data self)]> fs)
      else Raised UnicodeEncodeError
    else Raised OSError.
Proof.
  unfold save_training_data. rewrite dumps_encodable.
  destruct (writable _); [|reflexivity].
  destruct (json_encodable _); reflexivity.
Qed.



(** ** clean_go_code: code without comments *)

(** X25: code that holds no line comment, no block comment and no run
    of blank lines is stripped at its ends and otherwise left as it
    is. *)
Theorem clean_go_code_only_strips (code : str) :
  has2 SLASH SLASH code = false → has_block code = false →
  no_blank_run code = true →
  clean_go_code code = strip code.
Proof.
  intros H1 H2 H3. unfold clean_go_code.
  rewrite (line_comment_absent _ H1), (block_comment_absent _ H2),
    (blank_run_absent _ H3).
  reflexivity.
Qed.

Lemma clean_go_code_only_strips_witness :
  clean_go_code ([NL] ++ lit "x := a / b /* open" ++ [NL] ++ lit "y := 2 " ++ [NL])
  = lit "x := a / b /* open" ++ [NL] ++ lit "y := 2".
Proof.
  rewrite (clean_go_code_only_strips
             ([NL] ++ lit "x := a / b /* open" ++ [NL] ++ lit "y := 2 " ++ [NL]));
    reflexivity.
Defined.

(** ** create_training_pairs: the excerpt *)

(** X26: only the first 500 characters of the text, and whether the
    text is blank, enter the pairs. *)
Theorem create_training_pairs_excerpt (code code' context : str) :
  take 500 code = take 500 code' →
  forallb isspace code = forallb isspace code' →
  create_training_pairs code context = create_training_pairs code' context.
Proof.
  intros Ht Hb. unfold create_training_pairs. rewrite !truthy_strip, Hb.
  unfold explanation_pair, generation_pair, debugging_pair, improvement_pair.
  rewrite Ht. reflexivity.
Qed.

Lemma create_training_pairs_excerpt_witness :
  create_training_pairs (repeat 120 500 ++ lit "tail") (lit "Go example")
  = create_training_pairs (repeat 120 500) (lit "Go example").
Proof.
  apply (create_training_pairs_excerpt (repeat 120 500 ++ lit "tail")
           (repeat 120 500) (lit "Go example")).
  - vm_compute. reflexivity.
  - vm_compute. reflexivity.
Defined.

(** ** What [json.loads] returns *)

Lemma dict_set_distinct k x d :
  distinct_keys x = true → distinct_members d →
  distinct_members (dict_set k x d).
Proof.
  intros Hx. induction d as [|[k' x'] d IH]; intros [Hnd Hv].
  - split; [apply NoDup_singleton|]. simpl. rewrite Hx. reflexivity.
  - cbn [dict_set]. cbn [map fst] in Hnd. apply NoDup_cons in Hnd as [Hk' Hnd].
    cbn [forallb snd] in Hv. apply andb_true_iff in Hv as [Hx' Hv].
    destruct (decide (k = k')) as [->|Hne].
    + rewrite bool_decide_eq_true_2 by reflexivity. split.
      * cbn [map fst]. apply NoDup_cons. done.
      * cbn [forallb snd]. rewrite Hx, Hv. reflexivity.
    + rewrite bool_decide_eq_false_2 by exact Hne.
      destruct (IH (conj Hnd Hv)) as [Hnd' Hv']. split.
      * cbn [map fst]. apply NoDup_cons. split; [|exact Hnd'].
        intros Hin. apply Hk'.
        clear -Hin Hne. induction d as [|[k2 x2] d IHd]; cbn [dict_set] in Hin.
        -- apply list_elem_of_singleton in Hin. simpl in Hin. congruence.
        -- destruct (bool_decide (k = k2)); cbn [map fst] in *;
             apply elem_of_cons in Hin as [Hin|Hin].
           ++ congruence.
           ++ apply elem_of_cons. by right.
           ++ apply elem_of_cons. by left.
           ++ apply elem_of_cons. right. exact (IHd Hin).
      * cbn [forallb snd]. rewrite Hx', Hv'. reflexivity.
Qed.

Lemma forallb_snoc {A} (f : A → bool) l x :
  forallb f (l ++ [x]) = forallb f l && f x.
Proof. rewrite forallb_app. simpl. rewrite andb_true_r. reflexivity. Qed.

(** What the scanner reads as a number is one. *)
Lemma scan_number_number s v rest :
  scan_number s = Some (v, rest) → (∃ n, v = JInt n) ∨ (∃ x, v = JFloat x).
Proof.
  unfold scan_number. intros H.
  repeat case_match; simplify_eq; eauto.
Qed.

Lemma scan_constant_number s v rest :
  scan_constant s = Some (v, rest) → (∃ n, v = JInt n) ∨ (∃ x, v = JFloat x).
Proof.
  unfold scan_constant.
  destruct (scan_number s) as [[v' rest']|] eqn:E.
  - intros [= <- <-]. exact (scan_number_number _ _ _ E).
  - repeat case_match; intros; simplify_eq; eauto.
Qed.

(** The scanner makes dictionaries of distinct keys only. *)
Lemma parse_distinct fuel :
  (∀ s v rest, parse_value fuel s = Some (v, rest) → distinct_keys v = true)
  ∧ (∀ s acc items rest,
       parse_items fuel s acc = Some (items, rest) →
       forallb distinct_keys acc = true → forallb distinct_keys items = true)
  ∧ (∀ s acc members rest,
       parse_members fuel s acc = Some (members, rest) →
       distinct_members acc → distinct_members members).
Proof.
  induction fuel as [|fuel (IHv & IHi & IHm)].
  - repeat split; discriminate.
  - split; [|split].
    + intros s v rest. cbn [parse_value].
      repeat case_match; intros; simplify_eq; try reflexivity;
        lazymatch goal with
        | H : scan_constant _ = Some _ |- _ =>
            apply scan_constant_number in H as [[? ->]|[? ->]]; reflexivity
        | H : parse_items _ _ _ = Some _ |- _ =>
            cbn [distinct_keys]; eapply IHi; [eassumption|reflexivity]
        | H : parse_members _ _ _ = Some _ |- _ =>
            cbn [distinct_keys];
            apply IHm in H as [Hnd Hv];
              [rewrite Hv, bool_decide_eq_true_2 by exact Hnd; reflexivity
              |split; [apply NoDup_nil_2|reflexivity]]
        end.
    + intros s acc items rest. rewrite parse_items_step.
      repeat case_match; intros; simplify_eq.
      * rewrite forallb_snoc. apply andb_true_iff. split; [assumption|].
        eapply IHv. eassumption.
      * eapply IHi; [eassumption|]. rewrite forallb_snoc.
        apply andb_true_iff. split; [assumption|]. eapply IHv. eassumption.
    + intros s acc members rest. cbn [parse_members].
      repeat case_match; intros; simplify_eq.
      * apply dict_set_distinct; [|assumption]. eapply IHv. eassumption.
      * eapply IHm; [eassumption|].
        apply dict_set_distinct; [|assumption]. eapply IHv. eassumption.
Qed.

Lemma json_loads_distinct text data :
  json_loads text = Some data → distinct_keys data = true.
Proof.
  unfold json_loads.
  destruct (parse_value _ _) as [[v rest]|] eqn:E; [|discriminate].
  destruct (skip_ws rest); [|discriminate]. intros [= <-].
  eapply (proj1 (parse_distinct _)). exact E.
Qed.

(** X27: a file that loads, to data without a number and without a
    surrogate code point, can be saved again from these data to its
    path, if the path can be opened for writing, and then loads to the
    same data. *)
Theorem load_save_load (writable : str → bool) (path : str)
    (self self' : GoModelTrainer) (fs : filesystem) (text : str)
    (data : json) :
  fs !! path = Some text → json_loads text = Some data →
  without_numbers data = true → json_encodable data = true →
  writable path = true →
  (load_training_data path self fs).1.1 = {| training_data := data |}
  ∧ ∃ fs',
      (save_training_data writable path {| training_data := data |} fs).1
      = Returned fs'
      ∧ (load_training_data path self' fs').1.1 = {| training_data := data |}.
Proof.
  intros Hfile Hload Hnum Henc Hw. split.
  - unfold load_training_data. rewrite Hfile, Hload.
    destruct (py_len data); reflexivity.
  - unfold save_training_data. cbn [training_data].
    rewrite Hw, dumps_encodable, Henc. cbn [fst]. eexists.
    split; [reflexivity|].
    unfold load_training_data.
    rewrite lookup_insert_eq,
      (json_loads_dumps data (json_loads_distinct _ _ Hload) Hnum).
    destruct (py_len data); reflexivity.
Qed.

Lemma load_save_load_witness :
  ∃ fs',
    (save_training_data (λ _, true) (lit "d.json")
       {| training_data := JDict [(lit "k", JList [JBool true; JNull])] |}
       {[ lit "d.json" := lit " {" ++ [QUOTE] ++ lit "k" ++ [QUOTE]
                          ++ lit ":[ true,null ] } " ]}).1
    = Returned fs'
    ∧ (load_training_data (lit "d.json") new_trainer fs').1.1
      = {| training_data := JDict [(lit "k", JList [JBool true; JNull])] |}.
Proof.
  apply (load_save_load (λ _, true) (lit "d.json") new_trainer new_trainer
           {[ lit "d.json" := lit " {" ++ [QUOTE] ++ lit "k" ++ [QUOTE]
                              ++ lit ":[ true,null ] } " ]}
           (lit " {" ++ [QUOTE] ++ lit "k" ++ [QUOTE] ++ lit ":[ true,null ] } ")
           (JDict [(lit "k", JList [JBool true; JNull])])).
  - apply lookup_singleton_eq.
  - vm_compute. reflexivity.
  - reflexivity.
  - reflexivity.
  - reflexivity.
Defined.

(** ** prepare_dataset *)

Lemma format_item_pair repr p :
  format_item repr (pair_json p) = Returned (human_assistant p).
Proof. reflexivity. Qed.

Lemma format_items_pairs repr pairs : ∀ acc,
  format_items repr acc (map pair_json pairs)
  = Returned (acc ++ map human_assistant pairs).
Proof.
  induction pairs as [|p pairs IH]; intros acc; cbn [map format_items].
  - rewrite app_nil_r. reflexivity.
  - rewrite format_item_pair, IH, <- app_assoc. reflexivity.
Qed.

Lemma prepare_dataset_dataset repr pairs :
  prepare_dataset repr {| training_data := dataset pairs |}
  = match pairs with
    | [] => (Returned None,
             [(INFO, lit "Preparing dataset...");
              (ERROR, lit "No training data available")])
    | _ :: _ => (Returned (Some (map human_assistant pairs)),
                 [(INFO, lit "Preparing dataset...")])
    end.
Proof.
  destruct pairs as [|p pairs]; [reflexivity|].
  unfold prepare_dataset, dataset. cbn [training_data json_truthy map negb py_iter].
  change (pair_json p :: map pair_json pairs) with (map pair_json (p :: pairs)).
  rewrite format_items_pairs. reflexivity.
Qed.

(** X12: on no pair the call returns [None] and logs an error; on a
    sequence of pairs it returns one text for each pair, in the same
    order, the prompt after [Human: ] and the completion after
    [Assistant: ], closed by the end-of-text marker. *)
Theorem prepare_dataset_pairs (repr : json → str) (pairs : list TrainingPair) :
  (prepare_dataset repr {| training_data := dataset [] |}
   = (Returned None,
      [(INFO, lit "Preparing dataset...");
       (ERROR, lit "No training data available")]))
  ∧ (pairs ≠ [] →
     prepare_dataset repr {| training_data := dataset pairs |}
     = (Returned (Some (map human_assistant pairs)),
        [(INFO, lit "Preparing dataset...")]))
  ∧ (∀ i p, pairs !! i = Some p →
       map human_assistant pairs !! i
       = Some (lit "Human: " ++ prompt p ++ [NL] ++ lit "Assistant: "
               ++ completion p ++ lit "<|endoftext|>")).
Proof.
  split; [reflexivity|]. split.
  - intros Hne. rewrite prepare_dataset_dataset.
    destruct pairs; [done|reflexivity].
  - intros i p Hp. rewrite list_lookup_fmap, Hp. reflexivity.
Qed.

Lemma format_item_returned repr item text :
  format_item repr item = Returned text → has_both_keys item.
Proof.
  unfold format_item, getitem.
  destruct item as [|b|n|x|s|items|members]; try discriminate.
  destruct (dict_get (lit "prompt") members) as [p|] eqn:Hp; [|discriminate].
  destruct (dict_get (lit "completion") members) as [c|] eqn:Hc; [|discriminate].
  intros _. exists members, p, c. done.
Qed.

Lemma format_item_both_keys repr item :
  has_both_keys item → ∃ text, format_item repr item = Returned text.
Proof.
  intros (members & p & c & -> & Hp & Hc). unfold format_item, getitem.
  rewrite Hp, Hc. eauto.
Qed.

Lemma format_items_returned repr items : ∀ acc texts,
  format_items repr acc items = Returned texts →
  length texts = (length acc + length items)%nat ∧ Forall has_both_keys items.
Proof.
  induction items as [|item items IH]; intros acc texts; cbn [format_items].
  - intros [= <-]. split; [simpl; lia|constructor].
  - destruct (format_item repr item) as [text|e] eqn:E; [|discriminate].
    intros H. apply IH in H as [Hlen Hall]. rewrite length_app in Hlen.
    split; [simpl in *; lia|].
    constructor; [exact (format_item_returned _ _ _ E)|exact Hall].
Qed.

Lemma format_items_both_keys repr items : ∀ acc,
  Forall has_both_keys items → ∃ texts, format_items repr acc items = Returned texts.
Proof.
  induction items as [|item items IH]; intros acc Hall; cbn [format_items].
  - eauto.
  - apply Forall_cons in Hall as [Hitem Hall].
    destruct (format_item_both_keys repr item Hitem) as [text ->].
    apply IH, Hall.
Qed.

Lemma format_items_raised repr items : ∀ acc e,
  format_items repr acc items = Raised e → e = KeyError ∨ e = TypeError.
Proof.
  induction items as [|item items IH]; intros acc e; cbn [format_items];
    [discriminate|].
  destruct (format_item repr item) as [text|e'] eqn:E; [apply IH|].
  intros [= <-]. revert E. unfold format_item, getitem.
  destruct item as [|b|n|x|s|l|members]; try (intros [= <-]; tauto).
  destruct (dict_get (lit "prompt") members); [|intros [= <-]; tauto].
  destruct (dict_get (lit "completion") members); [discriminate|].
  intros [= <-]; tauto.
Qed.

(** X13: the call returns [None] exactly on data that are empty or
    false; it returns texts exactly on a list that is not empty and whose
    items are dictionaries with the two keys, one text for each item, so
    never the empty list; and it raises nothing but [KeyError] and
    [TypeError]. *)
Theorem prepare_dataset_outcomes (repr : json → str) (self : GoModelTrainer) :
  ((prepare_dataset repr self).1 = Returned None
   ↔ json_truthy (training_data self) = false)
  ∧ (∀ texts,
       (prepare_dataset repr self).1 = Returned (Some texts) →
       texts ≠ []
       ∧ ∃ items, training_data self = JList items
                  ∧ length texts = length items
                  ∧ Forall has_both_keys items)
  ∧ (∀ items,
       training_data self = JList items → items ≠ [] →
       Forall has_both_keys items →
       ∃ texts, (prepare_dataset repr self).1 = Returned (Some texts))
  ∧ (∀ e, (prepare_dataset repr self).1 = Raised e →
          e = KeyError ∨ e = TypeError).
Proof.
  unfold prepare_dataset. destruct self as [data]. cbn [training_data].
  destruct (json_truthy data) eqn:Ht; cbn [negb].
  - split; [|split; [|split]].
    + split; [|discriminate].
      destruct (py_iter data) as [items|]; [|discriminate].
      destruct (format_items repr [] items); discriminate.
    + intros texts H.
      destruct data as [|b|n|x|s|items|members]; cbn [py_iter] in H;
        try discriminate H.
      * destruct s as [|c s]; [discriminate Ht|]. discriminate H.
      * destruct (format_items repr [] items) as [texts'|e] eqn:E;
          [|discriminate].
        injection H as ->. apply format_items_returned in E as [Hlen Hall].
        split.
        -- intros ->. destruct items; [discriminate Ht|discriminate Hlen].
        -- exists items. done.
      * destruct members as [|[k x] members]; [discriminate Ht|].
        discriminate H.
    + intros items -> Hne Hall. cbn [py_iter].
      destruct (format_items_both_keys repr items [] Hall) as [texts ->].
      eauto.
    + intros e H. destruct (py_iter data) as [items|]; [|injection H as <-; tauto].
      destruct (format_items repr [] items) as [texts|e'] eqn:E; [discriminate|].
      injection H as <-. exact (format_items_raised _ _ _ _ E).
  - split; [|split; [|split]].
    + split; reflexivity.
    + discriminate.
    + intros items -> Hne _. destruct items; [done|discriminate Ht].
    + discriminate.
Qed.

(** ** scrape_documentation *)

Lemma setitem_fresh {V} (k : str) (x : V) d :
  k ∉ d.*1 → setitem k x d = d ++ [(k, x)].
Proof.
  induction d as [|[k' x'] d IH]; intros Hk; [reflexivity|].
  cbn [setitem]. rewrite fmap_cons, not_elem_of_cons in Hk.
  destruct Hk as [Hne Hk]. simpl in Hne.
  rewrite bool_decide_eq_false_2 by exact Hne. rewrite (IH Hk). reflexivity.
Qed.

Lemma fetched_keys session_get (l : list str) k :
  k ∈ (l ≫= fetched session_get).*1 → k ∈ l.
Proof.
  induction l as [|p l IH]; [done|].
  cbn [mbind list_bind]. rewrite fmap_app, elem_of_app. intros [H|H].
  - unfold fetched in H. destruct (session_get _); [by apply elem_of_nil in H|].
    apply list_elem_of_singleton in H as ->. apply elem_of_cons. by left.
  - apply elem_of_cons. right. exact (IH H).
Qed.

Lemma scrape_pages_distinct session_get (l : list str) : ∀ docs,
  NoDup l → (∀ k, k ∈ docs.*1 → k ∉ l) →
  foldl (scrape_page session_get) docs l = docs ++ (l ≫= fetched session_get).
Proof.
  induction l as [|p l IH]; intros docs Hnd Hdocs.
  - simpl. rewrite app_nil_r. reflexivity.
  - apply NoDup_cons in Hnd as [Hp Hnd]. cbn [foldl mbind list_bind].
    unfold scrape_page at 2, fetched at 1.
    destruct (session_get (base_url ++ p)) as [|content].
    + apply IH; [exact Hnd|]. intros k Hk Hin. apply (Hdocs k Hk).
      apply elem_of_cons. by right.
    + rewrite setitem_fresh.
      * rewrite IH; [rewrite <- app_assoc; reflexivity|exact Hnd|].
        intros k Hk Hin. rewrite fmap_app, elem_of_app in Hk.
        destruct Hk as [Hk|Hk].
        -- apply (Hdocs k Hk). apply elem_of_cons. by right.
        -- apply list_elem_of_singleton in Hk. simpl in Hk. subst k. done.
      * intros Hin. apply (Hdocs p Hin). apply elem_of_cons. by left.
Qed.

Lemma pages_distinct : NoDup pages.
Proof. apply (bool_decide_unpack _). vm_compute. exact I. Qed.

Lemma scrape_documentation_fetched session_get :
  scrape_documentation session_get = pages ≫= fetched session_get.
Proof.
  unfold scrape_documentation.
  rewrite scrape_pages_distinct; [reflexivity|exact pages_distinct|].
  intros k Hk. by apply elem_of_nil in Hk.
Qed.

Lemma scrape_documentation_length session_get :
  (length (scrape_documentation session_get) ≤ 7)%nat.
Proof.
  rewrite scrape_documentation_fetched. unfold pages. cbn [mbind list_bind].
  rewrite !length_app. unfold fetched.
  repeat match goal with
         | |- context [session_get ?u] => destruct (session_get u)
         end; simpl; lia.
Qed.

(** X14: the result holds, in the order of the seven pages, each page
    whose request succeeded with the text fetched; a page whose request
    fails is left out and the pages after it are still fetched. *)
Theorem scrape_documentation_pages (session_get : str → response str) :
  scrape_documentation session_get = pages ≫= fetched session_get
  ∧ (length (scrape_documentation session_get) ≤ 7)%nat
  ∧ ∀ page content,
      (page, content) ∈ scrape_documentation session_get
      ↔ page ∈ pages ∧ session_get (base_url ++ page) = Body content.
Proof.
  split; [apply scrape_documentation_fetched|].
  split; [apply scrape_documentation_length|].
  intros page content. rewrite scrape_documentation_fetched, list_elem_of_bind.
  split.
  - intros (p & Hin & Hp). unfold fetched in Hin.
    destruct (session_get (base_url ++ p)) as [|c] eqn:E;
      [by apply elem_of_nil in Hin|].
    apply list_elem_of_singleton in Hin as [= -> ->]. done.
  - intros [Hp Hget]. exists page. split; [|exact Hp].
    unfold fetched. rewrite Hget. apply list_elem_of_singleton. reflexivity.
Qed.

(** ** scrape_examples *)

Lemma tag_pattern_nonempty s rest : matches tag_pattern s rest → rest ≠ s.
Proof. apply matches_literal_first. Qed.

Lemma no_eq a c : no a c = true ↔ c ≠ N_of_ascii a.
Proof.
  unfold no, ch. rewrite negb_true_iff, N.eqb_neq. split; intros H E; auto.
Qed.

Lemma forallb_no a (body : str) :
  forallb (no a) body = true ↔ N_of_ascii a ∉ body.
Proof.
  induction body as [|c body IH]; cbn [forallb].
  - split; [intros _ H; by apply elem_of_nil in H|reflexivity].
  - rewrite andb_true_iff, not_elem_of_cons, IH, no_eq. split; intros [H1 H2]; auto.
Qed.

Lemma tag_pattern_starts s rest :
  matches tag_pattern s rest →
  ∃ body, s = 60 :: body ++ 62 :: rest ∧ body ≠ [] ∧ 62 ∉ body.
Proof.
  cbv [tag_pattern pat foldr word plus one many]. intros H. invert_matches.
  repeat match goal with H : ch _ _ = true |- _ => apply ch_eq in H; subst end.
  match goal with H : matches (Star _ _) _ _ |- _ =>
    apply matches_star_inv in H as (body & -> & Hbody) end.
  match goal with H : no _ ?c = true |- _ => exists (c :: body) end.
  split; [reflexivity|]. split; [discriminate|].
  apply (forallb_no ">"). cbn [forallb]. apply andb_true_iff. done.
Qed.

Lemma tag_pattern_matches body rest :
  body ≠ [] → 62 ∉ body → matches tag_pattern (60 :: body ++ 62 :: rest) rest.
Proof.
  intros Hne Hbody. destruct body as [|c body]; [done|].
  apply (forallb_no ">") in Hbody. cbn [forallb] in Hbody.
  apply andb_true_iff in Hbody as [Hc Hbody].
  unfold tag_pattern, pat, plus, one, many. simpl.
  eapply matches_seq; [apply matches_chr; reflexivity|].
  eapply matches_seq; [apply matches_chr; exact Hc|].
  eapply matches_seq; [apply matches_star_span; exact Hbody|].
  eapply matches_seq; [apply matches_chr; reflexivity|constructor].
Qed.

(** No tag starts at a [<] only when no [>] follows with something
    between. *)
Lemma tag_pattern_no_match s :
  match_len tag_pattern (60 :: s) = None →
  s = [] ∨ (∃ s', s = 62 :: s') ∨ 62 ∉ s.
Proof.
  intros Hnone. destruct s as [|x s]; [by left|]. right.
  destruct (decide (x = 62)) as [->|Hx]; [left; eauto|]. right.
  intros Hin. apply list_elem_of_split_l in Hin as (body & post & E & Hbody).
  destruct body as [|b body]; [injection E as ->; done|].
  apply (proj1 (match_len_none _ _) Hnone post).
  rewrite E. apply tag_pattern_matches; [discriminate|exact Hbody].
Qed.

Lemma tagged_cons c out :
  tagged (c :: out) →
  tagged out ∨ (c = 60 ∧ ∃ body post, out = body ++ 62 :: post
                                      ∧ body ≠ [] ∧ 62 ∉ body).
Proof.
  intros (pre & body & post & E & Hne & Hbody).
  destruct pre as [|d pre]; simpl in E; injection E as -> ->.
  - right. split; [reflexivity|]. exists body, post. done.
  - left. exists pre, body, post. done.
Qed.

(** After the substitution no tag is left. *)
Lemma tags_removed s : ¬ tagged (re_sub tag_pattern [] s).
Proof.
  apply (re_sub_ind tag_pattern [] tag_pattern_nonempty
           (λ _ out, ¬ tagged out)); clear s.
  - intros (pre & body & post & E & _). destruct pre; discriminate.
  - intros c s Hnone IH [H|(-> & body & post & E & Hne & Hbody)]%tagged_cons;
      [exact (IH H)|].
    apply tag_pattern_no_match in Hnone as [->|[[s' ->]|Hs]].
    + destruct body; discriminate.
    + rewrite re_sub_no_match in E.
      * destruct body as [|b body]; [done|]. injection E as <- _.
        apply Hbody, elem_of_cons. by left.
      * apply match_len_none. intros rest (b & [=] & _)%tag_pattern_starts.
    + apply Hs.
      eapply elem_of_sublist;
        [|apply (re_sub_delete_sublist _ _ tag_pattern_nonempty)].
      rewrite E. apply elem_of_app. right. apply elem_of_cons. by left.
  - intros c s n _ IH. exact IH.
Qed.

Lemma tagged_infix pre s post : tagged s → tagged (pre ++ s ++ post).
Proof.
  intros (p & body & q & -> & Hne & Hbody).
  exists (pre ++ p), body, (q ++ post). split; [|done].
  rewrite <- !app_assoc. reflexivity.
Qed.

Lemma foldl_snoc_map {A B} (f : A → B) (l : list A) : ∀ acc,
  foldl (λ acc a, acc ++ [f a]) acc l = acc ++ map f l.
Proof.
  induction l as [|a l IH]; intros acc; simpl.
  - rewrite app_nil_r. reflexivity.
  - rewrite IH, <- app_assoc. reflexivity.
Qed.

Lemma scrape_examples_map session_get :
  scrape_examples session_get
  = match session_get (lit "https://gobyexample.com/") with
    | Body text =>
        map (λ found, strip (re_sub tag_pattern [] found))
            (re_findall_group code_open code_body code_close text)
    | RequestException => []
    end.
Proof.
  unfold scrape_examples. destruct (session_get _); [reflexivity|].
  apply (foldl_snoc_map (λ found, strip (re_sub tag_pattern [] found))).
Qed.

(** X15: an example returned has no whitespace at either end and holds
    no tag, no [<] with a [>] after it and something else between. *)
Theorem scrape_examples_no_tag (session_get : str → response str) (x : str) :
  x ∈ scrape_examples session_get →
  strip x = x
  ∧ ∀ pre body post,
      body ≠ [] → 62 ∉ body → x ≠ pre ++ lit "<" ++ body ++ lit ">" ++ post.
Proof.
  rewrite scrape_examples_map.
  destruct (session_get _) as [|text]; [intros H; by apply elem_of_nil in H|].
  intros (found & -> & _)%list_elem_of_fmap. split; [apply strip_strip|].
  intros pre body post Hne Hbody E.
  apply (tags_removed found).
  destruct (strip_infix (re_sub tag_pattern [] found)) as (p & q & Hs).
  rewrite Hs. apply tagged_infix. exists pre, body, post. done.
Qed.

Lemma scrape_examples_no_tag_witness :
  scrape_examples example_docs_get = [lit "fmt.Println(1)"]
  ∧ strip (lit "fmt.Println(1)") = lit "fmt.Println(1)"
  ∧ ∀ pre body post,
      body ≠ [] → 62 ∉ body →
      lit "fmt.Println(1)" ≠ pre ++ lit "<" ++ body ++ lit ">" ++ post.
Proof.
  split; [vm_compute; reflexivity|].
  apply (scrape_examples_no_tag example_docs_get (lit "fmt.Println(1)")).
  vm_compute. apply elem_of_cons. left. reflexivity.
Defined.

(** *** Where the examples come from *)

Lemma match_group_sound pre grp post s g n :
  match_group pre grp post s = Some (g, n) →
  ∃ s1 s2 s3, matches pre s s1 ∧ matches grp s1 s2 ∧ matches post s2 s3
              ∧ s1 = g ++ s2 ∧ n = (length s - length s3)%nat.
Proof.
  unfold match_group. intros H.
  apply bt_sound in H as (s1 & H1 & H).
  apply bt_sound in H as (s2 & H2 & H).
  apply bt_sound in H as (s3 & H3 & [= <- <-]).
  exists s1, s2, s3. repeat split; try assumption.
  destruct (matches_suffix _ _ _ H2) as [p ->].
  rewrite length_app, Nat.add_sub, take_app_length. reflexivity.
Qed.

Lemma matches_word w : ∀ s rest,
  matches (word w Eps) s rest → s = lit w ++ rest.
Proof.
  induction w as [|a w IH]; intros s rest H; simpl in H.
  - inversion H; subst. reflexivity.
  - invert_matches.
    match goal with H : ch _ _ = true |- _ => apply ch_eq in H; subst end.
    simpl. f_equal. apply IH. assumption.
Qed.

Lemma code_open_matches s rest : matches code_open s rest → s = pre_open ++ rest.
Proof.
  cbv [code_open pat foldr word one]. intros H. invert_matches.
  repeat match goal with H : ch _ _ = true |- _ => apply ch_eq in H; subst end.
  repeat match goal with H : N.eqb QUOTE _ = true |- _ =>
    apply N.eqb_eq in H; subst end.
  reflexivity.
Qed.

Lemma findall_group_skip pre grp post n : ∀ s,
  findall_group_from pre grp post n s = re_findall_group pre grp post (drop n s).
Proof.
  induction n as [|n IH]; intros s; [reflexivity|].
  destruct s as [|c s]; [reflexivity|]. simpl. apply IH.
Qed.

Lemma re_findall_group_code text : ∀ g,
  g ∈ re_findall_group code_open code_body code_close text →
  ∃ before after, text = before ++ pre_open ++ g ++ pre_close ++ after.
Proof.
  remember (length text) as m eqn:Hm. revert text Hm.
  induction m as [m IH] using lt_wf_ind. intros text -> g Hg.
  destruct text as [|c text]; [by apply elem_of_nil in Hg|].
  unfold re_findall_group in Hg. cbn [findall_group_from] in Hg.
  destruct (match_group code_open code_body code_close (c :: text))
    as [[g' [|n]]|] eqn:E.
  - assert (Hlt : (length text < length (c :: text))%nat) by (simpl; lia).
    destruct (IH _ Hlt text eq_refl g Hg) as (before & after & ->).
    exists (c :: before), after. reflexivity.
  - apply match_group_sound in E as (s1 & s2 & s3 & H1 & H2 & H3 & -> & Hn).
    apply elem_of_cons in Hg as [->|Hg].
    + apply code_open_matches in H1.
      apply (matches_word "</pre>") in H3.
      exists [], s3. rewrite H1, H3. reflexivity.
    + rewrite findall_group_skip in Hg.
      assert (Hlt : (length (drop n text) < length (c :: text))%nat)
        by (rewrite length_drop; simpl; lia).
      destruct (IH _ Hlt _ eq_refl g Hg) as (before & after & Hd).
      exists (c :: take n text ++ before), after.
      rewrite <- (take_drop n text) at 1. rewrite Hd.
      simpl. rewrite <- app_assoc. reflexivity.
  - assert (Hlt : (length text < length (c :: text))%nat) by (simpl; lia).
    destruct (IH _ Hlt text eq_refl g Hg) as (before & after & ->).
    exists (c :: before), after. reflexivity.
Qed.

(** X16: each example returned comes from a block of the page between
    the opening tag [<pre class="code">] and a closing tag [</pre>],
    its tags removed and its ends stripped. *)
Theorem scrape_examples_blocks (session_get : str → response str) (x : str) :
  x ∈ scrape_examples session_get →
  ∃ text before found after,
    session_get (lit "https://gobyexample.com/") = Body text
    ∧ text = before ++ pre_open ++ found ++ pre_close ++ after
    ∧ x = strip (re_sub tag_pattern [] found).
Proof.
  rewrite scrape_examples_map.
  destruct (session_get _) as [|text]; [intros H; by apply elem_of_nil in H|].
  intros (found & -> & Hfound)%list_elem_of_fmap.
  apply re_findall_group_code in Hfound as (before & after & E).
  exists text, before, found, after. done.
Qed.

Lemma scrape_examples_blocks_witness :
  ∃ text before found after,
    example_docs_get (lit "https://gobyexample.com/") = Body text
    ∧ text = before ++ pre_open ++ found ++ pre_close ++ after
    ∧ lit "fmt.Println(1)" = strip (re_sub tag_pattern [] found).
Proof.
  apply (scrape_examples_blocks example_docs_get (lit "fmt.Println(1)")).
  vm_compute. apply elem_of_cons. left. reflexivity.
Defined.

(** ** collect_training_data *)

Lemma adds_none k self : adds k self (self, None).
Proof.
  intros items H. exists []. simpl. rewrite app_nil_r.
  split; [exact H|]. split; [constructor|]. split; [lia|discriminate].
Qed.

Lemma adds_raised k self e :
  scraper_error e → adds k self (self, Some e).
Proof.
  intros He items H. exists []. simpl. rewrite app_nil_r.
  split; [exact H|]. split; [constructor|]. split; [lia|].
  intros e' [= <-]. exact He.
Qed.

Lemma adds_weaken k k' self r : (k ≤ k')%nat → adds k self r → adds k' self r.
Proof.
  intros Hk H items Hitems. destruct (H items Hitems) as (blocks & ? & ? & ? & ?).
  exists blocks. repeat split; try assumption. lia.
Qed.

Lemma adds_then k1 k2 self r1 r2 :
  adds k1 self r1 → adds k2 r1.1 r2 → adds (k1 + k2) self r2.
Proof.
  intros H1 H2 items Hitems.
  destruct (H1 items Hitems) as (b1 & E1 & Hl1 & Hn1 & _).
  destruct (H2 _ E1) as (b2 & E2 & Hl2 & Hn2 & He).
  exists (b1 ++ b2). split.
  - rewrite E2, bind_app, map_app, app_assoc. reflexivity.
  - split; [apply Forall_app; done|]. split; [rewrite length_app; lia|exact He].
Qed.

Lemma adds_extend self code context :
  context ≠ [] → adds 1 self (extend self (create_training_pairs code context)).
Proof.
  intros Hc items Hitems. unfold extend. rewrite Hitems. cbn [fst snd training_data].
  unfold create_training_pairs. rewrite truthy_strip.
  destruct (forallb isspace code) eqn:Hb; cbn [negb].
  - exists []. simpl. split; [reflexivity|]. split; [constructor|].
    split; [lia|discriminate].
  - exists [(code, context)]. destruct context as [|c context]; [done|].
    split; [reflexivity|]. split; [|split; [simpl; lia|discriminate]].
    constructor; [|constructor]. split; [exact Hb|discriminate].
Qed.

Lemma adds_for_each {A} k (body : GoModelTrainer → A → GoModelTrainer * option exn)
    (l : list A) : ∀ self,
  (∀ self a, adds k self (body self a)) →
  adds (k * length l) self (for_each body self l).
Proof.
  induction l as [|a l IH]; intros self Hbody; cbn [for_each].
  - apply adds_none.
  - destruct (body self a) as [self' [e|]] eqn:E.
    + eapply adds_weaken; [|rewrite <- E; apply Hbody]. simpl. lia.
    + replace (k * length (a :: l))%nat with (k + k * length l)%nat
        by (simpl; lia).
      apply (adds_then _ _ _ (body self a)); [apply Hbody|].
      rewrite E. apply IH, Hbody.
Qed.

Section CollectFacts.
Context {Bytes : Type}.
Variable a2b_base64 : str → option Bytes.
Variable utf8_decode : Bytes → option str.
Variable search_get : nat → response (option (list Repo)).
Variable trees_get : str → response (option (list TreeItem)).
Variable contents_get : str → response (option str).
Variable docs_get : str → response str.

Lemma adds_collect_file repo_name self file_info :
  adds 1 self
    (collect_file a2b_base64 utf8_decode contents_get repo_name self file_info).
Proof.
  unfold collect_file, download_file_content.
  destruct (contents_get _) as [|[encoded|]].
  - apply adds_none.
  - destruct (b64decode a2b_base64 encoded) as [raw|e] eqn:Hraw.
    + destruct (utf8_decode raw) as [content|].
      * destruct (truthy content); [|apply adds_none].
        destruct (truthy (clean_go_code content)); [|apply adds_none].
        apply adds_extend. discriminate.
      * apply adds_raised. unfold scraper_error. tauto.
    + apply adds_raised. unfold scraper_error.
      apply b64decode_raised in Hraw as [[-> _]|[-> _]]; tauto.
  - apply adds_raised. unfold scraper_error. tauto.
Qed.

Lemma get_repo_files_length session_get repo max_files :
  (length (get_repo_files session_get repo max_files) ≤ Z.to_nat max_files)%nat.
Proof.
  destruct (session_get (trees_url repo)) as [|tree] eqn:Hget.
  - unfold get_repo_files. rewrite Hget. simpl. lia.
  - rewrite (get_repo_files_listing _ _ _ _ Hget), length_take. lia.
Qed.

Lemma adds_collect_repo self repo :
  adds 20 self
    (collect_repo a2b_base64 utf8_decode trees_get contents_get self repo).
Proof.
  unfold collect_repo.
  eapply adds_weaken; [|apply adds_for_each; intros; apply adds_collect_file].
  pose proof (get_repo_files_length trees_get (full_name repo) 20). lia.
Qed.

Lemma adds_collect_github github_token max_repos fuel self r :
  collect_github a2b_base64 utf8_decode search_get trees_get contents_get
    github_token max_repos fuel self = Some r →
  adds 1000 self r.
Proof.
  unfold collect_github.
  destruct github_token as [[|c token]|];
    [intros [= <-]; apply adds_none| |intros [= <-]; apply adds_none].
  destruct (get_top_go_repos search_get max_repos fuel) as [[repos|e]|] eqn:E;
    [| |discriminate]; intros [= <-].
  - eapply adds_weaken; [|apply adds_for_each; intros; apply adds_collect_repo].
    rewrite length_take. lia.
  - unfold get_top_go_repos in E.
    destruct (fetch_loop search_get max_repos fuel [] 1) as [[all|e']|] eqn:Hloop;
      [discriminate| |discriminate].
    injection E as <-.
    apply fetch_loop_exit in Hloop as (n & _ & _ & [[[=] _]|[[[=] _]|[[= ->] _]]]).
    apply adds_raised. unfold scraper_error. tauto.
Qed.

Lemma adds_collect_page self entry : adds 1 self (collect_page self entry).
Proof.
  destruct entry as [page content]. unfold collect_page.
  destruct (truthy content); [|apply adds_none].
  apply adds_extend. discriminate.
Qed.

Lemma adds_collect_example self example :
  adds 1 self (collect_example self example).
Proof.
  unfold collect_example. destruct (truthy example); [|apply adds_none].
  apply adds_extend. discriminate.
Qed.

Lemma adds_collect_docs self :
  adds (7 + length (scrape_examples docs_get)) self (collect_docs docs_get self).
Proof.
  unfold collect_docs.
  destruct (for_each collect_page self (scrape_documentation docs_get))
    as [self' [e|]] eqn:E.
  - eapply adds_weaken;
      [|rewrite <- E; apply adds_for_each; intros; apply adds_collect_page].
    pose proof (scrape_documentation_length docs_get). lia.
  - apply (adds_then _ _ _
             (for_each collect_page self (scrape_documentation docs_get))).
    + eapply adds_weaken;
        [|apply adds_for_each; intros; apply adds_collect_page].
      rewrite Nat.mul_1_l. apply scrape_documentation_length.
    + rewrite E. cbn [fst].
      eapply adds_weaken;
        [|apply adds_for_each; intros; apply adds_collect_example].
      lia.
Qed.

(** The call, from a trainer that holds a list. *)
Lemma adds_collect_training_data github_token max_repos fuel self self' r :
  collect_training_data a2b_base64 utf8_decode search_get trees_get contents_get
    docs_get github_token max_repos fuel self = Some (self', r) →
  adds (1000 + (7 + length (scrape_examples docs_get))) self (self', r).
Proof.
  unfold collect_training_data.
  destruct (collect_github _ _ _ _ _ _ _ _ _) as [[self1 [e|]]|] eqn:E1;
    [| |discriminate].
  - intros [= <- <-]. eapply adds_weaken; [|exact (adds_collect_github _ _ _ _ _ E1)].
    lia.
  - pose proof (adds_then _ _ _ _ _ (adds_collect_github _ _ _ _ _ E1)
                  (adds_collect_docs self1)) as H.
    cbn [fst] in H.
    destruct (collect_docs docs_get self1) as [self2 [e|]] eqn:E2.
    + intros [= <- <-]. exact H.
    + intros Hlen items Hitems.
      destruct (H items Hitems) as (blocks & Hdata & Hl & Hn & He).
      cbn [fst] in Hdata. rewrite Hdata in Hlen. cbn [py_len] in Hlen.
      injection Hlen as <- <-. exists blocks. done.
Qed.

(** X17: from a trainer that holds a list, and however the call ends,
    the trainer holds afterwards what it held and, after it, groups of
    four pairs: the explanation, generation, debugging and improvement
    pairs of a text that is not blank, under a label that is not
    empty. *)
Theorem collect_training_data_groups github_token max_repos fuel old self' r :
  collect_training_data a2b_base64 utf8_decode search_get trees_get contents_get
    docs_get github_token max_repos fuel {| training_data := JList old |}
  = Some (self', r) →
  ∃ blocks,
    training_data self'
    = JList (old ++ map pair_json (blocks ≫= four_pairs))
    ∧ Forall labelled blocks.
Proof.
  intros H. apply adds_collect_training_data in H.
  destruct (H old eq_refl) as (blocks & Hdata & Hl & _).
  exists blocks. done.
Qed.

(** X18: the call appends, and at most four pairs for each of 50
    repositories times 20 files, 7 pages of documentation and the
    examples scraped, whatever [max_repos] is. *)
Theorem collect_training_data_bound github_token max_repos fuel old self' r :
  collect_training_data a2b_base64 utf8_decode search_get trees_get contents_get
    docs_get github_token max_repos fuel {| training_data := JList old |}
  = Some (self', r) →
  ∃ new,
    training_data self' = JList (old ++ new)
    ∧ (length new
       ≤ 4 * (50 * 20 + 7 + length (scrape_examples docs_get)))%nat.
Proof.
  intros H. apply adds_collect_training_data in H.
  destruct (H old eq_refl) as (blocks & Hdata & _ & Hn & _).
  eexists. split; [exact Hdata|]. rewrite length_map.
  assert (Hfour : ∀ l : list (str * str),
            length (l ≫= four_pairs) = (4 * length l)%nat).
  { induction l as [|b l IH]; [reflexivity|].
    rewrite bind_cons, length_app, IH. simpl. lia. }
  rewrite Hfour. lia.
Qed.

(** The part on the documentation raises nothing on a trainer that
    holds a list. *)
Lemma for_each_calm {A} (body : GoModelTrainer → A → GoModelTrainer * option exn)
    (l : list A) : ∀ self,
  (∀ self a, calm self (body self a)) → calm self (for_each body self l).
Proof.
  induction l as [|a l IH]; intros self Hbody items Hitems; cbn [for_each].
  - split; [reflexivity|eauto].
  - destruct (Hbody self a items Hitems) as [He [items' Hitems']].
    destruct (body self a) as [self1 r]. cbn [fst snd] in *. subst r.
    exact (IH self1 Hbody items' Hitems').
Qed.

Lemma calm_extend self pairs : calm self (extend self pairs).
Proof.
  intros items Hitems. unfold extend. rewrite Hitems. split; [reflexivity|eauto].
Qed.

Lemma calm_none self : calm self (self, None).
Proof. intros items Hitems. split; [reflexivity|eauto]. Qed.

Lemma calm_collect_docs self : calm self (collect_docs docs_get self).
Proof.
  intros items Hitems. unfold collect_docs.
  assert (H1 : calm self (for_each collect_page self
                            (scrape_documentation docs_get))).
  { apply for_each_calm. intros s [page content]. unfold collect_page.
    destruct (truthy content); [apply calm_extend|apply calm_none]. }
  destruct (H1 items Hitems) as [He [items1 Hitems1]].
  destruct (for_each collect_page self _) as [self1 r]. cbn [fst snd] in *.
  subst r.
  assert (H2 : calm self1 (for_each collect_example self1
                             (scrape_examples docs_get))).
  { apply for_each_calm. intros s example. unfold collect_example.
    destruct (truthy example); [apply calm_extend|apply calm_none]. }
  exact (H2 items1 Hitems1).
Qed.

(** X19: from a trainer that holds a list the call raises only with a
    token, and only what the scraper lets through: [KeyError],
    [ValueError], [binascii.Error] or [UnicodeDecodeError]. *)
Theorem collect_training_data_errors github_token max_repos fuel old self' e :
  collect_training_data a2b_base64 utf8_decode search_get trees_get contents_get
    docs_get github_token max_repos fuel {| training_data := JList old |}
  = Some (self', Some e) →
  (∃ token, github_token = Some token ∧ token ≠ [])
  ∧ (e = KeyError ∨ e = ValueError ∨ e = BinasciiError
     ∨ e = UnicodeDecodeError).
Proof.
  intros H. split.
  - destruct github_token as [[|c token]|]; [exfalso| |exfalso].
    2: { exists (c :: token). done. }
    all: unfold collect_training_data, collect_github in H;
      destruct (calm_collect_docs {| training_data := JList old |} old eq_refl)
        as [He [items Hitems]];
      destruct (collect_docs docs_get _) as [self1 r1]; cbn [fst snd] in *;
      subst r1; rewrite Hitems in H; discriminate H.
  - apply adds_collect_training_data in H.
    destruct (H old eq_refl) as (_ & _ & _ & _ & He). exact (He e eq_refl).
Qed.

(** X20: without a token, or with the empty one, the call asks GitHub
    nothing: it ends whatever the number of requests allowed, raises
    nothing, and does what the part on the documentation does. *)
Theorem collect_training_data_no_token github_token max_repos fuel old :
  github_token = None ∨ github_token = Some [] →
  ∃ self',
    collect_training_data a2b_base64 utf8_decode search_get trees_get
      contents_get docs_get github_token max_repos fuel
      {| training_data := JList old |}
    = Some (self', None)
    ∧ collect_docs docs_get {| training_data := JList old |} = (self', None).
Proof.
  intros Htoken.
  destruct (calm_collect_docs {| training_data := JList old |} old eq_refl)
    as [He [items Hitems]].
  destruct (collect_docs docs_get _) as [self1 r1] eqn:E. cbn [fst snd] in *.
  subst r1. exists self1. split; [|reflexivity].
  unfold collect_training_data, collect_github.
  destruct Htoken as [-> | ->]; rewrite E, Hitems; reflexivity.
Qed.
End CollectFacts.

Lemma collect_training_data_groups_witness :
  ∃ blocks,
    JList (map pair_json
             (four_pairs (lit "package", lit "from acme/widget")
              ++ four_pairs (lit "Why Go?",
                             lit "Go documentation from /doc/faq")
              ++ four_pairs (lit "fmt.Println(1)", lit "Go example")))
    = JList ([] ++ map pair_json (blocks ≫= four_pairs))
    ∧ Forall labelled blocks.
Proof.
  apply (collect_training_data_groups example_a2b_base64 example_utf8_decode
           example_search_get example_trees_get example_contents_get
           example_docs_get (Some (lit "token")) 50 2 []
           {| training_data := JList (map pair_json
                (four_pairs (lit "package", lit "from acme/widget")
                 ++ four_pairs (lit "Why Go?",
                                lit "Go documentation from /doc/faq")
                 ++ four_pairs (lit "fmt.Println(1)", lit "Go example"))) |}
           None).
  vm_compute. reflexivity.
Defined.

Lemma collect_training_data_bound_witness :
  ∃ new,
    JList (map pair_json
             (four_pairs (lit "package", lit "from acme/widget")
              ++ four_pairs (lit "Why Go?",
                             lit "Go documentation from /doc/faq")
              ++ four_pairs (lit "fmt.Println(1)", lit "Go example")))
    = JList ([] ++ new)
    ∧ (length new
       ≤ 4 * (50 * 20 + 7 + length (scrape_examples example_docs_get)))%nat.
Proof.
  apply (collect_training_data_bound example_a2b_base64 example_utf8_decode
           example_search_get example_trees_get example_contents_get
           example_docs_get (Some (lit "token")) 50 2 []
           {| training_data := JList (map pair_json
                (four_pairs (lit "package", lit "from acme/widget")
                 ++ four_pairs (lit "Why Go?",
                                lit "Go documentation from /doc/faq")
                 ++ four_pairs (lit "fmt.Println(1)", lit "Go example"))) |}
           None).
  vm_compute. reflexivity.
Defined.

Lemma collect_training_data_errors_witness :
  collect_training_data example_a2b_base64 example_utf8_decode
    example_search_get example_trees_get (λ _, Body None) example_docs_get
    (Some (lit "token")) 50 2 new_trainer
  = Some (new_trainer, Some KeyError)
  ∧ (∃ token, Some (lit "token") = Some token ∧ token ≠ [])
  ∧ (KeyError = KeyError ∨ KeyError = ValueError
     ∨ KeyError = BinasciiError ∨ KeyError = UnicodeDecodeError).
Proof.
  split; [vm_compute; reflexivity|].
  apply (collect_training_data_errors example_a2b_base64 example_utf8_decode
           example_search_get example_trees_get (λ _, Body None)
           example_docs_get (Some (lit "token")) 50 2 [] new_trainer
           KeyError).
  vm_compute. reflexivity.
Defined.

Lemma collect_training_data_no_token_witness :
  ∃ self',
    collect_training_data example_a2b_base64 example_utf8_decode
      example_search_get example_trees_get example_contents_get
      example_docs_get None 50 0 {| training_data := JList [] |}
    = Some (self', None)
    ∧ collect_docs example_docs_get {| training_data := JList [] |}
      = (self', None).
Proof.
  apply (collect_training_data_no_token example_a2b_base64 example_utf8_decode
           example_search_get example_trees_get example_contents_get
           example_docs_get None 50 0 []).
  left. reflexivity.
Defined.

(** ** train_model *)

(** X21: on data that are empty or false the call writes nothing, logs
    the two errors and returns; on a sequence of pairs it writes the
    configuration with the number of pairs to
    [output_dir/training_config.json], or raises [OSError] when that
    path cannot be opened, after it logged the training as completed; an
    exception of [prepare_dataset] leaves the call, nothing written. *)
Theorem train_model_effect (repr : json → str) (writable : str → bool)
    (config : TrainingConfig) (fs : filesystem) :
  (∀ self, json_truthy (training_data self) = false →
     train_model repr writable config self fs
     = (fs, None,
        [(INFO, lit "Starting model training...");
         (INFO, lit "Preparing dataset...");
         (ERROR, lit "No training data available");
         (ERROR, lit "Failed to prepare dataset")]))
  ∧ (∀ pairs, pairs ≠ [] →
       writable (output_dir config ++ lit "/training_config.json") = true →
       train_model repr writable config {| training_data := dataset pairs |} fs
       = (<[output_dir config ++ lit "/training_config.json"
            := dumps_config (config_members config (length pairs))]> fs,
          None,
          [(INFO, lit "Starting model training...");
           (INFO, lit "Preparing dataset...");
           (INFO, lit "Training model with " ++ decimal (length pairs)
                  ++ lit " examples");
           (INFO, lit "Model training completed (placeholder)");
           (INFO, lit "Model saved to " ++ output_dir config)]))
  ∧ (∀ pairs, pairs ≠ [] →
       writable (output_dir config ++ lit "/training_config.json") = false →
       train_model repr writable config {| training_data := dataset pairs |} fs
       = (fs, Some OSError,
          [(INFO, lit "Starting model training...");
           (INFO, lit "Preparing dataset...");
           (INFO, lit "Training model with " ++ decimal (length pairs)
                  ++ lit " examples");
           (INFO, lit "Model training completed (placeholder)")]))
  ∧ (∀ self e, (prepare_dataset repr self).1 = Raised e →
       (train_model repr writable config self fs).1
       = (fs, Some e)).
Proof.
  split; [|split; [|split]].
  - intros self H. unfold train_model, prepare_dataset. rewrite H. reflexivity.
  - intros pairs Hne Hw. unfold train_model. rewrite prepare_dataset_dataset.
    destruct pairs as [|p pairs]; [done|].
    cbn [map]. rewrite Hw. cbn [length]. rewrite length_map. reflexivity.
  - intros pairs Hne Hw. unfold train_model. rewrite prepare_dataset_dataset.
    destruct pairs as [|p pairs]; [done|].
    cbn [map]. rewrite Hw. cbn [length]. rewrite length_map. reflexivity.
  - intros self e H. unfold train_model.
    destruct (prepare_dataset repr self) as [[d|e'] logged']; [discriminate|].
    injection H as ->. reflexivity.
Qed.

(** *** The text of the configuration file *)

Lemma hexdigit_ascii n : n < 16 → ascii_text (hexdigit n) = true.
Proof.
  intros H. unfold hexdigit, ascii_text. apply orb_true_iff. right.
  destruct (n <? 10); apply andb_true_iff; split; apply N.leb_le; lia.
Qed.

Lemma hex4_digits_ascii n :
  n < 65536 → forallb ascii_text (hex4_digits n) = true.
Proof.
  intros H. unfold hex4_digits. cbn [forallb].
  rewrite !hexdigit_ascii; [reflexivity|..];
    try (apply N.mod_upper_bound; lia).
  apply N.Div0.div_lt_upper_bound. lia.
Qed.

Lemma surrogate_bound base x :
  base < 65536 → x < 1024 → N.lor base x < 65536.
Proof.
  intros Hb Hx.
  destruct (N.eq_dec (N.lor base x) 0) as [->|Hne]; [lia|].
  change 65536 with (2 ^ 16). apply N.log2_lt_pow2; [lia|].
  rewrite N.log2_lor.
  assert (H1 : N.log2 base < 16).
  { destruct (N.eq_dec base 0) as [->|]; [reflexivity|].
    apply N.log2_lt_pow2; [lia|exact Hb]. }
  assert (H2 : N.log2 x < 16).
  { destruct (N.eq_dec x 0) as [->|]; [reflexivity|].
    apply N.log2_lt_pow2; [lia|]. simpl. lia. }
  lia.
Qed.

Lemma escape_char_ascii_ascii c :
  forallb ascii_text (escape_char_ascii c) = true.
Proof.
  unfold escape_char_ascii.
  repeat match goal with
         | |- context [N.eqb c ?x] =>
             destruct (N.eqb_spec c x) as [->|]; [reflexivity|]
         end.
  destruct ((32 <=? c) && (c <=? 126)) eqn:Hp.
  - cbn [forallb]. unfold ascii_text. rewrite Hp, orb_true_r. reflexivity.
  - destruct (N.ltb_spec c 65536) as [Hlt|Hge].
    + change (lit "\u" ++ hex4_digits c) with (92 :: 117 :: hex4_digits c).
      cbn [forallb]. rewrite (hex4_digits_ascii c Hlt). reflexivity.
    + cbv zeta. rewrite !forallb_app.
      rewrite !hex4_digits_ascii; [reflexivity|..];
        (apply surrogate_bound; [lia|apply N.mod_upper_bound; lia]).
Qed.

Lemma encode_string_ascii_ascii s :
  forallb ascii_text (encode_string_ascii s) = true.
Proof.
  unfold encode_string_ascii. rewrite !forallb_app. cbn [forallb].
  change (ascii_text QUOTE) with true. rewrite andb_true_r. cbn [andb].
  induction s as [|c s IH]; [reflexivity|].
  cbn [map concat]. rewrite forallb_app, escape_char_ascii_ascii. exact IH.
Qed.

Lemma string_of_uint_ascii u :
  forallb ascii_text (lit (NilEmpty.string_of_uint u)) = true.
Proof. induction u; simpl; try rewrite IHu; reflexivity. Qed.

Lemma decimal_ascii n : forallb ascii_text (decimal n) = true.
Proof.
  unfold decimal, NilZero.string_of_uint.
  destruct (Nat.to_uint n); try reflexivity; apply string_of_uint_ascii.
Qed.

Lemma decimal_int_ascii n : forallb ascii_text (decimal_int n) = true.
Proof.
  unfold decimal_int. destruct (n <? 0)%Z.
  - rewrite forallb_app, decimal_ascii. reflexivity.
  - apply decimal_ascii.
Qed.

Lemma newline_indent_ascii level :
  forallb ascii_text (newline_indent level) = true.
Proof.
  unfold newline_indent. cbn [forallb]. change (ascii_text NL) with true.
  cbn [andb]. induction (2 * level)%nat as [|n IH]; [reflexivity|].
  cbn [repeat forallb]. change (ascii_text 32) with true. exact IH.
Qed.

Lemma join_ascii sep parts :
  forallb ascii_text sep = true →
  Forall (λ x, forallb ascii_text x = true) parts →
  forallb ascii_text (join sep parts) = true.
Proof.
  intros Hsep. induction 1 as [|x parts Hx _ IH]; [reflexivity|].
  cbn [join]. destruct parts as [|y parts]; [exact Hx|].
  rewrite !forallb_app, Hx, Hsep, IH. reflexivity.
Qed.

Lemma dumps_config_ascii members :
  forallb ascii_text (dumps_config members) = true.
Proof.
  destruct members as [|m members]; [reflexivity|].
  unfold dumps_config. set (items := m :: members).
  rewrite !forallb_app, !newline_indent_ascii.
  change (forallb ascii_text (lit "{")) with true.
  change (forallb ascii_text (lit "}")) with true.
  rewrite andb_true_r. cbn [andb].
  apply join_ascii.
  - rewrite forallb_app, newline_indent_ascii. reflexivity.
  - apply Forall_forall. intros x Hx.
    apply list_elem_of_fmap in Hx as ([k v] & -> & _). cbn [fst snd].
    rewrite !forallb_app, encode_string_ascii_ascii.
    change (forallb ascii_text (lit ": ")) with true. cbn [andb].
    destruct v; [apply encode_string_ascii_ascii|apply decimal_int_ascii].
Qed.

(** X22: after the call every file is as before, except the
    configuration file, whose text is ASCII whatever the configuration
    holds. *)
Theorem train_model_files (repr : json → str) (writable : str → bool)
    (config : TrainingConfig) (self : GoModelTrainer) (fs : filesystem) :
  (∀ path, path ≠ output_dir config ++ lit "/training_config.json" →
     (train_model repr writable config self fs).1.1 !! path = fs !! path)
  ∧ (∀ text,
       (train_model repr writable config self fs).1.1
         !! (output_dir config ++ lit "/training_config.json") = Some text →
       fs !! (output_dir config ++ lit "/training_config.json") = Some text
       ∨ forallb ascii_text text = true).
Proof.
  unfold train_model.
  destruct (prepare_dataset repr self) as [[[[|t texts]|]|e] logged'];
    cbn [fst]; try (split; [reflexivity|tauto]).
  destruct (writable _); cbn [fst]; [|split; [reflexivity|tauto]].
  split.
  - intros path Hne. apply lookup_insert_ne. congruence.
  - intros text H. rewrite lookup_insert_eq in H. apply (inj Some) in H.
    subst text. right. apply dumps_config_ascii.
Qed.

Example dumps_config_sample :
  dumps_config
    (config_members {| base_model := lit "caf" ++ [233; 128512];
                       output_dir := lit "out";
                       max_length := 512; batch_size := 4;
                       num_epochs := 3 |} 1)
  = lit "{" ++ [NL] ++ lit "  " ++ [QUOTE] ++ lit "base_model" ++ [QUOTE]
    ++ lit ": " ++ [QUOTE] ++ lit "caf\u00e9\ud83d\ude00" ++ [QUOTE] ++ lit ","
    ++ [NL] ++ lit "  " ++ [QUOTE] ++ lit "training_examples" ++ [QUOTE]
    ++ lit ": 1," ++ [NL] ++ lit "  " ++ [QUOTE] ++ lit "max_length" ++ [QUOTE]
    ++ lit ": 512," ++ [NL] ++ lit "  " ++ [QUOTE] ++ lit "batch_size" ++ [QUOTE]
    ++ lit ": 4," ++ [NL] ++ lit "  " ++ [QUOTE] ++ lit "num_epochs" ++ [QUOTE]
    ++ lit ": 3" ++ [NL] ++ lit "}".
Proof. vm_compute. reflexivity. Qed.

(** ** main *)

Lemma train_model_dataset repr writable config pairs fs :
  (train_model repr writable config {| training_data := dataset pairs |} fs).1
  = match pairs with
    | [] => (fs, None)
    | _ :: _ =>
        if writable (output_dir config ++ lit "/training_config.json")
        then (<[output_dir config ++ lit "/training_config.json"
                := dumps_config (config_members config (length pairs))]> fs,
              None)
        else (fs, Some OSError)
    end.
Proof.
  unfold train_model. rewrite prepare_dataset_dataset.
  destruct pairs as [|p pairs]; [reflexivity|].
  cbn [map length]. rewrite length_map.
  destruct (writable _); reflexivity.
Qed.

Lemma four_pairs_length (blocks : list (str * str)) :
  length (blocks ≫= four_pairs) = (4 * length blocks)%nat.
Proof.
  induction blocks as [|b l IH]; [reflexivity|].
  rewrite bind_cons, length_app, IH. simpl. lia.
Qed.

Section MainFacts.
Context {Bytes : Type}.
Variable repr : json → str.
Variable writable : str → bool.
Variable a2b_base64 : str → option Bytes.
Variable utf8_decode : Bytes → option str.
Variable search_get : nat → response (option (list Repo)).
Variable trees_get : str → response (option (list TreeItem)).
Variable contents_get : str → response (option str).
Variable docs_get : str → response str.

(** X23: when [main] returns, the file [training_data.json] holds the
    groups of four pairs collected; if there is none the file holds [[]]
    and no configuration is written, otherwise the configuration file
    holds the configuration of [main] with the number of pairs, four for
    each text; every other file is as before. *)
Theorem main_files (getenv : option str) (fuel : nat) (fs fs' : filesystem) :
  main repr writable a2b_base64 utf8_decode search_get trees_get contents_get
    docs_get getenv fuel fs = Some (inl fs') →
  ∃ blocks,
    Forall labelled blocks
    ∧ fs' = match blocks with
            | [] => <[lit "training_data.json" := lit "[]"]> fs
            | _ :: _ =>
                <[lit "./go-ai-model/training_config.json"
                  := dumps_config
                       (config_members main_config (4 * length blocks))]>
                  (<[lit "training_data.json"
                     := dumps 0 (dataset (blocks ≫= four_pairs))]> fs)
            end.
Proof.
  unfold main.
  destruct (collect_training_data _ _ _ _ _ _ _ _ _ _)
    as [[trainer [e|]]|] eqn:Hc; [discriminate| |discriminate].
  apply adds_collect_training_data in Hc.
  destruct (Hc [] eq_refl) as (blocks & Hdata & Hl & _).
  cbn [fst app] in Hdata. destruct trainer as [data]. cbn [training_data] in Hdata.
  subst data. fold (dataset (blocks ≫= four_pairs)).
  unfold save_training_data. cbn [training_data].
  destruct (writable (lit "training_data.json")); [|discriminate].
  destruct (forallb utf8_encodable _); cbn [fst]; [|discriminate].
  pose proof (train_model_dataset repr writable main_config
                (blocks ≫= four_pairs)
                (<[lit "training_data.json"
                   := dumps 0 (dataset (blocks ≫= four_pairs))]> fs)) as Ht.
  destruct (train_model _ _ _ _ _) as [[fs2 r] logged]. cbn [fst] in Ht.
  intros H. exists blocks. split; [exact Hl|].
  destruct blocks as [|b blocks].
  - injection Ht as -> ->. injection H as <-. reflexivity.
  - rewrite bind_cons in Ht. cbn [four_pairs app] in Ht.
    change (output_dir main_config ++ lit "/training_config.json")
      with (lit "./go-ai-model/training_config.json") in Ht.
    destruct (writable (lit "./go-ai-model/training_config.json")).
    + injection Ht as -> ->. injection H as <-.
      rewrite bind_cons. cbn [four_pairs app length].
      rewrite four_pairs_length.
      replace (S (S (S (S (4 * length blocks)))))
        with (4 * S (length blocks))%nat by lia.
      reflexivity.
    + injection Ht as -> ->. discriminate H.
Qed.

(** X24: an exception that leaves [main] is one the scraper lets
    through ([KeyError], [ValueError], [binascii.Error] or
    [UnicodeDecodeError]), and then a token was set, or the
    [UnicodeEncodeError] of the dataset file, or the [OSError] of a
    dataset file or a configuration file that cannot be opened;
    [prepare_dataset] never raises in [main]. *)
Theorem main_errors (getenv : option str) (fuel : nat) (fs : filesystem) (e : exn) :
  main repr writable a2b_base64 utf8_decode search_get trees_get contents_get
    docs_get getenv fuel fs = Some (inr e) →
  ((e = KeyError ∨ e = ValueError ∨ e = BinasciiError
    ∨ e = UnicodeDecodeError)
   ∧ ∃ token, getenv = Some token ∧ token ≠ [])
  ∨ e = UnicodeEncodeError
  ∨ (e = OSError
     ∧ (writable (lit "training_data.json") = false
        ∨ writable (lit "./go-ai-model/training_config.json") = false)).
Proof.
  unfold main.
  destruct (collect_training_data _ _ _ _ _ _ _ _ _ _)
    as [[trainer [e'|]]|] eqn:Hc; [| |discriminate].
  - intros [= <-]. left.
    pose proof (adds_collect_training_data _ _ _ _ _ _ _ _ _ _ _ _ Hc) as Ha.
    destruct (Ha [] eq_refl) as (_ & _ & _ & _ & He).
    split; [exact (He e' eq_refl)|].
    destruct getenv as [[|c token]|]; [exfalso| |exfalso].
    2: { exists (c :: token). done. }
    all: unfold collect_training_data, collect_github in Hc;
      destruct (calm_collect_docs docs_get new_trainer [] eq_refl)
        as [Hq [items Hitems]];
      destruct (collect_docs docs_get _) as [self1 r1]; cbn [fst snd] in *;
      subst r1; rewrite Hitems in Hc; discriminate Hc.
  - apply adds_collect_training_data in Hc.
    destruct (Hc [] eq_refl) as (blocks & Hdata & Hl & _).
    cbn [fst app] in Hdata. destruct trainer as [data].
    cbn [training_data] in Hdata. subst data.
    fold (dataset (blocks ≫= four_pairs)).
    unfold save_training_data. cbn [training_data].
    destruct (writable (lit "training_data.json")) eqn:Hwd;
      [|intros [= <-]; right; right; split; [reflexivity|by left]].
    destruct (forallb utf8_encodable _); cbn [fst];
      [|intros [= <-]; right; left; reflexivity].
    pose proof (train_model_dataset repr writable main_config
                  (blocks ≫= four_pairs)
                  (<[lit "training_data.json"
                     := dumps 0 (dataset (blocks ≫= four_pairs))]> fs)) as Ht.
    destruct (train_model _ _ _ _ _) as [[fs2 r] logged]. cbn [fst] in Ht.
    change (output_dir main_config ++ lit "/training_config.json")
      with (lit "./go-ai-model/training_config.json") in Ht.
    destruct (blocks ≫= four_pairs) as [|p pairs].
    + injection Ht as -> ->. discriminate.
    + destruct (writable (lit "./go-ai-model/training_config.json")) eqn:Hw.
      * injection Ht as -> ->. discriminate.
      * injection Ht as -> ->. intros [= <-]. right; right.
        split; [reflexivity|by right].
Qed.
End MainFacts.

Lemma main_files_witness :
  ∃ blocks,
    Forall labelled blocks
    ∧ <[lit "./go-ai-model/training_config.json"
        := dumps_config (config_members main_config 8)]>
        (<[lit "training_data.json"
           := dumps 0 (dataset
                (four_pairs (lit "Why Go?", lit "Go documentation from /doc/faq")
                 ++ four_pairs (lit "fmt.Println(1)", lit "Go example")))]>
           (∅ : gmap (list N) (list N)))
      = match blocks with
        | [] => <[lit "training_data.json" := lit "[]"]> ∅
        | _ :: _ =>
            <[lit "./go-ai-model/training_config.json"
              := dumps_config
                   (config_members main_config (4 * length blocks))]>
              (<[lit "training_data.json"
                 := dumps 0 (dataset (blocks ≫= four_pairs))]> ∅)
        end.
Proof.
  apply (main_files (λ _, []) (λ _, true) example_a2b_base64 example_utf8_decode
           example_search_get example_trees_get example_contents_get
           example_docs_get None 0 ∅).
  reflexivity.
Defined.

Lemma main_errors_witness :
  ((OSError = KeyError ∨ OSError = ValueError ∨ OSError = BinasciiError
    ∨ OSError = UnicodeDecodeError)
   ∧ ∃ token, @None (list N) = Some token ∧ token ≠ [])
  ∨ OSError = UnicodeEncodeError
  ∨ (OSError = OSError
     ∧ (example_writable (lit "training_data.json") = false
        ∨ example_writable (lit "./go-ai-model/training_config.json")
          = false)).
Proof.
  apply (main_errors (λ _, [])
           example_writable
           example_a2b_base64 example_utf8_decode
           example_search_get example_trees_get example_contents_get
           example_docs_get None 0 ∅ OSError).
  reflexivity.
Defined.
